(** * TickTick MCP server: session manager, task aggregation and date classification

    A shallow embedding of [src/ticktick-client.ts] (with the record types of
    [src/types.ts]) and the properties that the design document states
    about it.

    Layout:
    - [JS]: the part of the JavaScript runtime the client relies on
      (truthiness, [Date] objects, [toISOString], string comparison);
    - [TickTickTask], [TickTickProject], [TickTickConfig]: the records of
      [types.ts];
    - the display normaliser and the two date classifiers;
    - [Http]: the axios transport, as outcomes of typed endpoints;
    - [Client]: the [TickTickClient] class in a state-and-exception monad;
    - the theorems. *)

From Stdlib Require Import ZArith List String Ascii Bool Lia.
Import ListNotations.

Local Open Scope Z_scope.

(* ================================================================== *)
(** * The JavaScript runtime *)
(* ================================================================== *)

Module JS.

(** ** Truthiness *)

(** [ToBoolean] on an optional string property: [undefined] and the empty
    string are falsy. *)
Definition truthy_string (v : option string) : bool :=
  match v with
  | None => false
  | Some s => negb (String.eqb s EmptyString)
  end.

(** [ToBoolean] on an optional boolean property. *)
Definition truthy_bool (v : option bool) : bool :=
  match v with
  | None => false
  | Some b => b
  end.

(** [ToBoolean] on an optional integral number property. *)
Definition truthy_number (v : option Z) : bool :=
  match v with
  | None => false
  | Some n => negb (n =? 0)
  end.

(** ** Decimal rendering *)

Definition digit (n : Z) : ascii := ascii_of_nat (48 + Z.to_nat (n mod 10)).

(** [padded w n]: the [w] low decimal digits of [n], most significant
    first.  For [0 <= n < 10 ^ w] this is [String(n).padStart(w, "0")]. *)
Fixpoint padded (w : nat) (n : Z) : string :=
  match w with
  | O => EmptyString
  | S w' => String (digit (n / 10 ^ Z.of_nat w'))
                   (padded w' (n mod 10 ^ Z.of_nat w'))
  end.

(** Decimal digits of a positive number, without leading zeros; [fuel]
    bounds the number of digits. *)
Fixpoint unpadded (fuel : nat) (n : Z) (acc : string) : string :=
  match fuel with
  | O => acc
  | S fuel' =>
      if n <? 10 then String (digit n) acc
      else unpadded fuel' (n / 10) (String (digit n) acc)
  end.

(** [Number::toString] on an integer below [2 ^ 53] in magnitude: there
    every integer is a Number and JavaScript prints its decimal digits.
    (From [2 ^ 53] on a Number prints the shortest digits that read back
    as it, and from [10 ^ 21] on it prints with an exponent; the
    definition does not follow that, and stands for the runtime below
    [2 ^ 53] only.) *)
Definition Number_toString (n : Z) : string :=
  if n <? 0 then String "-" (unpadded 21 (- n) EmptyString)
  else unpadded 21 n EmptyString.

(** A number property inside a template literal; an absent property
    prints as [undefined]. *)
Definition template_number (v : option Z) : string :=
  match v with
  | Some n => Number_toString n
  | None => "undefined"
  end.

(** A parameter declared with a default value: an omitted argument takes
    the default. *)
Definition or_default {A} (v : option A) (default : A) : A :=
  match v with
  | Some x => x
  | None => default
  end.

(** A string property inside a template literal. *)
Definition template_string (v : option string) : string :=
  match v with
  | Some s => s
  | None => "undefined"
  end.

(** ** Time values and [Date] objects *)

Definition msPerSecond : Z := 1000.
Definition msPerMinute : Z := 60000.
Definition msPerHour : Z := 3600000.
Definition msPerDay : Z := 86400000.

(** The largest magnitude of a time value: 100,000,000 days. *)
Definition maxTime : Z := 8640000000000000.

(** A number that is either an integer or [NaN]. *)
Definition number := option Z.

(** A [Date] object is its time value; [None] is the Invalid Date. *)
Definition Date := option Z.

Definition TimeClip (v : Z) : Date :=
  if Z.abs v <=? maxTime then Some v else None.

(** [new Date(v)] on a number. *)
Definition new_Date_number (v : number) : Date :=
  match v with
  | Some t => TimeClip t
  | None => None
  end.

(** [d.getTime()]. *)
Definition getTime (d : Date) : number := d.

(** [x + k] on numbers; [NaN] is absorbing. *)
Definition plus (x : number) (k : Z) : number :=
  match x with
  | Some t => Some (t + k)
  | None => None
  end.

(** [a < b] on two [Date] objects: both are converted to their time
    values, and any comparison with [NaN] is false. *)
Definition Date_lt (a b : Date) : bool :=
  match a, b with
  | Some x, Some y => x <? y
  | _, _ => false
  end.

(** ** Calendar fields of a time value *)

Definition Day (t : Z) : Z := t / msPerDay.

(** Proleptic Gregorian year, month (1..12) and day of month (1..31) of a
    day number counted from 1970-01-01.  The computation works in the
    400-year cycle that starts on a 1 March. *)
Definition civil_from_days (day : Z) : Z * Z * Z :=
  let z := day + 719468 in
  let era := z / 146097 in
  let doe := z mod 146097 in
  let yoe := (doe - doe / 1460 + doe / 36524 - doe / 146096) / 365 in
  let doy := doe - (365 * yoe + yoe / 4 - yoe / 100) in
  let mp := (5 * doy + 2) / 153 in
  let d := doy - (153 * mp + 2) / 5 + 1 in
  let m := if mp <? 10 then mp + 3 else mp - 9 in
  (yoe + era * 400 + (if m <=? 2 then 1 else 0), m, d).

(** The inverse direction, used by [MakeDay]. *)
Definition days_from_civil (y m d : Z) : Z :=
  let y' := if m <=? 2 then y - 1 else y in
  let era := y' / 400 in
  let yoe := y' mod 400 in
  let mp := if 2 <? m then m - 3 else m + 9 in
  let doy := (153 * mp + 2) / 5 + d - 1 in
  let doe := yoe * 365 + yoe / 4 - yoe / 100 + doy in
  era * 146097 + doe - 719468.

(** ECMAScript's own definitions: the day number a year starts on, whether
    a year is a leap year (1 or 0), and month (0..11) and day of month
    read off the table of month starts from the day within the year.
    [civil_from_days] computes the year these definitions bracket and the
    month and day the table gives (lemma [civil_is_ecmascript]). *)
Definition DayFromYear (y : Z) : Z :=
  365 * (y - 1970) + (y - 1969) / 4 - (y - 1901) / 100 + (y - 1601) / 400.

Definition InLeapYear (y : Z) : Z := DayFromYear (y + 1) - DayFromYear y - 365.

Definition month_and_date (dayWithinYear leap : Z) : Z * Z :=
  let dwy := dayWithinYear in
  if dwy <? 31 then (0, dwy + 1)
  else if dwy <? 59 + leap then (1, dwy - 30)
  else if dwy <? 90 + leap then (2, dwy - 58 - leap)
  else if dwy <? 120 + leap then (3, dwy - 89 - leap)
  else if dwy <? 151 + leap then (4, dwy - 119 - leap)
  else if dwy <? 181 + leap then (5, dwy - 150 - leap)
  else if dwy <? 212 + leap then (6, dwy - 180 - leap)
  else if dwy <? 243 + leap then (7, dwy - 211 - leap)
  else if dwy <? 273 + leap then (8, dwy - 242 - leap)
  else if dwy <? 304 + leap then (9, dwy - 272 - leap)
  else if dwy <? 334 + leap then (10, dwy - 303 - leap)
  else (11, dwy - 333 - leap).

Definition YearFromTime (t : Z) : Z := fst (fst (civil_from_days (Day t))).
(** Zero-based, as in ECMAScript. *)
Definition MonthFromTime (t : Z) : Z := snd (fst (civil_from_days (Day t))) - 1.
Definition DateFromTime (t : Z) : Z := snd (civil_from_days (Day t)).
Definition HourFromTime (t : Z) : Z := (t / msPerHour) mod 24.
Definition MinFromTime (t : Z) : Z := (t / msPerMinute) mod 60.
Definition SecFromTime (t : Z) : Z := (t / msPerSecond) mod 60.
Definition msFromTime (t : Z) : Z := t mod msPerSecond.

(** ** [Date.prototype.toISOString] *)

(** Years 0..9999 print as four digits, any other year as a sign and six
    digits. *)
Definition year_string (y : Z) : string :=
  if (0 <=? y) && (y <=? 9999) then padded 4 y
  else String (if 0 <=? y then "+"%char else "-"%char) (padded 6 (Z.abs y)).

(** The part of the ISO string before the ["T"]. *)
Definition date_part (t : Z) : string :=
  (year_string (YearFromTime t) ++ "-" ++ padded 2 (MonthFromTime t + 1)
     ++ "-" ++ padded 2 (DateFromTime t))%string.

Definition time_part (t : Z) : string :=
  (padded 2 (HourFromTime t) ++ ":" ++ padded 2 (MinFromTime t) ++ ":"
     ++ padded 2 (SecFromTime t) ++ "." ++ padded 3 (msFromTime t) ++ "Z")%string.

(** Something thrown by a runtime function. *)
Inductive exception := RangeError (message : string).

(** [d.toISOString()]: throws a [RangeError] on the Invalid Date. *)
Definition toISOString (d : Date) : exception + string :=
  match d with
  | None => inl (RangeError "Invalid time value")
  | Some t => inr (date_part t ++ "T" ++ time_part t)%string
  end.

(** [s.split(sep)[0]] for a one-character separator: the text before the
    first occurrence of [sep], or all of [s] when there is none. *)
Fixpoint split_0 (sep : ascii) (s : string) : string :=
  match s with
  | EmptyString => EmptyString
  | String c r => if Ascii.eqb c sep then EmptyString else String c (split_0 sep r)
  end.

(** [a === b] and [a < b] on strings (code-unit order). *)
Definition string_eq (a b : string) : bool := String.eqb a b.
Definition string_lt (a b : string) : bool := String.ltb a b.

(** ** Reading the ECMAScript date-time string format

    [Date.parse] is implementation-defined outside the interchange format
    [YYYY-MM-DDTHH:mm:ss.sssZ] (with the expanded years [+YYYYYY] and
    [-YYYYYY], and optional fraction).  The classifiers below take the
    parser as a parameter; [parse_iso] reads the UTC interchange format
    and is what the concrete examples use. *)

Definition digit_value (c : ascii) : option Z :=
  let n := Z.of_nat (nat_of_ascii c) in
  if (48 <=? n) && (n <=? 57) then Some (n - 48) else None.

Fixpoint read_digits (w : nat) (acc : Z) (s : string) : option (Z * string) :=
  match w with
  | O => Some (acc, s)
  | S w' =>
      match s with
      | EmptyString => None
      | String c r =>
          match digit_value c with
          | Some d => read_digits w' (acc * 10 + d) r
          | None => None
          end
      end
  end.

Definition expect (c : ascii) (s : string) : option string :=
  match s with
  | String c' r => if Ascii.eqb c c' then Some r else None
  | EmptyString => None
  end.

Definition read_year (s : string) : option (Z * string) :=
  match s with
  | String "+" r => read_digits 6 0 r
  | String "-" r =>
      match read_digits 6 0 r with
      | Some (y, r') => if y =? 0 then None else Some (- y, r')
      | None => None
      end
  | _ => read_digits 4 0 s
  end.

Definition read_fraction (s : string) : option (Z * string) :=
  match s with
  | String "." r => read_digits 3 0 r
  | _ => Some (0, s)
  end.

Definition bind_opt {A B} (parsed : option A) (next : A -> option B) : option B :=
  match parsed with
  | None => None
  | Some a => next a
  end.

Definition parse_iso (s : string) : number :=
  bind_opt (read_year s) (fun '(y, s) =>
  bind_opt (expect "-" s) (fun s =>
  bind_opt (read_digits 2 0 s) (fun '(mo, s) =>
  bind_opt (expect "-" s) (fun s =>
  bind_opt (read_digits 2 0 s) (fun '(d, s) =>
  let day := days_from_civil y mo d in
  if negb ((1 <=? mo) && (mo <=? 12) && (1 <=? d) && (d <=? 31)) then None
  else
    match s with
    | EmptyString => TimeClip (day * msPerDay)
    | _ =>
        bind_opt (expect "T" s) (fun s =>
        bind_opt (read_digits 2 0 s) (fun '(h, s) =>
        bind_opt (expect ":" s) (fun s =>
        bind_opt (read_digits 2 0 s) (fun '(mi, s) =>
        bind_opt (expect ":" s) (fun s =>
        bind_opt (read_digits 2 0 s) (fun '(sec, s) =>
        bind_opt (read_fraction s) (fun '(ms, s) =>
        match s with
        | String "Z" EmptyString =>
            if (h <=? 23) && (mi <=? 59) && (sec <=? 59) then
              TimeClip (day * msPerDay + h * msPerHour + mi * msPerMinute
                        + sec * msPerSecond + ms)
            else None
        | _ => None
        end)))))))
    end))))).

End JS.

(* ================================================================== *)
(** * The records of [types.ts] *)
(* ================================================================== *)

Module Reminder.
Record t := mk { id : string; trigger : string }.
End Reminder.

Module ChecklistItem.
Record t := mk {
  id : string;
  title : string;
  status : option Z;
  completedTime : option string;
  isAllDay : option bool;
  sortOrder : option Z;
  startDate : option string;
  timeZone : option string
}.
End ChecklistItem.

(** [TickTickTask]: every property but [id], [title] and [projectId] is
    optional.  Numbers are integers, in the range that JavaScript prints
    in plain decimal. *)
Module TickTickTask.
Record t := mk {
  id : string;
  title : string;
  content : option string;
  desc : option string;
  allDay : option bool;
  startDate : option string;
  dueDate : option string;
  timeZone : option string;
  isFloating : option bool;
  reminder : option string;
  reminders : option (list Reminder.t);
  exDate : option (list string);
  completedTime : option string;
  completedUserId : option string;
  createdTime : option string;
  creator : option string;
  etag : option string;
  modifiedTime : option string;
  projectId : string;
  sortOrder : option Z;
  status : option Z;
  tags : option (list string);
  priority : option Z;
  progress : option Z;
  assignee : option string;
  isDirty : option bool;
  local : option bool;
  repeatFlag : option string;
  items : option (list ChecklistItem.t)
}.

(** A task with only the required properties. *)
Definition bare (id title projectId : string) : t :=
  mk id title None None None None None None None None None None None None
     None None None None projectId None None None None None None None None
     None None.

(** [{ ...task, dueDate: v }] *)
Definition set_dueDate (v : option string) (task : t) : t :=
  mk (id task) (title task) (content task) (desc task) (allDay task)
     (startDate task) v (timeZone task) (isFloating task) (reminder task)
     (reminders task) (exDate task) (completedTime task)
     (completedUserId task) (createdTime task) (creator task) (etag task)
     (modifiedTime task) (projectId task) (sortOrder task) (status task)
     (tags task) (priority task) (progress task) (assignee task)
     (isDirty task) (local task) (repeatFlag task) (items task).

Definition set_allDay (v : option bool) (task : t) : t :=
  mk (id task) (title task) (content task) (desc task) v
     (startDate task) (dueDate task) (timeZone task) (isFloating task)
     (reminder task) (reminders task) (exDate task) (completedTime task)
     (completedUserId task) (createdTime task) (creator task) (etag task)
     (modifiedTime task) (projectId task) (sortOrder task) (status task)
     (tags task) (priority task) (progress task) (assignee task)
     (isDirty task) (local task) (repeatFlag task) (items task).

Definition set_completedTime (v : option string) (task : t) : t :=
  mk (id task) (title task) (content task) (desc task) (allDay task)
     (startDate task) (dueDate task) (timeZone task) (isFloating task)
     (reminder task) (reminders task) (exDate task) v
     (completedUserId task) (createdTime task) (creator task) (etag task)
     (modifiedTime task) (projectId task) (sortOrder task) (status task)
     (tags task) (priority task) (progress task) (assignee task)
     (isDirty task) (local task) (repeatFlag task) (items task).

Definition set_priority (v : option Z) (task : t) : t :=
  mk (id task) (title task) (content task) (desc task) (allDay task)
     (startDate task) (dueDate task) (timeZone task) (isFloating task)
     (reminder task) (reminders task) (exDate task) (completedTime task)
     (completedUserId task) (createdTime task) (creator task) (etag task)
     (modifiedTime task) (projectId task) (sortOrder task) (status task)
     (tags task) v (progress task) (assignee task)
     (isDirty task) (local task) (repeatFlag task) (items task).
End TickTickTask.

Module NotificationOptions.
Record t := mk {
  beMentioned : option bool;
  newTaskAssignedToMe : option bool;
  newTaskCreated : option bool;
  taskCompleted : option bool;
  taskDeleted : option bool;
  taskUpdated : option bool
}.
End NotificationOptions.

Module TickTickProject.
Record t := mk {
  id : string;
  name : string;
  color : option string;
  inAll : option bool;
  sortOrder : option Z;
  sortType : option string;
  userCount : option Z;
  etag : option string;
  modifiedTime : option string;
  closed : option bool;
  muted : option bool;
  transferred : option bool;
  groupId : option string;
  viewMode : option string;
  notificationOptions : option NotificationOptions.t;
  teamId : option string;
  permission : option string;
  kind : option string
}.

Definition bare (id name : string) : t :=
  mk id name None None None None None None None None None None None None
     None None None None.
End TickTickProject.

Module TickTickConfig.
Record t := mk {
  username : option string;
  password : option string;
  accessToken : option string;
  refreshToken : option string;
  clientId : option string;
  clientSecret : option string
}.
End TickTickConfig.

(* ================================================================== *)
(** * Display normaliser *)
(* ================================================================== *)

(** The object built by [enhanceTaskForDisplay]: the properties of the
    task and [priorityText].  A record that comes straight from the
    remote service has no [priorityText] property; [plain] views it as
    such an object. *)
Module Displayed.
Record t := mk { fields : TickTickTask.t; priorityText : option string }.
Definition plain (task : TickTickTask.t) : t := mk task None.
End Displayed.

Definition enhanceTaskForDisplay (task : TickTickTask.t) : Displayed.t :=
  let enhanced := task in
  let priorityText :=
    match TickTickTask.priority task with
    | Some 0 => "None"
    | Some 1 => "Low"
    | Some 3 => "Medium"
    | Some 5 => "High"
    | other =>
        if JS.truthy_number other
        then "Custom (" ++ JS.template_number other ++ ")"
        else "None"
    end%string in
  Displayed.mk
    (TickTickTask.set_dueDate (TickTickTask.dueDate task) enhanced)
    (Some priorityText).

(* ================================================================== *)
(** * Date classifiers *)
(* ================================================================== *)

(** [try { body } catch (error) { handler }] around a computation that
    can throw. *)
Definition try_catch {E A} (body : E + A) (handler : E -> A) : A :=
  match body with
  | inr a => a
  | inl e => handler e
  end.

Definition bind_exc {E A B} (x : E + A) (f : A -> E + B) : E + B :=
  match x with
  | inr a => f a
  | inl e => inl e
  end.

Notation "'let!' x ':=' e 'in' k" := (bind_exc e (fun x => k))
  (at level 10, x name, e at level 100, k at level 200).

Section Classifier.

(** The time value [new Date(s)] has for a string, [None] for [NaN]. *)
Variable Date_parse : string -> JS.number.

(** [new Date(v)] on an optional string property; [new Date(undefined)]
    is the Invalid Date. *)
Definition new_Date_string (v : option string) : JS.Date :=
  match v with
  | Some s => JS.new_Date_number (Date_parse s)
  | None => None
  end.

(** [new Date()] when the system clock reads [clock] milliseconds. *)
Definition new_Date_now (clock : Z) : JS.Date := JS.TimeClip clock.

Definition adjust (dueDate : JS.Date) : JS.Date :=
  JS.new_Date_number (JS.plus (JS.getTime dueDate) (24 * 60 * 60 * 1000)).

Definition isTaskDueToday (clock : Z) (task : TickTickTask.t) : bool :=
  if JS.truthy_string (TickTickTask.completedTime task) then false
  else if negb (JS.truthy_string (TickTickTask.dueDate task)) then false
  else
    try_catch
      (let now := new_Date_now clock in
       let dueDate := new_Date_string (TickTickTask.dueDate task) in
       let adjustedDueDate := adjust dueDate in
       if JS.truthy_bool (TickTickTask.allDay task) then
         let! today_iso := JS.toISOString now in
         let today := JS.split_0 "T" today_iso in
         let! adjusted_iso := JS.toISOString adjustedDueDate in
         let adjustedDueDateStr := JS.split_0 "T" adjusted_iso in
         inr (JS.string_eq adjustedDueDateStr today)
       else
         let! today_iso := JS.toISOString now in
         let today := JS.split_0 "T" today_iso in
         let! adjusted_iso := JS.toISOString adjustedDueDate in
         let adjustedDueDateStr := JS.split_0 "T" adjusted_iso in
         inr (JS.string_eq adjustedDueDateStr today))
      (fun _ => false).

Definition isTaskOverdue (clock : Z) (task : TickTickTask.t)
    (timezoneOffsetHours : option Z) : bool :=
  let timezoneOffsetHours := JS.or_default timezoneOffsetHours 8 in
  if JS.truthy_string (TickTickTask.completedTime task) then false
  else if negb (JS.truthy_string (TickTickTask.dueDate task)) then false
  else
    try_catch
      (let now := new_Date_now clock in
       let dueDate := new_Date_string (TickTickTask.dueDate task) in
       let adjustedDueDate := adjust dueDate in
       if JS.truthy_bool (TickTickTask.allDay task) then
         let! today_iso := JS.toISOString now in
         let today := JS.split_0 "T" today_iso in
         let! adjusted_iso := JS.toISOString adjustedDueDate in
         let adjustedDueDateStr := JS.split_0 "T" adjusted_iso in
         inr (JS.string_lt adjustedDueDateStr today)
       else
         inr (JS.Date_lt adjustedDueDate now))
      (fun _ : JS.exception => false).

End Classifier.


(* ================================================================== *)
(** * The axios transport *)
(* ================================================================== *)

(** [Partial<TickTickTask>] as the tool layer fills it: the properties a
    caller of [create_task] or [update_task] can pass. *)
Module TaskFields.
Record t := mk {
  taskId : option string;
  title : option string;
  content : option string;
  projectId : option string;
  dueDate : option string;
  priority : option Z;
  tags : option (list string)
}.
End TaskFields.

Module Http.

(** The [response] property of a failed request.  [data] is the JSON text
    of the body when the body is truthy (what [JSON.stringify] returns for
    it) and [None] when the body is absent or falsy. *)
Record ErrorResponse := mkErrorResponse {
  status : Z;
  statusText : string;
  data : option string
}.

(** What a [catch] clause can receive, by what the clause tells apart.
    [ResponseError]: an [Error] that has a [response] property, holding
    the response of a request that was answered with an error status, or
    holding [undefined], which the clauses provide for with [?.].
    [PlainError]: an [Error] without that property, among them every
    [new Error(...)] of the client and the error of a request that got
    no answer.  [NotAnError]: a value that is not an [Error]. *)
Inductive Thrown :=
| ResponseError (message : string) (response : option ErrorResponse)
| PlainError (message : string)
| NotAnError.

Inductive Request :=
| POST_user_signon (username password : option string)
| GET_project
| GET_project_data (projectId : string)
| GET_task_projectId_inbox
| POST_task (task : TaskFields.t)
| POST_task_id (taskId : string) (updates : TaskFields.t)
| DELETE_project_task (projectId taskId : string)
| POST_project_task_complete (projectId taskId : string)
| GET_project_task (projectId taskId : string).

(** The path each request is sent to, relative to the base URL. *)
Definition url (r : Request) : string :=
  match r with
  | POST_user_signon _ _ => "/user/signon"
  | GET_project => "/project"
  | GET_project_data projectId => "/project/" ++ projectId ++ "/data"
  | GET_task_projectId_inbox => "/task?projectId=inbox"
  | POST_task _ => "/task"
  | POST_task_id taskId _ => "/task/" ++ taskId
  | DELETE_project_task projectId taskId =>
      "/project/" ++ projectId ++ "/task/" ++ taskId
  | POST_project_task_complete projectId taskId =>
      "/project/" ++ projectId ++ "/task/" ++ taskId ++ "/complete"
  | GET_project_task projectId taskId =>
      "/project/" ++ projectId ++ "/task/" ++ taskId
  end%string.

Record SignonData := mkSignonData { token : option string }.
Record ProjectData := mkProjectData { tasks : option (list TickTickTask.t) }.

(** The shape of [response.data] the client expects of each request; an
    [option] where the client guards against a falsy body. *)
Definition Reply (r : Request) : Type :=
  match r with
  | POST_user_signon _ _ => option SignonData
  | GET_project => option (list TickTickProject.t)
  | GET_project_data _ => option ProjectData
  | GET_task_projectId_inbox => option (list TickTickTask.t)
  | POST_task _ => TickTickTask.t
  | POST_task_id _ _ => TickTickTask.t
  | DELETE_project_task _ _ => unit
  | POST_project_task_complete _ _ => TickTickTask.t
  | GET_project_task _ _ => TickTickTask.t
  end.

Inductive Outcome (A : Type) :=
| Resolved (data : A)
| Rejected (error : Thrown).
Arguments Resolved {A} data.
Arguments Rejected {A} error.

(** The remote service while one method call runs: what it answers to a
    request sent with a given [Authorization] header.  It is taken not to
    change during the call, so a request repeated within the call gets
    the same answer. *)
Definition Remote : Type :=
  forall r : Request, option string -> Outcome (Reply r).

End Http.

(* ================================================================== *)
(** * [TickTickClient] *)
(* ================================================================== *)

Module Client.
Import Http.

(** The mutable part of a [TickTickClient] and its configuration.
    [Authorization] is [client.defaults.headers.common['Authorization']]. *)
Record t := mk {
  sessionId : option string;
  Authorization : option string;
  config : TickTickConfig.t
}.

(** A [console.warn] call: the text and the error printed after it. *)
Record Warning := mkWarning { text : string; cause : Thrown }.

(** What an invocation can change: the client object, the requests that
    went out (with the header each carried), and the warning log. *)
Record World := mkWorld {
  this : t;
  sent : list (Request * option string);
  warnings : list Warning
}.

(** An [async] method: it runs from a world, ends in one, and either
    returns or throws. *)
Definition M (A : Type) : Type := World -> (Thrown + A) * World.

Definition ret {A} (a : A) : M A := fun w => (inr a, w).

Definition bind {A B} (m : M A) (k : A -> M B) : M B :=
  fun w =>
    match m w with
    | (inr a, w') => k a w'
    | (inl e, w') => (inl e, w')
    end.

Definition throw {A} (e : Thrown) : M A := fun w => (inl e, w).

Definition try_catch {A} (body : M A) (handler : Thrown -> M A) : M A :=
  fun w =>
    match body w with
    | (inr a, w') => (inr a, w')
    | (inl e, w') => handler e w'
    end.

Definition console_warn (text : string) (cause : Thrown) : M unit :=
  fun w => (inr tt, mkWorld (this w) (sent w) (warnings w ++ [mkWarning text cause])).

(** [this.sessionId = token] followed by
    [defaults.headers.common['Authorization'] = `Bearer ${token}`]. *)
Definition set_session (token : option string) : M unit :=
  fun w =>
    (inr tt,
     mkWorld (mk token (Some ("Bearer " ++ JS.template_string token)%string)
                 (config (this w)))
             (sent w) (warnings w)).

Definition get_this : M t := fun w => (inr (this w), w).

End Client.

Declare Scope async_scope.
Delimit Scope async_scope with async.
Notation "x <- m ;; k" := (Client.bind m (fun x => k))
  (at level 61, m at next level, right associativity) : async_scope.
Notation "m ;; k" := (Client.bind m (fun _ => k))
  (at level 61, right associativity) : async_scope.

(** [array.filter(x => keep(x))] for a callback that reads the system
    clock: the callback runs once per element, in order, and [clock n] is
    what [new Date()] gives while it runs on the element of index [n]. *)
Fixpoint filter_at {A} (keep : Z -> A -> bool) (clock : nat -> Z) (l : list A)
    : list A :=
  match l with
  | [] => []
  | a :: rest =>
      let kept := filter_at keep (fun n => clock (S n)) rest in
      if keep (clock O) a then a :: kept else kept
  end.

(** A clock that reads the same at every test. *)
Definition steady (reading : Z) : nat -> Z := fun _ => reading.

Section Methods.

Import Http.
Import Client.

Local Open Scope async_scope.

(** The environment of one method call: the remote service, the
    runtime's date parser, and the readings of the system clock during
    the call.  [isTaskOverdue] and [isTaskDueToday] call [new Date()]
    themselves, so the filters of [getOverdueTasks] and [getTodaysTasks]
    read the clock once per task: [clock n] is the reading for the task
    of index [n]. *)
Variable remote : Remote.
Variable Date_parse : string -> JS.number.
Variable clock : nat -> Z.

(** [await this.client.<method>(url, body)]. *)
Definition send (r : Request) : M (Reply r) :=
  fun w =>
    let header := Authorization (this w) in
    let w' := mkWorld (this w) (sent w ++ [(r, header)]) (warnings w) in
    match remote r header with
    | Resolved data => (inr data, w')
    | Rejected error => (inl error, w')
    end.

(** [error instanceof Error ? error.message : 'Unknown error'] *)
Definition message_of (error : Thrown) : string :=
  match error with
  | ResponseError message _ => message
  | PlainError message => message
  | NotAnError => "Unknown error"
  end.

(** The [catch] clause of [getProjects], [createTask], [updateTask],
    [deleteTask], [completeTask] and [getTaskById]. *)
Definition rethrow_message {A} (what : string) (error : Thrown) : M A :=
  throw (PlainError (what ++ ": " ++ message_of error)).

(** [axiosError.response?.data ? JSON.stringify(axiosError.response.data)
    : axiosError.message] *)
Definition errorData (message : string) (response : option ErrorResponse) : string :=
  match response with
  | Some r => match data r with Some json => json | None => message end
  | None => message
  end.

(** The [catch] clause of [authenticate], [getTasks] and [getTasksRaw]. *)
Definition rethrow_detailed {A} (what : string) (error : Thrown) : M A :=
  match error with
  | ResponseError message response =>
      throw (PlainError
               (what ++ ": " ++ JS.template_number (option_map status response)
                ++ " " ++ JS.template_string (option_map statusText response)
                ++ " - " ++ errorData message response))
  | _ => throw (PlainError (what ++ ": " ++ message_of error))
  end.

Definition authenticate : M unit :=
  try_catch
    (self <- get_this ;;
     response <- send (POST_user_signon (TickTickConfig.username (config self))
                                        (TickTickConfig.password (config self))) ;;
     match response with
     | Some d =>
         if JS.truthy_string (token d) then set_session (token d)
         else throw (PlainError "Authentication failed: No token received")
     | None => throw (PlainError "Authentication failed: No token received")
     end)
    (fun error => rethrow_detailed "Authentication failed" error).

Definition ensureAuthenticated : M unit :=
  self <- get_this ;;
  if negb (JS.truthy_string (sessionId self)) then
    if JS.truthy_string (TickTickConfig.accessToken (config self)) then
      set_session (TickTickConfig.accessToken (config self))
    else if JS.truthy_string (TickTickConfig.username (config self))
            && JS.truthy_string (TickTickConfig.password (config self)) then
      authenticate
    else
      throw (PlainError "Either accessToken or username/password must be provided")
  else ret tt.

(** [response.data?.tasks || []] *)
Definition tasks_or_empty (d : option ProjectData) : list TickTickTask.t :=
  match d with
  | Some (mkProjectData (Some l)) => l
  | _ => []
  end.

(** [response.data || []] *)
Definition data_or_empty {A} (d : option (list A)) : list A :=
  match d with
  | Some l => l
  | None => []
  end.

Definition getProjects : M (list TickTickProject.t) :=
  ensureAuthenticated ;;
  try_catch
    (response <- send GET_project ;;
     ret (data_or_empty response))
    (fun error => rethrow_message "Failed to get projects" error).

(** [for (const x of xs) { body }] where the body updates one local
    variable. *)
Fixpoint for_of {X A} (xs : list X) (body : X -> A -> M A) (acc : A) : M A :=
  match xs with
  | [] => ret acc
  | x :: rest => acc' <- body x acc ;; for_of rest body acc'
  end.

(** The loop body shared by [getTasks] and [getTasksRaw]. *)
Definition push_project_tasks (project : TickTickProject.t)
    (allTasks : list TickTickTask.t) : M (list TickTickTask.t) :=
  try_catch
    (projectResponse <- send (GET_project_data (TickTickProject.id project)) ;;
     let projectTasks := tasks_or_empty projectResponse in
     ret (allTasks ++ projectTasks))
    (fun error =>
       console_warn ("Could not access tasks for project "
                     ++ TickTickProject.id project ++ " ("
                     ++ TickTickProject.name project ++ "):") error ;;
       ret allTasks).

(** The inbox step shared by [getTasks] and [getTasksRaw]. *)
Definition push_inbox_tasks (allTasks : list TickTickTask.t)
    : M (list TickTickTask.t) :=
  try_catch
    (inboxResponse <- send (GET_project_data "inbox") ;;
     let inboxTasks := tasks_or_empty inboxResponse in
     ret (allTasks ++ inboxTasks))
    (fun error =>
       try_catch
         (inboxResponse <- send GET_task_projectId_inbox ;;
          let inboxTasks := data_or_empty inboxResponse in
          ret (allTasks ++ inboxTasks))
         (fun inboxError =>
            console_warn "Could not access inbox tasks:" inboxError ;;
            ret allTasks)).

Definition getTasks (projectId : option string) : M (list Displayed.t) :=
  ensureAuthenticated ;;
  try_catch
    (if JS.truthy_string projectId then
       response <- send (GET_project_data (JS.template_string projectId)) ;;
       let tasks := tasks_or_empty response in
       ret (map enhanceTaskForDisplay tasks)
     else
       projects <- getProjects ;;
       allTasks <- for_of projects push_project_tasks [] ;;
       allTasks <- push_inbox_tasks allTasks ;;
       ret (map enhanceTaskForDisplay allTasks))
    (fun error => rethrow_detailed "Failed to get tasks" error).

(** The raw variant, without display enhancement, that feeds the two
    filters. *)
Definition getTasksRaw (projectId : option string) : M (list TickTickTask.t) :=
  ensureAuthenticated ;;
  try_catch
    (if JS.truthy_string projectId then
       response <- send (GET_project_data (JS.template_string projectId)) ;;
       ret (tasks_or_empty response)
     else
       projects <- getProjects ;;
       allTasks <- for_of projects push_project_tasks [] ;;
       allTasks <- push_inbox_tasks allTasks ;;
       ret allTasks)
    (fun error => rethrow_detailed "Failed to get tasks" error).

Definition getOverdueTasks (projectId : option string)
    (timezoneOffsetHours : option Z) : M (list Displayed.t) :=
  let timezoneOffsetHours := JS.or_default timezoneOffsetHours 8 in
  allTasks <- getTasksRaw projectId ;;
  let overdueTasks :=
    filter_at
      (fun now task => isTaskOverdue Date_parse now task (Some timezoneOffsetHours))
      clock allTasks in
  ret (map enhanceTaskForDisplay overdueTasks).

Definition getTodaysTasks (projectId : option string) : M (list Displayed.t) :=
  allTasks <- getTasksRaw projectId ;;
  let todaysTasks :=
    filter_at (fun now task => isTaskDueToday Date_parse now task) clock allTasks in
  ret (map enhanceTaskForDisplay todaysTasks).

Definition createTask (task : TaskFields.t) : M TickTickTask.t :=
  ensureAuthenticated ;;
  try_catch
    (response <- send (POST_task task) ;;
     ret response)
    (fun error => rethrow_message "Failed to create task" error).

Definition updateTask (taskId : string) (updates : TaskFields.t) : M TickTickTask.t :=
  ensureAuthenticated ;;
  try_catch
    (response <- send (POST_task_id taskId updates) ;;
     ret response)
    (fun error => rethrow_message "Failed to update task" error).

Definition deleteTask (taskId projectId : string) : M unit :=
  ensureAuthenticated ;;
  try_catch
    (send (DELETE_project_task projectId taskId) ;;
     ret tt)
    (fun error => rethrow_message "Failed to delete task" error).

Definition completeTask (taskId projectId : string) : M TickTickTask.t :=
  ensureAuthenticated ;;
  try_catch
    (response <- send (POST_project_task_complete projectId taskId) ;;
     ret response)
    (fun error => rethrow_message "Failed to complete task" error).

Definition getTaskById (taskId projectId : string) : M TickTickTask.t :=
  ensureAuthenticated ;;
  try_catch
    (response <- send (GET_project_task projectId taskId) ;;
     ret response)
    (fun error => rethrow_message "Failed to get task" error).

(** The public task and project methods of the class, and what each
    hands back to its caller.  ([authenticate], the remaining public
    method, belongs to the session manager.) *)
Inductive Operation :=
| GetTasks (projectId : option string)
| GetOverdueTasks (projectId : option string) (timezoneOffsetHours : option Z)
| GetTodaysTasks (projectId : option string)
| GetProjects
| CreateTask (task : TaskFields.t)
| UpdateTask (taskId : string) (updates : TaskFields.t)
| DeleteTask (taskId projectId : string)
| CompleteTask (taskId projectId : string)
| GetTaskById (taskId projectId : string).

Inductive Returned :=
| Tasks (l : list Displayed.t)
| Projects (l : list TickTickProject.t)
| Task (task : TickTickTask.t)
| Nothing.

Definition call (op : Operation) : M Returned :=
  match op with
  | GetTasks projectId => l <- getTasks projectId ;; ret (Tasks l)
  | GetOverdueTasks projectId offset =>
      l <- getOverdueTasks projectId offset ;; ret (Tasks l)
  | GetTodaysTasks projectId => l <- getTodaysTasks projectId ;; ret (Tasks l)
  | GetProjects => l <- getProjects ;; ret (Projects l)
  | CreateTask task => t <- createTask task ;; ret (Task t)
  | UpdateTask taskId updates => t <- updateTask taskId updates ;; ret (Task t)
  | DeleteTask taskId projectId => deleteTask taskId projectId ;; ret Nothing
  | CompleteTask taskId projectId => t <- completeTask taskId projectId ;; ret (Task t)
  | GetTaskById taskId projectId => t <- getTaskById taskId projectId ;; ret (Task t)
  end.

End Methods.

(** One call of a task or project method: the service and the clock as
    they are while it runs, and the method called. *)
Record Invocation := mkInvocation {
  service : Http.Remote;
  clock_reading : nat -> Z;
  operation : Operation
}.

(** The world after a series of such calls, whatever each returned or
    threw. *)
Definition after (Date_parse : string -> JS.number) (calls : list Invocation)
    (w : Client.World) : Client.World :=
  fold_left
    (fun w i => snd (call (service i) Date_parse (clock_reading i) (operation i) w))
    calls w.

(** The task objects among what a method returned. *)
Definition returned_tasks (r : Returned) : list Displayed.t :=
  match r with
  | Tasks l => l
  | Task task => [Displayed.plain task]
  | Projects _ => []
  | Nothing => []
  end.

(** [new TickTickClient(config)]: an access token in the configuration is
    adopted at once. *)
Definition new_TickTickClient (config : TickTickConfig.t) : Client.t :=
  if JS.truthy_string (TickTickConfig.accessToken config) then
    Client.mk (TickTickConfig.accessToken config)
      (Some ("Bearer " ++ JS.template_string (TickTickConfig.accessToken config))%string)
      config
  else Client.mk None None config.

(** The world a fresh client starts in. *)
Definition start (config : TickTickConfig.t) : Client.World :=
  Client.mkWorld (new_TickTickClient config) [] [].


(* ================================================================== *)
(** * Vocabulary of the statements *)
(* ================================================================== *)

Module Spec.

(** [occurs c s]: the character [c] appears in [s]. *)
Fixpoint occurs (c : ascii) (s : string) : bool :=
  match s with
  | EmptyString => false
  | String c' r => Ascii.eqb c' c || occurs c r
  end.


Definition pair_eqb (a b : Z * Z) : bool :=
  (fst a =? fst b) && (snd a =? snd b).

(** For a day [doy] counted from 1 March, the month table gives the month
    and day that [civil_from_days] computes. *)
Definition table_agrees (leap doy : Z) : bool :=
  let mp := (5 * doy + 2) / 153 in
  let d := doy - (153 * mp + 2) / 5 + 1 in
  if mp <? 10
  then pair_eqb (JS.month_and_date (doy + 59 + leap) leap) (mp + 2, d)
  else pair_eqb (JS.month_and_date (doy - 306) leap) (mp - 10, d).

(** The UTC calendar date (year, month 1..12, day of month) of a [Date]
    object; the Invalid Date has none. *)
Definition utc_calendar_date (d : JS.Date) : option (Z * Z * Z) :=
  match d with
  | Some t => Some (JS.civil_from_days (JS.Day t))
  | None => None
  end.

(** The date text of a calendar date. *)
Definition date_string (date : Z * Z * Z) : string :=
  let '(y, m, d) := date in
  (JS.year_string y ++ "-" ++ JS.padded 2 m ++ "-" ++ JS.padded 2 d)%string.

(** Calendar order: by year, then month, then day of month. *)
Definition date_compare (a b : Z * Z * Z) : comparison :=
  let '(ya, ma, da) := a in
  let '(yb, mb, db) := b in
  match ya ?= yb with
  | Eq => match ma ?= mb with Eq => da ?= db | c => c end
  | c => c
  end.

Definition date_before (a b : Z * Z * Z) : Prop := date_compare a b = Lt.

(** Years that [toISOString] prints with four digits. *)
Definition four_digit_year (d : Z * Z * Z) : Prop :=
  0 <= fst (fst d) <= 9999.

(** The label the design document gives each priority value. *)
Definition priority_label (priority : option Z) : string :=
  match priority with
  | None => "None"%string
  | Some p =>
      if p =? 0 then "None"%string
      else if p =? 1 then "Low"%string
      else if p =? 3 then "Medium"%string
      else if p =? 5 then "High"%string
      else ("Custom (" ++ JS.Number_toString p ++ ")")%string
  end.

(** The integer a decimal numeral stands for.  A numeral is a run of
    digits, with a minus sign in front for a negative number and without
    a leading zero; [0] is the numeral of zero, and [-0] is none. *)
Definition digit_value (c : ascii) : option Z :=
  let n := Z.of_nat (nat_of_ascii c) - 48 in
  if (0 <=? n) && (n <=? 9) then Some n else None.

Fixpoint digits_value (s : string) (acc : Z) : option Z :=
  match s with
  | EmptyString => Some acc
  | String c rest =>
      match digit_value c with
      | Some d => digits_value rest (10 * acc + d)
      | None => None
      end
  end.

Definition natural_of (s : string) : option Z :=
  match s with
  | EmptyString => None
  | String c rest =>
      if Ascii.eqb c "0"
      then match rest with EmptyString => Some 0 | String _ _ => None end
      else digits_value s 0
  end.

Definition decimal_of (s : string) : option Z :=
  match s with
  | String c rest =>
      if Ascii.eqb c "-"
      then match natural_of rest with
           | Some n => if n =? 0 then None else Some (- n)
           | None => None
           end
      else natural_of s
  | EmptyString => None
  end.

(** The integers that are Numbers and that [Number::toString] prints
    digit by digit. *)
Definition safe_integer (p : Z) : Prop := Z.abs p < 2 ^ 53.

(** [prefix p s]: [s] starts with [p]; [contains p s]: [p] occurs in [s]. *)
Fixpoint prefix (p s : string) : bool :=
  match p, s with
  | EmptyString, _ => true
  | String a p', String b s' => Ascii.eqb a b && prefix p' s'
  | String _ _, EmptyString => false
  end.

Fixpoint contains (p s : string) : bool :=
  prefix p s ||
  match s with
  | EmptyString => false
  | String _ s' => contains p s'
  end.

(** A session credential is cached. *)
Definition authenticated (w : Client.World) : Prop :=
  JS.truthy_string (Client.sessionId (Client.this w)) = true.

Definition is_signon (r : Http.Request) : bool :=
  match r with
  | Http.POST_user_signon _ _ => true
  | _ => false
  end.

(** The world after some more requests and warnings. *)
Definition extend (w : Client.World)
    (requests : list (Http.Request * option string))
    (more : list Client.Warning) : Client.World :=
  Client.mkWorld (Client.this w) (Client.sent w ++ requests)
                 (Client.warnings w ++ more).

(** A logged request that is not a sign-on and went out under the
    header [h]. *)
Definition reuses (h : option string) (rh : Http.Request * option string) : Prop :=
  is_signon (fst rh) = false /\ snd rh = h.

(** A method that, started with a cached credential, leaves the client
    object as it is and sends only requests that reuse the credential. *)
Definition keeps_session {A} (m : Client.M A) : Prop :=
  forall w, authenticated w ->
    Client.this (snd (m w)) = Client.this w
    /\ exists requests,
         Client.sent (snd (m w)) = Client.sent w ++ requests
         /\ Forall (reuses (Client.Authorization (Client.this w))) requests.

(** Every value the method can return satisfies [P]. *)
Definition returns_only {A} (m : Client.M A) (P : A -> Prop) : Prop :=
  forall w a w', m w = (inr a, w') -> P a.

(** A list of objects that [enhanceTaskForDisplay] made. *)
Definition enhanced_list (l : list Displayed.t) : Prop :=
  exists records, l = map enhanceTaskForDisplay records.

Section Aggregate.

Variable remote : Http.Remote.
Variable header : option string.

(** What one project contributes to an aggregate fetch: its tasks when
    its request resolves, nothing when it is rejected. *)
Definition project_tasks (project : TickTickProject.t) : list TickTickTask.t :=
  match remote (Http.GET_project_data (TickTickProject.id project)) header with
  | Http.Resolved d => tasks_or_empty d
  | Http.Rejected _ => []
  end.

Definition project_warning (project : TickTickProject.t) : list Client.Warning :=
  match remote (Http.GET_project_data (TickTickProject.id project)) header with
  | Http.Resolved _ => []
  | Http.Rejected error =>
      [Client.mkWarning
         ("Could not access tasks for project " ++ TickTickProject.id project
          ++ " (" ++ TickTickProject.name project ++ "):")%string error]
  end.

(** What the inbox contributes: the first route when it resolves, else the
    second route when that resolves, else nothing. *)
Definition inbox_tasks : list TickTickTask.t :=
  match remote (Http.GET_project_data "inbox") header with
  | Http.Resolved d => tasks_or_empty d
  | Http.Rejected _ =>
      match remote Http.GET_task_projectId_inbox header with
      | Http.Resolved d => data_or_empty d
      | Http.Rejected _ => []
      end
  end.

Definition inbox_warning : list Client.Warning :=
  match remote (Http.GET_project_data "inbox") header with
  | Http.Resolved _ => []
  | Http.Rejected _ =>
      match remote Http.GET_task_projectId_inbox header with
      | Http.Resolved _ => []
      | Http.Rejected error => [Client.mkWarning "Could not access inbox tasks:" error]
      end
  end.

Definition inbox_requests : list (Http.Request * option string) :=
  match remote (Http.GET_project_data "inbox") header with
  | Http.Resolved _ => [(Http.GET_project_data "inbox", header)]
  | Http.Rejected _ =>
      [(Http.GET_project_data "inbox", header);
       (Http.GET_task_projectId_inbox, header)]
  end.

(** The tasks, warnings and requests of a whole aggregate fetch over the
    enumerated projects. *)
Definition aggregate_tasks (projects : list TickTickProject.t) : list TickTickTask.t :=
  flat_map project_tasks projects ++ inbox_tasks.

Definition aggregate_warnings (projects : list TickTickProject.t) : list Client.Warning :=
  flat_map project_warning projects ++ inbox_warning.

End Aggregate.

End Spec.


(* ================================================================== *)
(** * Concrete tasks, services and clients *)
(* ================================================================== *)

Module Sample.
Import Http.

Local Open Scope string_scope.

(** 2024-01-11T12:00:00Z and 2024-01-12T00:00:00Z. *)
Definition noon_jan_11 : Z := 1704974400000.
Definition midnight_jan_12 : Z := 1705017600000.

(** The same readings, on a clock that stands still during a call. *)
Definition at_noon_jan_11 : nat -> Z := steady noon_jan_11.
Definition at_midnight_jan_12 : nat -> Z := steady midnight_jan_12.

(** A clock that reads noon for the first test of a call and midnight
    from the second on. *)
Definition from_noon_to_midnight : nat -> Z :=
  fun n => match n with O => noon_jan_11 | S _ => midnight_jan_12 end.

(** The all-day task of the design document: due 2024-01-10. *)
Definition rent : TickTickTask.t :=
  TickTickTask.set_allDay (Some true)
    (TickTickTask.set_dueDate (Some "2024-01-10T00:00:00Z")
       (TickTickTask.bare "t1" "Pay rent" "b")).

(** A timed task of high priority, due 2024-01-10 at 08:00 UTC. *)
Definition call_bank : TickTickTask.t :=
  TickTickTask.set_priority (Some 5)
    (TickTickTask.set_dueDate (Some "2024-01-10T08:00:00Z")
       (TickTickTask.bare "t2" "Call the bank" "b")).

(** An all-day task due on the first day of the year 10000. *)
Definition time_capsule : TickTickTask.t :=
  TickTickTask.set_allDay (Some true)
    (TickTickTask.set_dueDate (Some "+010000-01-01T00:00:00.000Z")
       (TickTickTask.bare "t3" "Open the time capsule" "b")).

(** [rent] with a completion time that is present but empty. *)
Definition rent_completed_blank : TickTickTask.t :=
  TickTickTask.set_completedTime (Some EmptyString) rent.

(** [rent], completed on 2024-01-09. *)
Definition rent_paid : TickTickTask.t :=
  TickTickTask.set_completedTime (Some "2024-01-09T10:00:00Z") rent.

Definition note : TickTickTask.t := TickTickTask.bare "t4" "Loose note" "inbox".

Definition work : TickTickProject.t := TickTickProject.bare "a" "Work".
Definition home : TickTickProject.t := TickTickProject.bare "b" "Home".
Definition inbox : TickTickProject.t := TickTickProject.bare "inbox" "Inbox".

Definition server_error : Thrown :=
  ResponseError "Request failed with status code 500"
    (Some (mkErrorResponse 500 "Internal Server Error" (Some "[42]"))).

Definition not_found : Thrown :=
  ResponseError "Request failed with status code 404"
    (Some (mkErrorResponse 404 "Not Found" None)).

(** A service with the projects [work], which cannot be read, and [home],
    and with an inbox that answers on its first route. *)
Definition remote : Remote :=
  fun r _ =>
    match r return Outcome (Reply r) with
    | POST_user_signon _ _ => Resolved (Some (mkSignonData (Some "granted")))
    | GET_project => Resolved (Some [work; home])
    | GET_project_data projectId =>
        if String.eqb projectId "a" then Rejected server_error
        else if String.eqb projectId "b"
        then Resolved (Some (mkProjectData (Some [rent; call_bank])))
        else if String.eqb projectId "inbox"
        then Resolved (Some (mkProjectData (Some [note])))
        else Rejected not_found
    | GET_task_projectId_inbox => Resolved None
    | POST_task _ => Resolved call_bank
    | POST_task_id _ _ => Resolved call_bank
    | DELETE_project_task _ _ => Resolved tt
    | POST_project_task_complete _ _ => Resolved rent_paid
    | GET_project_task _ _ => Resolved call_bank
    end.

(** The same service when it also lists the inbox as a project. *)
Definition remote_listing_inbox : Remote :=
  fun r header =>
    match r return Outcome (Reply r) with
    | GET_project => Resolved (Some [inbox; home])
    | r' => remote r' header
    end.

(** A service that rejects everything with a 500. *)
Definition remote_down : Remote := fun r _ => Rejected server_error.

Definition token_config : TickTickConfig.t :=
  TickTickConfig.mk None None (Some "secret") None None None.
Definition password_config : TickTickConfig.t :=
  TickTickConfig.mk (Some "ann") (Some "hunter2") None None None None.
Definition empty_config : TickTickConfig.t :=
  TickTickConfig.mk None None None None None None.

(** A client built with an access token, and one that has a token
    configured but no session yet. *)
Definition with_token : Client.World := start token_config.
Definition token_pending : Client.World :=
  Client.mkWorld (Client.mk None None token_config) [] [].
Definition with_password : Client.World := start password_config.
Definition unconfigured : Client.World := start empty_config.

End Sample.


(* ================================================================== *)
(** * The tool handlers of [index.ts] *)
(* ================================================================== *)

Module Mcp.

(** The three error codes the server uses. *)
Inductive ErrorCode := InvalidParams | MethodNotFound | InternalError.

(** [new McpError(code, message)], by its two arguments. *)
Record McpError := mkMcpError { code : ErrorCode; message : string }.

(** The JSON schema of one tool argument. *)
Inductive PropertyType := TString | TNumber | TArray (items : PropertyType).

Record Property := mkProperty {
  key : string;
  type : PropertyType;
  about : string
}.

(** One entry of the answer to [ListTools]. *)
Record Tool := mkTool {
  name : string;
  description : string;
  properties : list Property;
  required : list string
}.

End Mcp.

(** [request.params.arguments], by the properties the handlers read or
    pass on: those of [TaskFields] and [timezoneOffsetHours]. *)
Module ToolArgs.
Record t := mk { fields : TaskFields.t; timezoneOffsetHours : option Z }.
End ToolArgs.

(** The text of a tool result: [JSON.stringify(value, null, 2)], the same
    after an announcement, or a fixed text. *)
Inductive ToolText :=
| Stringified (value : Returned)
| Announced (announcement : string) (value : Returned)
| Literal (text : string).

Module Server.
Import Mcp.

Local Open Scope string_scope.

(** The tools the server lists. *)
Definition tools : list Tool :=
  [ mkTool "get_tasks" "Get all tasks or tasks from a specific project"
      [mkProperty "projectId" TString "Optional project ID to filter tasks"]
      [];
    mkTool "get_overdue_tasks"
      "Get all overdue tasks (incomplete tasks past their due date)"
      [mkProperty "projectId" TString "Optional project ID to filter overdue tasks";
       mkProperty "timezoneOffsetHours" TNumber
         "Timezone offset in hours from UTC (e.g., 8 for UTC+8). Defaults to 8"]
      [];
    mkTool "get_todays_tasks" "Get tasks that are specifically due today"
      [mkProperty "projectId" TString "Optional project ID to filter today's tasks"]
      [];
    mkTool "get_projects" "Get all projects from TickTick" [] [];
    mkTool "create_task" "Create a new task in TickTick"
      [mkProperty "title" TString "Task title (required)";
       mkProperty "content" TString "Task description/content";
       mkProperty "projectId" TString "Project ID where the task should be created";
       mkProperty "dueDate" TString "Due date in ISO format";
       mkProperty "priority" TNumber "Task priority (0=None, 1=Low, 3=Medium, 5=High)";
       mkProperty "tags" (TArray TString) "Task tags"]
      ["title"];
    mkTool "update_task" "Update an existing task"
      [mkProperty "taskId" TString "Task ID to update (required)";
       mkProperty "title" TString "New task title";
       mkProperty "content" TString "New task description/content";
       mkProperty "dueDate" TString "New due date in ISO format";
       mkProperty "priority" TNumber
         "New task priority (0=None, 1=Low, 3=Medium, 5=High)";
       mkProperty "tags" (TArray TString) "New task tags"]
      ["taskId"];
    mkTool "delete_task" "Delete a task"
      [mkProperty "taskId" TString "Task ID to delete (required)";
       mkProperty "projectId" TString "Project ID containing the task (required)"]
      ["taskId"; "projectId"];
    mkTool "complete_task" "Mark a task as completed"
      [mkProperty "taskId" TString "Task ID to complete (required)";
       mkProperty "projectId" TString "Project ID containing the task (required)"]
      ["taskId"; "projectId"];
    mkTool "get_task" "Get a specific task by ID"
      [mkProperty "taskId" TString "Task ID to retrieve (required)";
       mkProperty "projectId" TString "Project ID containing the task (required)"]
      ["taskId"; "projectId"] ].

(** The server object: its client, once made; with it, the requests sent
    and the warnings logged so far. *)
Record World := mkWorld {
  ticktickClient : option Client.t;
  sent : list (Http.Request * option string);
  warnings : list Client.Warning
}.

(** What the [catch] clause of the call handler can receive: an
    [McpError] of the handler, something a client method threw, or the
    [TypeError] of a call on a null client. *)
Inductive Caught :=
| OfHandler (error : McpError)
| OfClient (error : Http.Thrown)
| OfNull.

Definition M (A : Type) : Type := World -> (Caught + A) * World.

Definition ret {A} (a : A) : M A := fun w => (inr a, w).

Definition bind {A B} (m : M A) (k : A -> M B) : M B :=
  fun w =>
    match m w with
    | (inr a, w') => k a w'
    | (inl e, w') => (inl e, w')
    end.

Definition throw {A} (e : Caught) : M A := fun w => (inl e, w).

(** [args?.projectId] and the like. *)
Definition arg {A} (read : TaskFields.t -> option A) (args : option ToolArgs.t)
    : option A :=
  match args with
  | Some a => read (ToolArgs.fields a)
  | None => None
  end.

Definition arg_timezoneOffsetHours (args : option ToolArgs.t) : option Z :=
  match args with
  | Some a => ToolArgs.timezoneOffsetHours a
  | None => None
  end.

(** [createTask(args)] and [updateTask(..., args)] pass the arguments on
    as the request body. *)
Definition body (args : option ToolArgs.t) : TaskFields.t :=
  match args with
  | Some a => ToolArgs.fields a
  | None => TaskFields.mk None None None None None None None
  end.

End Server.

Declare Scope server_scope.
Delimit Scope server_scope with server.
Notation "x <- m ;; k" := (Server.bind m (fun x => k))
  (at level 61, m at next level, right associativity) : server_scope.
Notation "m ;; k" := (Server.bind m (fun _ => k))
  (at level 61, right associativity) : server_scope.

Section Handlers.

Import Mcp Server.

Local Open Scope server_scope.

(** The [message] property that the SDK gives [new McpError(code, text)],
    and the one the runtime gives the [TypeError] of a call on [null]. *)
Variable McpError_message : ErrorCode -> string -> string.
Variable null_message : string.

(** The environment of one tool call: the remote service, the date
    parser, the clock readings, and the six [TICKTICK_*] variables of
    [process.env] (in the shape of the configuration they fill). *)
Variable remote : Http.Remote.
Variable Date_parse : string -> JS.number.
Variable clock : nat -> Z.
Variable env : TickTickConfig.t.

Definition ensureClientInitialized : M unit :=
  fun w =>
    match ticktickClient w with
    | None =>
        let accessToken := TickTickConfig.accessToken env in
        let username := TickTickConfig.username env in
        let password := TickTickConfig.password env in
        let clientId := TickTickConfig.clientId env in
        let clientSecret := TickTickConfig.clientSecret env in
        let refreshToken := TickTickConfig.refreshToken env in
        if negb (JS.truthy_string accessToken)
           && (negb (JS.truthy_string username) || negb (JS.truthy_string password))
        then
          (inl (OfHandler
                  (mkMcpError InvalidParams
                     "Either TICKTICK_ACCESS_TOKEN or TICKTICK_USERNAME/TICKTICK_PASSWORD environment variables are required")),
           w)
        else
          let config :=
            TickTickConfig.mk username password accessToken refreshToken
                              clientId clientSecret in
          (inr tt, mkWorld (Some (new_TickTickClient config)) (sent w) (warnings w))
    | Some _ => (inr tt, w)
    end.

(** [await this.ticktickClient!.method(...)]. *)
Definition on_client {A} (method : Client.M A) : M A :=
  fun w =>
    match ticktickClient w with
    | None => (inl OfNull, w)
    | Some client =>
        let '(result, after_call) :=
          method (Client.mkWorld client (sent w) (warnings w)) in
        (match result with
         | inl error => inl (OfClient error)
         | inr a => inr a
         end,
         mkWorld (Some (Client.this after_call)) (Client.sent after_call)
                 (Client.warnings after_call))
    end.

Definition invalid {A} (text : string) : M A :=
  throw (OfHandler (mkMcpError InvalidParams text)).

(** A required string argument after its check: [args.taskId as string]. *)
Definition checked (v : option string) : string := JS.template_string v.

(** The [switch (name)] of the call handler. *)
Definition dispatch (name : string) (args : option ToolArgs.t) : M ToolText :=
  if String.eqb name "get_tasks" then
    tasks <- on_client (getTasks remote (arg TaskFields.projectId args)) ;;
    ret (Stringified (Tasks tasks))
  else if String.eqb name "get_overdue_tasks" then
    let timezoneOffsetHours :=
      if JS.truthy_number (arg_timezoneOffsetHours args)
      then JS.or_default (arg_timezoneOffsetHours args) 8
      else 8 in
    overdueTasks <-
      on_client (getOverdueTasks remote Date_parse clock
                   (arg TaskFields.projectId args) (Some timezoneOffsetHours)) ;;
    ret (Stringified (Tasks overdueTasks))
  else if String.eqb name "get_todays_tasks" then
    todaysTasks <-
      on_client (getTodaysTasks remote Date_parse clock
                   (arg TaskFields.projectId args)) ;;
    ret (Stringified (Tasks todaysTasks))
  else if String.eqb name "get_projects" then
    projects <- on_client (getProjects remote) ;;
    ret (Stringified (Projects projects))
  else if String.eqb name "create_task" then
    if negb (JS.truthy_string (arg TaskFields.title args)) then
      invalid "Title is required"
    else
      newTask <- on_client (createTask remote (body args)) ;;
      ret (Announced "Task created successfully: " (Task newTask))
  else if String.eqb name "update_task" then
    if negb (JS.truthy_string (arg TaskFields.taskId args)) then
      invalid "Task ID is required"
    else
      updatedTask <-
        on_client (updateTask remote (checked (arg TaskFields.taskId args))
                     (body args)) ;;
      ret (Announced "Task updated successfully: " (Task updatedTask))
  else if String.eqb name "delete_task" then
    if negb (JS.truthy_string (arg TaskFields.taskId args))
       || negb (JS.truthy_string (arg TaskFields.projectId args)) then
      invalid "Task ID and Project ID are required"
    else
      on_client (deleteTask remote (checked (arg TaskFields.taskId args))
                   (checked (arg TaskFields.projectId args))) ;;
      ret (Literal "Task deleted successfully")
  else if String.eqb name "complete_task" then
    if negb (JS.truthy_string (arg TaskFields.taskId args))
       || negb (JS.truthy_string (arg TaskFields.projectId args)) then
      invalid "Task ID and Project ID are required"
    else
      completedTask <-
        on_client (completeTask remote (checked (arg TaskFields.taskId args))
                     (checked (arg TaskFields.projectId args))) ;;
      ret (Announced "Task completed successfully: " (Task completedTask))
  else if String.eqb name "get_task" then
    if negb (JS.truthy_string (arg TaskFields.taskId args))
       || negb (JS.truthy_string (arg TaskFields.projectId args)) then
      invalid "Task ID and Project ID are required"
    else
      task <-
        on_client (getTaskById remote (checked (arg TaskFields.taskId args))
                     (checked (arg TaskFields.projectId args))) ;;
      ret (Stringified (Task task))
  else
    throw (OfHandler (mkMcpError MethodNotFound ("Unknown tool: " ++ name))).

(** [error instanceof Error ? error.message : 'Unknown error'] *)
Definition caught_message (error : Caught) : string :=
  match error with
  | OfHandler e => McpError_message (code e) (message e)
  | OfClient e => message_of e
  | OfNull => null_message
  end.

(** The handler of [CallTool]: whatever is thrown inside leaves as an
    [InternalError]. *)
Definition call_tool (name : string) (args : option ToolArgs.t)
    : World -> (McpError + ToolText) * World :=
  fun w =>
    match (ensureClientInitialized ;; dispatch name args) w with
    | (inr text, w') => (inr text, w')
    | (inl error, w') =>
        (inl (mkMcpError InternalError
                ("Error executing tool " ++ name ++ ": " ++ caught_message error)),
         w')
    end.

End Handlers.

(** The server as it starts: no client yet. *)
Definition server_start : Server.World := Server.mkWorld None [] [].

(* ================================================================== *)
(** * The [.env] reader of [oauth-helper.js] *)
(* ================================================================== *)

(** Strings here are lists of UTF-16 code units, since [trim] depends on
    which code units are white space. *)
Module Dotenv.

Definition text := list Z.

Definition LF : Z := 10.
Definition EQUALS : Z := 61.
Definition HASH : Z := 35.

(** White space and line terminators, as [String.prototype.trim] sees
    them. *)
Definition is_white_space (c : Z) : bool :=
  existsb (Z.eqb c)
    [9; 10; 11; 12; 13; 32; 160; 5760; 8232; 8233; 8239; 8287; 12288; 65279]
  || ((8192 <=? c) && (c <=? 8202)).

(** [s.split(sep)] for a separator of one code unit: never empty. *)
Fixpoint split (sep : Z) (s : text) : list text :=
  match s with
  | [] => [[]]
  | c :: rest =>
      if c =? sep then [] :: split sep rest
      else
        match split sep rest with
        | head :: tail => (c :: head) :: tail
        | [] => [[c]]
        end
  end.

Fixpoint trimStart (s : text) : text :=
  match s with
  | [] => []
  | c :: rest => if is_white_space c then trimStart rest else s
  end.

Definition trimEnd (s : text) : text := rev (trimStart (rev s)).

Definition trim (s : text) : text := trimEnd (trimStart s).

(** [key.startsWith('#')] *)
Definition startsWith (c : Z) (s : text) : bool :=
  match s with
  | [] => false
  | first :: _ => first =? c
  end.

Definition truthy (s : text) : bool :=
  match s with
  | [] => false
  | _ :: _ => true
  end.

(** The body of the [forEach]: the assignment to [process.env] that one
    line makes, if it makes one. *)
Definition line_assignment (line : text) : list (text * text) :=
  match split EQUALS line with
  | key :: value :: _ =>
      if truthy key && truthy value && negb (startsWith HASH key)
      then [(trim key, trim value)]
      else []
  | _ => []
  end.

(** The assignments [process.env[key] = value] that reading a file makes,
    in order. *)
Definition assignments (envFile : text) : list (text * text) :=
  flat_map line_assignment (split LF envFile).

(** The code units of an ASCII string. *)
Fixpoint units (s : string) : text :=
  match s with
  | EmptyString => []
  | String c rest => Z.of_nat (nat_of_ascii c) :: units rest
  end.

End Dotenv.

(* ================================================================== *)
(** * More vocabulary *)
(* ================================================================== *)

Module Terms.

Local Open Scope string_scope.

(** The words each method puts in front of a failure it reports. *)
Definition failure_prefix (op : Operation) : string :=
  match op with
  | GetTasks _ | GetOverdueTasks _ _ | GetTodaysTasks _ => "Failed to get tasks"
  | GetProjects => "Failed to get projects"
  | CreateTask _ => "Failed to create task"
  | UpdateTask _ _ => "Failed to update task"
  | DeleteTask _ _ => "Failed to delete task"
  | CompleteTask _ _ => "Failed to complete task"
  | GetTaskById _ _ => "Failed to get task"
  end.

(** A method that begins with [await this.ensureAuthenticated()]. *)
Definition begins_with_authentication {A} (remote : Http.Remote) (m : Client.M A)
    : Prop :=
  exists rest : Client.M A,
    forall w, m w = Client.bind (ensureAuthenticated remote) (fun _ => rest) w.

(** The sign-on request a client makes. *)
Definition signon_of (w : Client.World) : Http.Request :=
  Http.POST_user_signon
    (TickTickConfig.username (Client.config (Client.this w)))
    (TickTickConfig.password (Client.config (Client.this w))).

(** Whether the arguments hold a truthy value under a property name of
    the tool schemas. *)
Definition present (key : string) (args : option ToolArgs.t) : bool :=
  if String.eqb key "taskId" then JS.truthy_string (Server.arg TaskFields.taskId args)
  else if String.eqb key "title" then JS.truthy_string (Server.arg TaskFields.title args)
  else if String.eqb key "content"
  then JS.truthy_string (Server.arg TaskFields.content args)
  else if String.eqb key "projectId"
  then JS.truthy_string (Server.arg TaskFields.projectId args)
  else if String.eqb key "dueDate"
  then JS.truthy_string (Server.arg TaskFields.dueDate args)
  else if String.eqb key "priority"
  then JS.truthy_number (Server.arg TaskFields.priority args)
  else if String.eqb key "tags"
  then match Server.arg TaskFields.tags args with Some _ => true | None => false end
  else if String.eqb key "timezoneOffsetHours"
  then JS.truthy_number (Server.arg_timezoneOffsetHours args)
  else false.

(** The listed tool of a name, and whether every property it lists as
    required is present. *)
Definition listed (name : string) : option Mcp.Tool :=
  find (fun tool => String.eqb (Mcp.name tool) name) Server.tools.

Definition required_present (name : string) (args : option ToolArgs.t) : bool :=
  match listed name with
  | Some tool => forallb (fun key => present key args) (Mcp.required tool)
  | None => true
  end.

(** A text without a given code unit, and one that [trim] leaves as it
    is. *)
Definition free_of (c : Z) (s : Dotenv.text) : Prop := ~ In c s.

Definition trimmed (s : Dotenv.text) : Prop :=
  Dotenv.trim s = s.

(** A binding that a line [key=value] can carry as it is. *)
Definition plain_binding (b : Dotenv.text * Dotenv.text) : Prop :=
  let '(key, value) := b in
  key <> [] /\ value <> []
  /\ free_of Dotenv.EQUALS key /\ free_of Dotenv.EQUALS value
  /\ free_of Dotenv.LF key /\ free_of Dotenv.LF value
  /\ trimmed key /\ trimmed value
  /\ Dotenv.startsWith Dotenv.HASH key = false.

(** The file that has one line [key=value] per binding. *)
Fixpoint render (bindings : list (Dotenv.text * Dotenv.text)) : Dotenv.text :=
  match bindings with
  | [] => []
  | [(key, value)] => (key ++ Dotenv.EQUALS :: value)%list
  | (key, value) :: rest =>
      (key ++ Dotenv.EQUALS :: value ++ Dotenv.LF :: render rest)%list
  end.

End Terms.

(* ================================================================== *)
(** * Sample tool calls and a sample [.env] *)
(* ================================================================== *)

Module SampleCalls.

(** An SDK that keeps the text of an [McpError] as its message. *)
Definition as_given (code : Mcp.ErrorCode) (text : string) : string := text.

(** Arguments with a task id only, and with both ids. *)
Definition only_taskId : option ToolArgs.t :=
  Some (ToolArgs.mk
          (TaskFields.mk (Some "t2"%string) None None None None None None) None).

Definition both_ids : option ToolArgs.t :=
  Some (ToolArgs.mk
          (TaskFields.mk (Some "t2"%string) None None (Some "b"%string) None None None)
          None).

(** A server that has made its client from an access token. *)
Definition running : Server.World :=
  Server.mkWorld (Some (new_TickTickClient Sample.token_config)) [] [].

End SampleCalls.

Module SampleEnv.

Definition heading : Dotenv.text := Dotenv.units "# TickTick".
Definition client_id : Dotenv.text := Dotenv.units " TICKTICK_CLIENT_ID = abc ".
Definition note : Dotenv.text := Dotenv.units "no value here".

Definition envFile : Dotenv.text :=
  (heading ++ Dotenv.LF :: client_id ++ Dotenv.LF :: note)%list.

Definition bindings : list (Dotenv.text * Dotenv.text) :=
  [(Dotenv.units "TICKTICK_CLIENT_ID", Dotenv.units "abc");
   (Dotenv.units "TICKTICK_REDIRECT", Dotenv.units "http://localhost:8000/callback")].

End SampleEnv.

Example parse_epoch : JS.parse_iso "1970-01-01T00:00:00.000Z" = Some 0.
Proof. reflexivity. Qed.

Example parse_2024_01_10 : JS.parse_iso "2024-01-10T00:00:00Z" = Some 1704844800000.
Proof. reflexivity. Qed.

Example iso_2024_02_29 :
  JS.toISOString (Some 1709210096789) = inr "2024-02-29T12:34:56.789Z"%string.
Proof. reflexivity. Qed.

Example iso_max :
  JS.toISOString (JS.TimeClip JS.maxTime) = inr "+275760-09-13T00:00:00.000Z"%string.
Proof. reflexivity. Qed.

Example iso_min :
  JS.toISOString (JS.TimeClip (- JS.maxTime)) = inr "-271821-04-20T00:00:00.000Z"%string.
Proof. reflexivity. Qed.

Example iso_before_epoch :
  JS.toISOString (Some (-1)) = inr "1969-12-31T23:59:59.999Z"%string.
Proof. reflexivity. Qed.

Example iso_year_zero :
  JS.toISOString (JS.parse_iso "0000-03-01T00:00:00Z") = inr "0000-03-01T00:00:00.000Z"%string.
Proof. reflexivity. Qed.

Example iso_year_10000 :
  JS.toISOString (JS.parse_iso "+010000-01-01T00:00:00.000Z")
  = inr "+010000-01-01T00:00:00.000Z"%string.
Proof. reflexivity. Qed.

Example number_toString_examples :
  JS.Number_toString 7 = "7"%string /\ JS.Number_toString (-12) = "-12"%string
  /\ JS.Number_toString 1024 = "1024"%string /\ JS.Number_toString 0 = "0"%string.
Proof. repeat split. Qed.


(* ================================================================== *)
(** * Calendar arithmetic *)
(* ================================================================== *)

Module CalendarFacts.
Import JS.

Ltac div_lia := Z.to_euclidean_division_equations; lia.

Lemma civil_doy_bounds (doe : Z) :
  0 <= doe < 146097 ->
  let yoe := (doe - doe / 1460 + doe / 36524 - doe / 146096) / 365 in
  let doy := doe - (365 * yoe + yoe / 4 - yoe / 100) in
  0 <= yoe <= 399 /\ 0 <= doy <= 365.
Proof. intros H yoe doy. subst doy yoe. div_lia. Qed.

Lemma month_day_bounds (doy : Z) :
  0 <= doy <= 365 ->
  let mp := (5 * doy + 2) / 153 in
  0 <= mp <= 11 /\ 1 <= doy - (153 * mp + 2) / 5 + 1 <= 31.
Proof. intros H mp. subst mp. div_lia. Qed.

(** Month and day of month are in their calendar ranges for every day
    number. *)
Lemma civil_from_days_fields (day : Z) :
  1 <= snd (fst (civil_from_days day)) <= 12
  /\ 1 <= snd (civil_from_days day) <= 31.
Proof.
  unfold civil_from_days.
  set (doe := (day + 719468) mod 146097).
  assert (Hdoe : 0 <= doe < 146097) by (subst doe; apply Z.mod_pos_bound; lia).
  destruct (civil_doy_bounds doe Hdoe) as [_ Hdoy].
  set (yoe := (doe - doe / 1460 + doe / 36524 - doe / 146096) / 365) in *.
  set (doy := doe - (365 * yoe + yoe / 4 - yoe / 100)) in *.
  destruct (month_day_bounds doy Hdoy) as [Hmp Hd].
  set (mp := (5 * doy + 2) / 153) in *.
  cbn [fst snd].
  destruct (Z.ltb_spec mp 10); lia.
Qed.

(** [days_from_civil] undoes [civil_from_days]. *)
Lemma days_from_civil_from_days (day : Z) :
  let '(y, m, d) := civil_from_days day in days_from_civil y m d = day.
Proof.
  unfold civil_from_days.
  set (z := day + 719468).
  set (doe := z mod 146097).
  assert (Hdoe : 0 <= doe < 146097) by (subst doe; apply Z.mod_pos_bound; lia).
  destruct (civil_doy_bounds doe Hdoe) as [Hyoe Hdoy].
  set (yoe := (doe - doe / 1460 + doe / 36524 - doe / 146096) / 365) in *.
  set (doy := doe - (365 * yoe + yoe / 4 - yoe / 100)) in *.
  destruct (month_day_bounds doy Hdoy) as [Hmp Hd].
  set (mp := (5 * doy + 2) / 153) in *.
  set (m := if mp <? 10 then mp + 3 else mp - 9).
  unfold days_from_civil.
  assert (Hy : (if m <=? 2
                then yoe + z / 146097 * 400 + (if m <=? 2 then 1 else 0) - 1
                else yoe + z / 146097 * 400 + (if m <=? 2 then 1 else 0))
               = yoe + z / 146097 * 400)
    by (destruct (m <=? 2); lia).
  rewrite Hy.
  assert (Hmp' : (if 2 <? m then m - 3 else m + 9) = mp).
  { subst m. destruct (Z.ltb_spec mp 10);
      [destruct (Z.ltb_spec 2 (mp + 3)) | destruct (Z.ltb_spec 2 (mp - 9))]; lia. }
  rewrite Hmp'.
  assert (Hera : (yoe + z / 146097 * 400) / 400 = z / 146097) by div_lia.
  assert (Hyoe' : (yoe + z / 146097 * 400) mod 400 = yoe) by div_lia.
  rewrite Hera, Hyoe'.
  assert (Hz : z = 146097 * (z / 146097) + doe) by (subst doe; apply Z.div_mod; lia).
  subst doy z. lia.
Qed.

(** Two day numbers with the same calendar date are the same day. *)
Lemma civil_from_days_inj (a b : Z) :
  civil_from_days a = civil_from_days b -> a = b.
Proof.
  intros H.
  pose proof (days_from_civil_from_days a) as Ha.
  pose proof (days_from_civil_from_days b) as Hb.
  rewrite H in Ha.
  destruct (civil_from_days b) as [[y m] d].
  congruence.
Qed.

Lemma forallb_below (P : Z -> bool) (n : nat) :
  forallb P (map Z.of_nat (seq 0 n)) = true ->
  forall z, 0 <= z < Z.of_nat n -> P z = true.
Proof.
  intros H z Hz. rewrite forallb_forall in H. apply H.
  apply in_map_iff. exists (Z.to_nat z). split; [lia|].
  apply in_seq. lia.
Qed.

Lemma pair_eqb_eq (a b : Z * Z) : Spec.pair_eqb a b = true -> a = b.
Proof.
  destruct a, b. unfold Spec.pair_eqb. cbn. intros H.
  apply andb_true_iff in H as [H1 H2].
  apply Z.eqb_eq in H1, H2. congruence.
Qed.

(** The month table, read for a day counted from 1 March; checked on
    every day of a common and of a leap year. *)
Lemma month_and_date_from_march (doy leap : Z) :
  0 <= leap <= 1 -> 0 <= doy -> doy < 365 + leap ->
  let mp := (5 * doy + 2) / 153 in
  let d := doy - (153 * mp + 2) / 5 + 1 in
  (mp < 10 -> month_and_date (doy + 59 + leap) leap = (mp + 2, d))
  /\ (10 <= mp -> month_and_date (doy - 306) leap = (mp - 10, d)).
Proof.
  intros Hl Hdoy Hlast mp d.
  assert (H : Spec.table_agrees leap doy = true).
  { assert (Hc : leap = 0 \/ leap = 1) by lia. destruct Hc as [-> | ->].
    - apply (forallb_below (Spec.table_agrees 0) 365); [vm_compute; reflexivity|lia].
    - apply (forallb_below (Spec.table_agrees 1) 366); [vm_compute; reflexivity|lia]. }
  unfold Spec.table_agrees in H. fold mp d in H.
  destruct (Z.ltb_spec mp 10); apply pair_eqb_eq in H; split; intros; (lia || assumption).
Qed.

Lemma InLeapYear_period (y k : Z) : InLeapYear (y + 400 * k) = InLeapYear y.
Proof.
  unfold InLeapYear, DayFromYear. div_lia.
Qed.

(** [civil_from_days] is ECMAScript's calendar: the year is the one whose
    first day is the last at or before [day], and month and day of month
    are the entries of the month table. *)
Lemma civil_is_ecmascript (day : Z) :
  let '(y, m, d) := civil_from_days day in
  DayFromYear y <= day < DayFromYear (y + 1)
  /\ month_and_date (day - DayFromYear y) (InLeapYear y) = (m - 1, d).
Proof.
  unfold civil_from_days.
  set (z := day + 719468).
  assert (Hday : day = z - 719468) by (subst z; lia).
  pose proof (Z.div_mod z 146097 ltac:(lia)) as Hz.
  pose proof (Z.mod_pos_bound z 146097 ltac:(lia)) as Hdoe.
  set (doe := z mod 146097) in *.
  set (era := z / 146097) in *.
  destruct (civil_doy_bounds doe Hdoe) as [Hyoe Hdoy].
  set (yoe := (doe - doe / 1460 + doe / 36524 - doe / 146096) / 365) in *.
  set (doy := doe - (365 * yoe + yoe / 4 - yoe / 100)) in *.
  destruct (month_day_bounds doy Hdoy) as [Hmp _].
  assert (Hm : ((5 * doy + 2) / 153 < 10 <-> doy < 306))
    by (Z.to_euclidean_division_equations; lia).
  assert (Hyoe_def : 365 * yoe <= doe - doe / 1460 + doe / 36524 - doe / 146096 < 365 * yoe + 365)
    by (subst yoe; Z.to_euclidean_division_equations; lia).
  assert (Hdoy_def : doe = doy + 365 * yoe + yoe / 4 - yoe / 100) by (subst doy; lia).
  pose proof (month_and_date_from_march doy) as Htable. cbv zeta in Htable.
  set (mp := (5 * doy + 2) / 153) in *.
  set (d := doy - (153 * mp + 2) / 5 + 1) in *.
  clearbody d doy mp yoe era doe z. subst day.
  destruct (Z.ltb_spec mp 10) as [Hlt|Hge].
  - destruct (Z.leb_spec (mp + 3) 2); [lia|].
    assert (Hdoy' : doy < 306) by (apply Hm; lia). clear Hm.
    replace (yoe + era * 400 + 0) with (yoe + era * 400) by lia.
    set (y := yoe + era * 400) in *.
    assert (Hy : 0 <= InLeapYear y <= 1
                 /\ z - 719468 - DayFromYear y = doy + 59 + InLeapYear y).
    { unfold InLeapYear, DayFromYear. subst y. clear Htable.
      div_lia. }
    destruct Hy as [Hleap Hdwy]. split.
    + unfold InLeapYear in Hleap, Hdwy. lia.
    + rewrite Hdwy. replace (mp + 3 - 1) with (mp + 2) by lia.
      apply Htable; lia.
  - destruct (Z.leb_spec (mp - 9) 2); [|lia].
    assert (Hdoy' : 306 <= doy) by lia. clear Hm.
    set (y := yoe + era * 400 + 1) in *.
    assert (Hdwy : z - 719468 - DayFromYear y = doy - 306).
    { unfold DayFromYear. subst y. clear Htable.
      div_lia. }
    assert (Hleap : 0 <= InLeapYear y <= 1).
    { unfold InLeapYear, DayFromYear. subst y. clear - Hyoe.
      div_lia. }
    assert (Hlast : doy < 365 + InLeapYear y).
    { replace y with (yoe + 1 + 400 * era) by (subst y; lia).
      rewrite InLeapYear_period.
      unfold InLeapYear, DayFromYear. clear - Hyoe Hdoy Hdoe Hyoe_def Hdoy_def.
      div_lia. }
    assert (Hnext : z - 719468 < DayFromYear (y + 1)).
    { unfold InLeapYear in Hlast. lia. }
    split.
    + lia.
    + rewrite Hdwy. replace (mp - 9 - 1) with (mp - 10) by lia.
      apply Htable; lia.
Qed.
(** The years a valid time value can fall in. *)
Lemma year_of_valid_time (t : Z) :
  Z.abs t <= maxTime -> -272000 <= YearFromTime t <= 276000.
Proof.
  intros Ht. unfold YearFromTime, civil_from_days, Day, msPerDay.
  unfold maxTime in Ht. cbn [fst].
  set (z := t / 86400000 + 719468).
  assert (Hz : -100000000 + 719468 <= z <= 100000000 + 719468) by (subst z; div_lia).
  set (doe := z mod 146097).
  assert (Hdoe : 0 <= doe < 146097) by (subst doe; apply Z.mod_pos_bound; lia).
  destruct (civil_doy_bounds doe Hdoe) as [Hyoe _].
  set (yoe := (doe - doe / 1460 + doe / 36524 - doe / 146096) / 365) in *.
  match goal with |- context [if ?c then 1 else 0] => destruct c end; div_lia.
Qed.

End CalendarFacts.


(* ================================================================== *)
(** * Strings of digits *)
(* ================================================================== *)

Module DigitFacts.
Import JS.

Local Open Scope string_scope.

Lemma compare_refl (s : string) : String.compare s s = Eq.
Proof.
  induction s as [|c s IH]; cbn; [reflexivity|].
  replace (Ascii.compare c c) with Eq; [exact IH|].
  symmetry. unfold Ascii.compare. apply N.compare_refl.
Qed.

Lemma compare_eq (a b : string) : String.compare a b = Eq <-> a = b.
Proof.
  split; [apply String.compare_eq_iff | intros ->; apply compare_refl].
Qed.

(** Comparing two concatenations whose heads have the same length. *)
Lemma compare_app (a b x y : string) :
  String.length a = String.length b ->
  String.compare (a ++ x) (b ++ y)
  = match String.compare a b with Eq => String.compare x y | c => c end.
Proof.
  revert b. induction a as [|c a IH]; intros [|c' b] Hlen; cbn in *;
    try discriminate; [reflexivity|].
  destruct (Ascii.compare c c'); auto.
Qed.

Lemma app_inj_length (a b x y : string) :
  String.length a = String.length b ->
  a ++ x = b ++ y -> a = b /\ x = y.
Proof.
  revert b. induction a as [|c a IH]; intros [|c' b] Hlen H; cbn in *;
    try discriminate; [auto|].
  injection H as -> H. destruct (IH b) as [-> ->]; auto.
Qed.

Lemma padded_length (w : nat) (n : Z) : String.length (padded w n) = w.
Proof. revert n. induction w; intros; cbn; auto. Qed.

(** Digit characters are ordered as the digits they print. *)
Lemma digit_compare (a b : Z) :
  0 <= a < 10 -> 0 <= b < 10 ->
  Ascii.compare (digit a) (digit b) = Z.compare a b.
Proof.
  intros Ha Hb. unfold Ascii.compare, digit.
  rewrite !Z.mod_small by assumption.
  unfold ascii_of_nat.
  rewrite !N_ascii_embedding by lia.
  rewrite <- N2Z.inj_compare, !nat_N_Z.
  rewrite !Nat2Z.inj_add, !Z2Nat.id by lia.
  apply Z.add_compare_mono_l.
Qed.

Lemma digit_is_not (c : ascii) (n : Z) :
  (nat_of_ascii c < 48 \/ 57 < nat_of_ascii c)%nat -> Ascii.eqb (digit n) c = false.
Proof.
  intros Hc. apply Ascii.eqb_neq. intros <-.
  unfold digit in Hc.
  assert (Hm : 0 <= n mod 10 < 10) by (apply Z.mod_pos_bound; lia).
  rewrite nat_ascii_embedding in Hc by lia. lia.
Qed.

Lemma pow10_pos (w : nat) : 0 < 10 ^ Z.of_nat w.
Proof. apply Z.pow_pos_nonneg; lia. Qed.

(** Fixed-width decimal strings compare as the numbers they print. *)
Lemma padded_compare (w : nat) (a b : Z) :
  0 <= a < 10 ^ Z.of_nat w -> 0 <= b < 10 ^ Z.of_nat w ->
  String.compare (padded w a) (padded w b) = Z.compare a b.
Proof.
  revert a b. induction w as [|w IH]; intros a b Ha Hb.
  - cbn in *. assert (a = 0) by lia. assert (b = 0) by lia. subst. reflexivity.
  - cbn [padded String.compare].
    pose proof (pow10_pos w) as HP.
    assert (HS : 10 ^ Z.of_nat (S w) = 10 * 10 ^ Z.of_nat w)
      by (rewrite Nat2Z.inj_succ, Z.pow_succ_r by lia; reflexivity).
    rewrite HS in Ha, Hb.
    set (P := 10 ^ Z.of_nat w) in *.
    pose proof (Z.div_mod a P ltac:(lia)) as Ea.
    pose proof (Z.div_mod b P ltac:(lia)) as Eb.
    pose proof (Z.mod_pos_bound a P HP) as Ra.
    pose proof (Z.mod_pos_bound b P HP) as Rb.
    assert (Qa : 0 <= a / P < 10)
      by (split; [apply Z.div_pos; lia | apply Z.div_lt_upper_bound; lia]).
    assert (Qb : 0 <= b / P < 10)
      by (split; [apply Z.div_pos; lia | apply Z.div_lt_upper_bound; lia]).
    rewrite digit_compare by assumption.
    rewrite IH by assumption.
    destruct (Z.compare_spec (a / P) (b / P)) as [E|L|G].
    + rewrite E in Ea.
      destruct (Z.compare_spec (a mod P) (b mod P));
        symmetry; [apply Z.compare_eq_iff | apply Z.compare_lt_iff
                  | apply Z.compare_gt_iff]; lia.
    + symmetry. apply Z.compare_lt_iff. nia.
    + symmetry. apply Z.compare_gt_iff. nia.
Qed.

Lemma padded_inj (w : nat) (a b : Z) :
  0 <= a < 10 ^ Z.of_nat w -> 0 <= b < 10 ^ Z.of_nat w ->
  padded w a = padded w b -> a = b.
Proof.
  intros Ha Hb E. apply Z.compare_eq.
  rewrite <- (padded_compare w) by assumption. now apply compare_eq.
Qed.

Lemma occurs_app (c : ascii) (a b : string) :
  Spec.occurs c (a ++ b) = Spec.occurs c a || Spec.occurs c b.
Proof. induction a; cbn; [reflexivity|]. rewrite IHa. apply orb_assoc. Qed.

Lemma occurs_padded (c : ascii) (w : nat) (n : Z) :
  (nat_of_ascii c < 48 \/ 57 < nat_of_ascii c)%nat -> Spec.occurs c (padded w n) = false.
Proof.
  intros Hc. revert n. induction w; intros; cbn [padded Spec.occurs]; [reflexivity|].
  rewrite digit_is_not, IHw by assumption. reflexivity.
Qed.

(** Splitting at the first separator returns the text in front of it. *)
Lemma split_0_app (sep : ascii) (a r : string) :
  Spec.occurs sep a = false -> split_0 sep (a ++ String sep r) = a.
Proof.
  induction a as [|c a IH]; cbn.
  - rewrite Ascii.eqb_refl. reflexivity.
  - intros H. apply orb_false_iff in H as [-> H]. now rewrite IH.
Qed.

End DigitFacts.


(* ================================================================== *)
(** * The date text of [toISOString] *)
(* ================================================================== *)

Module DateText.
Import JS.
Import CalendarFacts DigitFacts.

Lemma date_part_civil (t : Z) :
  date_part t = Spec.date_string (civil_from_days (Day t)).
Proof.
  unfold date_part, Spec.date_string, YearFromTime, MonthFromTime, DateFromTime.
  destruct (civil_from_days (Day t)) as [[y m] d]. cbn [fst snd].
  replace (m - 1 + 1) with m by lia. reflexivity.
Qed.

Lemma occurs_T_year (y : Z) : Spec.occurs "T" (year_string y) = false.
Proof.
  unfold year_string.
  destruct ((0 <=? y) && (y <=? 9999)).
  - apply occurs_padded. cbn. lia.
  - cbn [Spec.occurs]. rewrite occurs_padded by (cbn; lia).
    destruct (0 <=? y); reflexivity.
Qed.

Lemma occurs_T_date_part (t : Z) : Spec.occurs "T" (date_part t) = false.
Proof.
  unfold date_part.
  rewrite !occurs_app, occurs_T_year, !occurs_padded by (cbn; lia).
  reflexivity.
Qed.

(** [toISOString().split('T')[0]] is the date text. *)
Lemma split_toISOString (t : Z) :
  bind_exc (toISOString (Some t)) (fun iso => inr (split_0 "T" iso))
  = inr (A := exception) (date_part t).
Proof.
  cbn. f_equal. apply (split_0_app "T"), occurs_T_date_part.
Qed.

Lemma string_cons_inj (c1 c2 : ascii) (s1 s2 : string) :
  String c1 s1 = String c2 s2 -> c1 = c2 /\ s1 = s2.
Proof. intros H. injection H. auto. Qed.

Lemma padded_S (w : nat) (n : Z) :
  padded (S w) n
  = String (digit (n / 10 ^ Z.of_nat w)) (padded w (n mod 10 ^ Z.of_nat w)).
Proof. reflexivity. Qed.

Lemma padded_inj_below (w : nat) (P a b : Z) :
  P = 10 ^ Z.of_nat w -> 0 <= a < P -> 0 <= b < P ->
  padded w a = padded w b -> a = b.
Proof. intros ->. apply padded_inj. Qed.

Lemma padded_compare_below (w : nat) (P a b : Z) :
  P = 10 ^ Z.of_nat w -> 0 <= a < P -> 0 <= b < P ->
  String.compare (padded w a) (padded w b) = Z.compare a b.
Proof. intros ->. apply padded_compare. Qed.

Lemma digit_not_sign (n : Z) (pos : bool) :
  digit n <> (if pos then "+"%char else "-"%char).
Proof.
  apply Ascii.eqb_neq, digit_is_not. destruct pos; cbn; lia.
Qed.

Lemma year_string_inj (y1 y2 : Z) (r1 r2 : string) :
  -1000000 < y1 < 1000000 -> -1000000 < y2 < 1000000 ->
  (year_string y1 ++ r1 = year_string y2 ++ r2)%string -> y1 = y2 /\ r1 = r2.
Proof.
  intros H1 H2. unfold year_string.
  destruct ((0 <=? y1) && (y1 <=? 9999)) eqn:C1,
           ((0 <=? y2) && (y2 <=? 9999)) eqn:C2; intros E.
  - apply app_inj_length in E; [|now rewrite !padded_length].
    destruct E as [E ->]. split; [|reflexivity].
    apply (padded_inj_below 4 10000) in E; [assumption|reflexivity|lia..].
  - rewrite padded_S in E. cbn [append] in E.
    apply string_cons_inj in E as [E _]. now apply digit_not_sign in E.
  - rewrite padded_S in E. cbn [append] in E.
    apply string_cons_inj in E as [E _].
    symmetry in E. now apply digit_not_sign in E.
  - cbn [append] in E. apply string_cons_inj in E as [Es E].
    apply app_inj_length in E; [|now rewrite !padded_length].
    destruct E as [E ->]. split; [|reflexivity].
    apply (padded_inj_below 6 1000000) in E; [|reflexivity|lia..].
    destruct (Z.leb_spec 0 y1), (Z.leb_spec 0 y2); try discriminate Es; lia.
Qed.

(** Distinct calendar dates have distinct date texts. *)
Lemma date_string_inj (a b : Z * Z * Z) :
  -1000000 < fst (fst a) < 1000000 -> -1000000 < fst (fst b) < 1000000 ->
  0 <= snd (fst a) < 100 -> 0 <= snd (fst b) < 100 ->
  0 <= snd a < 100 -> 0 <= snd b < 100 ->
  Spec.date_string a = Spec.date_string b -> a = b.
Proof.
  destruct a as [[y1 m1] d1], b as [[y2 m2] d2]. cbn [fst snd Spec.date_string].
  intros Hy1 Hy2 Hm1 Hm2 Hd1 Hd2 E.
  apply year_string_inj in E as [-> E]; try assumption.
  cbn [append] in E. apply string_cons_inj in E as [_ E].
  apply app_inj_length in E as [Em E]; [|now rewrite !padded_length].
  apply string_cons_inj in E as [_ E].
  apply (padded_inj_below 2 100) in Em; [|reflexivity|lia..].
  apply (padded_inj_below 2 100) in E; [|reflexivity|lia..].
  congruence.
Qed.

(** Between two dates of four-digit years, the order of the date texts
    is the calendar order. *)
Lemma date_string_compare (a b : Z * Z * Z) :
  Spec.four_digit_year a -> Spec.four_digit_year b ->
  0 <= snd (fst a) < 100 -> 0 <= snd (fst b) < 100 ->
  0 <= snd a < 100 -> 0 <= snd b < 100 ->
  String.compare (Spec.date_string a) (Spec.date_string b) = Spec.date_compare a b.
Proof.
  destruct a as [[y1 m1] d1], b as [[y2 m2] d2].
  unfold Spec.four_digit_year. cbn [fst snd Spec.date_string Spec.date_compare].
  intros Hy1 Hy2 Hm1 Hm2 Hd1 Hd2.
  unfold year_string.
  destruct (Z.leb_spec 0 y1), (Z.leb_spec y1 9999),
           (Z.leb_spec 0 y2), (Z.leb_spec y2 9999); try lia.
  cbn [andb].
  rewrite compare_app by now rewrite !padded_length.
  rewrite (padded_compare_below 4 10000) by (reflexivity || lia).
  destruct (Z.compare y1 y2); try reflexivity.
  cbn [append String.compare]. change (Ascii.compare "-" "-") with Eq. cbv iota.
  rewrite compare_app by now rewrite !padded_length.
  rewrite (padded_compare_below 2 100) by (reflexivity || lia).
  destruct (Z.compare m1 m2); try reflexivity.
  cbn [append String.compare]. change (Ascii.compare "-" "-") with Eq. cbv iota.
  apply (padded_compare_below 2 100); (reflexivity || lia).
Qed.

Lemma valid_date_fields (t : Z) :
  Z.abs t <= maxTime ->
  let date := civil_from_days (Day t) in
  -1000000 < fst (fst date) < 1000000
  /\ 0 <= snd (fst date) < 100 /\ 0 <= snd date < 100.
Proof.
  intros Ht date. subst date.
  pose proof (year_of_valid_time t Ht) as Hy. unfold YearFromTime in Hy.
  pose proof (civil_from_days_fields (Day t)). lia.
Qed.

(** Two valid time values have the same date text exactly when they have
    the same calendar date. *)
Lemma date_part_eqb (a b : Z) :
  Z.abs a <= maxTime -> Z.abs b <= maxTime ->
  (string_eq (date_part a) (date_part b) = true
   <-> civil_from_days (Day a) = civil_from_days (Day b)).
Proof.
  intros Ha Hb. unfold string_eq. rewrite String.eqb_eq, !date_part_civil.
  split; [|congruence].
  destruct (valid_date_fields a Ha) as (? & ? & ?).
  destruct (valid_date_fields b Hb) as (? & ? & ?).
  now apply date_string_inj.
Qed.

Lemma date_part_ltb (a b : Z) :
  Spec.four_digit_year (civil_from_days (Day a)) ->
  Spec.four_digit_year (civil_from_days (Day b)) ->
  (string_lt (date_part a) (date_part b) = true
   <-> Spec.date_before (civil_from_days (Day a)) (civil_from_days (Day b))).
Proof.
  intros Ha Hb. unfold string_lt, String.ltb, Spec.date_before.
  rewrite !date_part_civil.
  pose proof (civil_from_days_fields (Day a)).
  pose proof (civil_from_days_fields (Day b)).
  rewrite date_string_compare by (assumption || lia).
  destruct (Spec.date_compare _ _); split; congruence.
Qed.

End DateText.


Module CalendarOrder.
Import JS CalendarFacts.

(** Calendar order of two dates given by year and month counted from
    March. *)
Lemma march_based_order (y1 mp1 d1 y2 mp2 d2 : Z) :
  0 <= mp1 <= 11 -> 0 <= mp2 <= 11 ->
  y1 < y2 \/ (y1 = y2 /\ (mp1 < mp2 \/ (mp1 = mp2 /\ d1 < d2))) ->
  Spec.date_before
    (y1 + (if (if mp1 <? 10 then mp1 + 3 else mp1 - 9) <=? 2 then 1 else 0),
     if mp1 <? 10 then mp1 + 3 else mp1 - 9, d1)
    (y2 + (if (if mp2 <? 10 then mp2 + 3 else mp2 - 9) <=? 2 then 1 else 0),
     if mp2 <? 10 then mp2 + 3 else mp2 - 9, d2).
Proof.
  intros H1 H2 H. unfold Spec.date_before, Spec.date_compare.
  destruct (Z.ltb_spec mp1 10), (Z.ltb_spec mp2 10).
  all: repeat match goal with
         | |- context [?a <=? ?b] => destruct (Z.leb_spec a b); try lia
         end.
  all: repeat match goal with
         | |- context [?a ?= ?b] => destruct (Z.compare_spec a b); try lia
         end.
  all: reflexivity.
Qed.

Lemma civil_from_days_lt (a b : Z) :
  a < b -> Spec.date_before (civil_from_days a) (civil_from_days b).
Proof.
  intros Hab. unfold civil_from_days.
  set (za := a + 719468). set (zb := b + 719468).
  set (doea := za mod 146097). set (doeb := zb mod 146097).
  assert (Ha : 0 <= doea < 146097) by (subst doea; apply Z.mod_pos_bound; lia).
  assert (Hb : 0 <= doeb < 146097) by (subst doeb; apply Z.mod_pos_bound; lia).
  destruct (civil_doy_bounds doea Ha) as [Hya Hda].
  destruct (civil_doy_bounds doeb Hb) as [Hyb Hdb].
  set (yoea := (doea - doea / 1460 + doea / 36524 - doea / 146096) / 365) in *.
  set (yoeb := (doeb - doeb / 1460 + doeb / 36524 - doeb / 146096) / 365) in *.
  set (doya := doea - (365 * yoea + yoea / 4 - yoea / 100)) in *.
  set (doyb := doeb - (365 * yoeb + yoeb / 4 - yoeb / 100)) in *.
  destruct (month_day_bounds doya Hda) as [Hma _].
  destruct (month_day_bounds doyb Hdb) as [Hmb _].
  set (mpa := (5 * doya + 2) / 153) in *.
  set (mpb := (5 * doyb + 2) / 153) in *.
  apply (march_based_order (yoea + za / 146097 * 400) mpa _
                           (yoeb + zb / 146097 * 400) mpb _); try assumption.
  assert (Eera : za / 146097 < zb / 146097
                 \/ (za / 146097 = zb / 146097 /\ doea < doeb))
    by (subst doea doeb za zb; Z.to_euclidean_division_equations; lia).
  destruct Eera as [L|[E L]].
  - left. lia.
  - rewrite E.
    assert (Eyoe : yoea < yoeb \/ (yoea = yoeb /\ doya < doyb)).
    { clearbody doea doeb. subst doya doyb yoea yoeb.
      clear - L Ha Hb. Z.to_euclidean_division_equations. lia. }
    destruct Eyoe as [Ly|[Ey Ld]]; [left; lia|right; split; [lia|]].
    clearbody doya doyb. subst mpa mpb.
    clear - Ld Hda Hdb. Z.to_euclidean_division_equations. lia.
Qed.

Lemma date_compare_antisym (a b : Z * Z * Z) :
  Spec.date_compare b a = CompOpp (Spec.date_compare a b).
Proof.
  destruct a as [[ya ma] da], b as [[yb mb] db]. unfold Spec.date_compare.
  rewrite (Z.compare_antisym ya yb), (Z.compare_antisym ma mb),
          (Z.compare_antisym da db).
  destruct (ya ?= yb), (ma ?= mb), (da ?= db); reflexivity.
Qed.

Lemma date_compare_refl (a : Z * Z * Z) : Spec.date_compare a a = Eq.
Proof.
  destruct a as [[y m] d]. unfold Spec.date_compare.
  now rewrite !Z.compare_refl.
Qed.

(** The calendar date of one day number is before that of another
    exactly when the day number is smaller. *)
Lemma civil_from_days_before (a b : Z) :
  Spec.date_before (civil_from_days a) (civil_from_days b) <-> a < b.
Proof.
  split; [|apply civil_from_days_lt].
  unfold Spec.date_before. intros H.
  destruct (Z.lt_trichotomy a b) as [L|[E|G]]; [assumption|subst|].
  - rewrite date_compare_refl in H. discriminate.
  - apply civil_from_days_lt in G. unfold Spec.date_before in G.
    rewrite date_compare_antisym, G in H. discriminate.
Qed.

End CalendarOrder.


(* ================================================================== *)
(** * Date classifiers *)
(* ================================================================== *)

Section ClassifierFacts.

Variable Date_parse : string -> JS.number.

Import JS.

Lemma split_date (t : Z) :
  split_0 "T" (date_part t ++ "T" ++ time_part t) = date_part t.
Proof. apply (DigitFacts.split_0_app "T"), DateText.occurs_T_date_part. Qed.

(** Past its two guards, the due-today classifier compares the date texts
    of the adjusted due date and of the current time. *)
Lemma isTaskDueToday_dates (clock : Z) (task : TickTickTask.t) :
  truthy_string (TickTickTask.completedTime task) = false ->
  truthy_string (TickTickTask.dueDate task) = true ->
  isTaskDueToday Date_parse clock task
  = match new_Date_now clock,
          adjust (new_Date_string Date_parse (TickTickTask.dueDate task)) with
    | Some n, Some a => string_eq (date_part a) (date_part n)
    | _, _ => false
    end.
Proof.
  intros Hc Hd. unfold isTaskDueToday. rewrite Hc, Hd. cbn [negb].
  destruct (new_Date_now clock) as [n|],
           (adjust (new_Date_string Date_parse (TickTickTask.dueDate task))) as [a|];
    destruct (truthy_bool (TickTickTask.allDay task));
    cbn [toISOString bind_exc try_catch]; rewrite ?split_date; reflexivity.
Qed.

Lemma isTaskOverdue_dates (clock : Z) (task : TickTickTask.t) (offset : option Z) :
  truthy_string (TickTickTask.completedTime task) = false ->
  truthy_string (TickTickTask.dueDate task) = true ->
  isTaskOverdue Date_parse clock task offset
  = match new_Date_now clock,
          adjust (new_Date_string Date_parse (TickTickTask.dueDate task)) with
    | Some n, Some a =>
        if truthy_bool (TickTickTask.allDay task)
        then string_lt (date_part a) (date_part n)
        else a <? n
    | _, _ => false
    end.
Proof.
  intros Hc Hd. unfold isTaskOverdue. rewrite Hc, Hd. cbn [negb].
  destruct (new_Date_now clock) as [n|],
           (adjust (new_Date_string Date_parse (TickTickTask.dueDate task))) as [a|];
    destruct (truthy_bool (TickTickTask.allDay task));
    cbn [toISOString bind_exc try_catch Date_lt]; rewrite ?split_date; reflexivity.
Qed.

Lemma TimeClip_Some (v t : Z) : TimeClip v = Some t -> t = v /\ Z.abs v <= maxTime.
Proof.
  unfold TimeClip. destruct (Z.leb_spec (Z.abs v) maxTime); [|discriminate].
  intros [= <-]. auto.
Qed.

Lemma new_Date_string_valid (d : option string) (v : Z) :
  new_Date_string Date_parse d = Some v -> Z.abs v <= maxTime.
Proof.
  destruct d as [s|]; [|discriminate]. cbn.
  destruct (Date_parse s) as [t|]; [|discriminate]. cbn.
  intros H. now apply TimeClip_Some in H as [-> H].
Qed.

(** The adjusted due date of a due date with time value [v]. *)
Lemma adjust_valid (v : Z) : adjust (Some v) = TimeClip (v + 86400000).
Proof. reflexivity. Qed.

(** The due-today classifier does not look at [allDay]. *)
Lemma isTaskDueToday_allDay (clock : Z) (task : TickTickTask.t) (a : option bool) :
  isTaskDueToday Date_parse clock (TickTickTask.set_allDay a task)
  = isTaskDueToday Date_parse clock task.
Proof.
  unfold isTaskDueToday. cbn [TickTickTask.set_allDay TickTickTask.completedTime
    TickTickTask.dueDate TickTickTask.allDay].
  destruct (truthy_bool a), (truthy_bool (TickTickTask.allDay task)); reflexivity.
Qed.

(** C1.  For an uncompleted task whose due date parses to the time value
    [v], the due-today classifier works on [adjustedDue = v + 24h] whatever
    [allDay] says, and answers true exactly when [adjustedDue] and the
    current time are dates with the same UTC calendar date; the answer is
    the same for every value of [allDay]. *)
Theorem due_today_iff_same_utc_date (clock : Z) (task : TickTickTask.t) (v : Z) :
  truthy_string (TickTickTask.completedTime task) = false ->
  truthy_string (TickTickTask.dueDate task) = true ->
  new_Date_string Date_parse (TickTickTask.dueDate task) = Some v ->
  let adjustedDue := new_Date_number (Some (v + 24 * 60 * 60 * 1000)) in
  adjust (new_Date_string Date_parse (TickTickTask.dueDate task)) = adjustedDue
  /\ (isTaskDueToday Date_parse clock task = true
      <-> exists date,
            Spec.utc_calendar_date adjustedDue = Some date
            /\ Spec.utc_calendar_date (new_Date_now clock) = Some date)
  /\ (forall allDay,
        isTaskDueToday Date_parse clock (TickTickTask.set_allDay allDay task)
        = isTaskDueToday Date_parse clock task).
Proof.
  intros Hc Hd Hv adjustedDue.
  split; [rewrite Hv; reflexivity|].
  split; [|intros; apply isTaskDueToday_allDay].
  rewrite isTaskDueToday_dates, Hv by assumption.
  change (adjust (Some v)) with adjustedDue.
  unfold new_Date_now.
  destruct (TimeClip clock) as [n|] eqn:En, adjustedDue as [a|] eqn:Ea;
    cbn [Spec.utc_calendar_date].
  - apply TimeClip_Some in En as [-> Hn].
    apply TimeClip_Some in Ea as [-> Ha].
    rewrite DateText.date_part_eqb by assumption.
    split.
    + intros E. eexists. split; [reflexivity|now rewrite E].
    + intros (date & E1 & E2). congruence.
  - split; [discriminate|]. intros (date & E & _). discriminate.
  - split; [discriminate|]. intros (date & _ & E). discriminate.
  - split; [discriminate|]. intros (date & E & _). discriminate.
Qed.

(** Same calendar date means same day number: the classifier answers
    true exactly when both instants lie in one UTC day. *)
Corollary due_today_iff_same_day (clock : Z) (task : TickTickTask.t) (v : Z) :
  truthy_string (TickTickTask.completedTime task) = false ->
  truthy_string (TickTickTask.dueDate task) = true ->
  new_Date_string Date_parse (TickTickTask.dueDate task) = Some v ->
  Z.abs clock <= maxTime -> Z.abs (v + 86400000) <= maxTime ->
  (isTaskDueToday Date_parse clock task = true
   <-> Day (v + 86400000) = Day clock).
Proof.
  intros Hc Hd Hv Hn Ha.
  rewrite isTaskDueToday_dates, Hv, adjust_valid by assumption.
  unfold new_Date_now, TimeClip.
  destruct (Z.leb_spec (Z.abs clock) maxTime); [|lia].
  destruct (Z.leb_spec (Z.abs (v + 86400000)) maxTime); [|lia].
  rewrite DateText.date_part_eqb by assumption.
  split; [apply CalendarFacts.civil_from_days_inj | congruence].
Qed.

(** Within the years 0..9999 the all-day branch of the overdue classifier
    orders calendar dates, and the timed branch orders instants. *)
Lemma overdue_four_digit_years (clock : Z) (task : TickTickTask.t) (v : Z) (offset : option Z) :
  truthy_string (TickTickTask.completedTime task) = false ->
  truthy_string (TickTickTask.dueDate task) = true ->
  new_Date_string Date_parse (TickTickTask.dueDate task) = Some v ->
  Z.abs clock <= maxTime -> Z.abs (v + 86400000) <= maxTime ->
  Spec.four_digit_year (civil_from_days (Day (v + 86400000))) ->
  Spec.four_digit_year (civil_from_days (Day clock)) ->
  (isTaskOverdue Date_parse clock task offset = true
   <-> if truthy_bool (TickTickTask.allDay task)
       then Spec.date_before (civil_from_days (Day (v + 86400000)))
                             (civil_from_days (Day clock))
       else v + 86400000 < clock).
Proof.
  intros Hc Hd Hv Hn Ha Ya Yn.
  rewrite isTaskOverdue_dates, Hv, adjust_valid by assumption.
  unfold new_Date_now, TimeClip.
  destruct (Z.leb_spec (Z.abs clock) maxTime); [|lia].
  destruct (Z.leb_spec (Z.abs (v + 86400000)) maxTime); [|lia].
  destruct (truthy_bool (TickTickTask.allDay task)).
  - now apply DateText.date_part_ltb.
  - apply Z.ltb_lt.
Qed.

(** In day numbers: within those years an all-day task is overdue exactly
    when its adjusted due date falls on an earlier UTC day than the
    current time. *)
Corollary overdue_all_day_earlier_day (clock : Z) (task : TickTickTask.t) (v : Z)
    (offset : option Z) :
  truthy_string (TickTickTask.completedTime task) = false ->
  truthy_string (TickTickTask.dueDate task) = true ->
  new_Date_string Date_parse (TickTickTask.dueDate task) = Some v ->
  truthy_bool (TickTickTask.allDay task) = true ->
  Z.abs clock <= maxTime -> Z.abs (v + 86400000) <= maxTime ->
  Spec.four_digit_year (civil_from_days (Day (v + 86400000))) ->
  Spec.four_digit_year (civil_from_days (Day clock)) ->
  (isTaskOverdue Date_parse clock task offset = true
   <-> Day (v + 86400000) < Day clock).
Proof.
  intros Hc Hd Hv Hall Hn Ha Ya Yn.
  rewrite (overdue_four_digit_years clock task v offset) by assumption.
  rewrite Hall. apply CalendarOrder.civil_from_days_before.
Qed.

(** The timed branch needs no restriction on the years. *)
Lemma overdue_timed (clock : Z) (task : TickTickTask.t) (v : Z) (offset : option Z) :
  truthy_string (TickTickTask.completedTime task) = false ->
  truthy_string (TickTickTask.dueDate task) = true ->
  new_Date_string Date_parse (TickTickTask.dueDate task) = Some v ->
  truthy_bool (TickTickTask.allDay task) = false ->
  Z.abs clock <= maxTime ->
  (isTaskOverdue Date_parse clock task offset = true <-> v + 86400000 < clock).
Proof.
  intros Hc Hd Hv Hall Hn.
  pose proof (new_Date_string_valid _ _ Hv) as Hvalid.
  rewrite isTaskOverdue_dates, Hv, adjust_valid, Hall by assumption.
  unfold new_Date_now, TimeClip.
  destruct (Z.leb_spec (Z.abs clock) maxTime); [|lia].
  destruct (Z.leb_spec (Z.abs (v + 86400000)) maxTime).
  - apply Z.ltb_lt.
  - split; [discriminate|]. unfold maxTime in *. lia.
Qed.

(** The overdue classifier never reads its offset argument. *)
Lemma isTaskOverdue_offset (clock : Z) (task : TickTickTask.t) (o1 o2 : option Z) :
  isTaskOverdue Date_parse clock task o1 = isTaskOverdue Date_parse clock task o2.
Proof. reflexivity. Qed.

End ClassifierFacts.

Lemma due_today_iff_same_utc_date_witness :
  JS.truthy_string (TickTickTask.completedTime Sample.rent) = false
  /\ new_Date_string JS.parse_iso (TickTickTask.dueDate Sample.rent)
     = Some 1704844800000
  /\ (isTaskDueToday JS.parse_iso Sample.noon_jan_11 Sample.rent = true
      <-> exists date,
            Spec.utc_calendar_date (JS.new_Date_number (Some 1704931200000))
            = Some date
            /\ Spec.utc_calendar_date (new_Date_now Sample.noon_jan_11) = Some date).
Proof.
  split; [reflexivity|]. split; [reflexivity|].
  exact (proj1 (proj2 (due_today_iff_same_utc_date JS.parse_iso
    Sample.noon_jan_11 Sample.rent 1704844800000 eq_refl eq_refl eq_refl))).
Defined.


(* ================================================================== *)
(** * Session manager *)
(* ================================================================== *)

Section SessionFacts.

Import Http Client.

Variable remote : Remote.

Lemma ensureAuthenticated_cached (w : World) :
  Spec.authenticated w -> ensureAuthenticated remote w = (inr tt, w).
Proof.
  unfold Spec.authenticated, ensureAuthenticated, bind, get_this. intros ->.
  reflexivity.
Qed.

Lemma ensureAuthenticated_token (w : World) :
  JS.truthy_string (sessionId (this w)) = false ->
  JS.truthy_string (TickTickConfig.accessToken (config (this w))) = true ->
  ensureAuthenticated remote w
  = (inr tt,
     mkWorld (mk (TickTickConfig.accessToken (config (this w)))
                 (Some ("Bearer " ++ JS.template_string
                          (TickTickConfig.accessToken (config (this w))))%string)
                 (config (this w)))
             (sent w) (warnings w)).
Proof.
  unfold ensureAuthenticated, bind, get_this. intros -> ->. reflexivity.
Qed.

Lemma ensureAuthenticated_unconfigured (w : World) :
  JS.truthy_string (sessionId (this w)) = false ->
  JS.truthy_string (TickTickConfig.accessToken (config (this w))) = false ->
  JS.truthy_string (TickTickConfig.username (config (this w)))
  && JS.truthy_string (TickTickConfig.password (config (this w))) = false ->
  ensureAuthenticated remote w
  = (inl (PlainError "Either accessToken or username/password must be provided"), w).
Proof.
  unfold ensureAuthenticated, bind, get_this. intros -> -> ->. reflexivity.
Qed.

(** With only a username and a password configured, exactly the sign-on
    request goes out; a token in its answer becomes the session. *)
Lemma ensureAuthenticated_password (w : World) :
  JS.truthy_string (sessionId (this w)) = false ->
  JS.truthy_string (TickTickConfig.accessToken (config (this w))) = false ->
  JS.truthy_string (TickTickConfig.username (config (this w)))
  && JS.truthy_string (TickTickConfig.password (config (this w))) = true ->
  let request :=
    POST_user_signon (TickTickConfig.username (config (this w)))
                     (TickTickConfig.password (config (this w))) in
  let w' := snd (ensureAuthenticated remote w) in
  sent w' = sent w ++ [(request, Authorization (this w))]
  /\ (forall d,
        remote request (Authorization (this w)) = Resolved (Some d) ->
        JS.truthy_string (token d) = true ->
        fst (ensureAuthenticated remote w) = inr tt
        /\ this w' = mk (token d)
                        (Some ("Bearer " ++ JS.template_string (token d))%string)
                        (config (this w)))
  /\ (fst (ensureAuthenticated remote w) = inr tt -> Spec.authenticated w').
Proof.
  intros Hs Ht Hup request w'. subst w'.
  unfold ensureAuthenticated, bind, get_this. rewrite Hs, Ht, Hup. cbn [negb].
  unfold authenticate, try_catch, bind, get_this, send. cbn [this].
  fold request.
  destruct (remote request (Authorization (this w))) as [[d|]|e] eqn:Er.
  - destruct (JS.truthy_string (token d)) eqn:Etok; cbn.
    + split; [reflexivity|split].
      * intros d' [= <-] _. split; reflexivity.
      * intros _. exact Etok.
    + split; [reflexivity|split].
      * intros d' [= <-] E. congruence.
      * discriminate.
  - cbn. split; [reflexivity|split]; discriminate.
  - destruct e; cbn; (split; [reflexivity|split]; discriminate).
Qed.

(** A successful [ensureAuthenticated] leaves a cached credential, keeps
    the warning log, and sends nothing but possibly the sign-on. *)
Lemma ensureAuthenticated_establishes (w w1 : World) :
  ensureAuthenticated remote w = (inr tt, w1) ->
  Spec.authenticated w1 /\ warnings w1 = warnings w
  /\ config (this w1) = config (this w).
Proof.
  unfold ensureAuthenticated, bind, get_this.
  destruct (JS.truthy_string (sessionId (this w))) eqn:Hs; cbn [negb].
  - intros [= <-]. auto.
  - destruct (JS.truthy_string (TickTickConfig.accessToken (config (this w)))) eqn:Ht.
    + intros [= <-]. auto.
    + destruct (_ && _); [|discriminate].
      unfold authenticate, try_catch, bind, get_this, send. cbn [this].
      destruct (remote _ _) as [[d|]|e].
      * destruct (JS.truthy_string (token d)) eqn:Etok; cbn.
        -- intros [= <-]. auto.
        -- discriminate.
      * cbn. discriminate.
      * destruct e; cbn; discriminate.
Qed.

End SessionFacts.


(* ================================================================== *)
(** * Aggregator *)
(* ================================================================== *)

Section AggregateFacts.

Import Http Client.

Variable remote : Remote.

Lemma extend_nil (w : World) : Spec.extend w [] [] = w.
Proof. destruct w. unfold Spec.extend. cbn. now rewrite !app_nil_r. Qed.

Lemma extend_extend (w : World) r1 m1 r2 m2 :
  Spec.extend (Spec.extend w r1 m1) r2 m2 = Spec.extend w (r1 ++ r2) (m1 ++ m2).
Proof. unfold Spec.extend. cbn. now rewrite !app_assoc. Qed.

Lemma push_project_tasks_run (project : TickTickProject.t)
    (allTasks : list TickTickTask.t) (w : World) :
  let header := Authorization (this w) in
  push_project_tasks remote project allTasks w
  = (inr (allTasks ++ Spec.project_tasks remote header project),
     Spec.extend w [(GET_project_data (TickTickProject.id project), header)]
            (Spec.project_warning remote header project)).
Proof.
  unfold push_project_tasks, try_catch, bind, send, ret, console_warn,
    Spec.project_tasks, Spec.project_warning, Spec.extend.
  cbn [this sent warnings].
  destruct (remote _ _); cbn [this sent warnings]; now rewrite ?app_nil_r.
Qed.

(** The loop over the projects never throws; it appends every resolved
    project's tasks in enumeration order and warns once per rejected
    project. *)
Lemma for_of_push_project_tasks (projects : list TickTickProject.t)
    (allTasks : list TickTickTask.t) (w : World) :
  let header := Authorization (this w) in
  for_of projects (push_project_tasks remote) allTasks w
  = (inr (allTasks ++ flat_map (Spec.project_tasks remote header) projects),
     Spec.extend w
       (map (fun p => (GET_project_data (TickTickProject.id p), header)) projects)
       (flat_map (Spec.project_warning remote header) projects)).
Proof.
  revert allTasks w. induction projects as [|p ps IH]; intros allTasks w header.
  - cbn. unfold ret. now rewrite app_nil_r, extend_nil.
  - cbn [for_of]. unfold bind. rewrite push_project_tasks_run.
    rewrite IH. cbn [Spec.extend this]. fold header.
    rewrite extend_extend. cbn [flat_map map app]. now rewrite <- app_assoc.
Qed.

Lemma push_inbox_tasks_run (allTasks : list TickTickTask.t) (w : World) :
  let header := Authorization (this w) in
  push_inbox_tasks remote allTasks w
  = (inr (allTasks ++ Spec.inbox_tasks remote header),
     Spec.extend w (Spec.inbox_requests remote header)
            (Spec.inbox_warning remote header)).
Proof.
  unfold push_inbox_tasks, try_catch, bind, send, ret, console_warn,
    Spec.inbox_tasks, Spec.inbox_warning, Spec.inbox_requests, Spec.extend.
  cbn [this sent warnings].
  destruct (remote (GET_project_data "inbox") _); cbn [this sent warnings].
  - now rewrite app_nil_r.
  - destruct (remote GET_task_projectId_inbox _); cbn [this sent warnings];
      now rewrite <- ?app_assoc, ?app_nil_r.
Qed.

Lemma getProjects_run (w : World) :
  Spec.authenticated w ->
  getProjects remote w
  = match remote GET_project (Authorization (this w)) with
    | Resolved d =>
        (inr (data_or_empty d), Spec.extend w [(GET_project, Authorization (this w))] [])
    | Rejected error =>
        (inl (PlainError ("Failed to get projects: " ++ message_of error)),
         Spec.extend w [(GET_project, Authorization (this w))] [])
    end.
Proof.
  intros Hw. unfold getProjects, bind.
  rewrite ensureAuthenticated_cached by assumption.
  unfold try_catch, bind, send, ret, rethrow_message, throw, Spec.extend.
  destruct (remote GET_project _); cbn [this sent warnings];
    now rewrite app_nil_r.
Qed.

(** The aggregate branch of [getTasksRaw], from an authenticated world in
    which the project list resolves. *)
Lemma getTasksRaw_aggregate (projectId : option string) (w : World)
    (d : option (list TickTickProject.t)) :
  JS.truthy_string projectId = false ->
  Spec.authenticated w ->
  remote GET_project (Authorization (this w)) = Resolved d ->
  let header := Authorization (this w) in
  let projects := data_or_empty d in
  getTasksRaw remote projectId w
  = (inr (Spec.aggregate_tasks remote header projects),
     Spec.extend w
       ((GET_project, header)
        :: map (fun p => (GET_project_data (TickTickProject.id p), header)) projects
        ++ Spec.inbox_requests remote header)
       (Spec.aggregate_warnings remote header projects)).
Proof.
  intros Hp Hw Hd header projects.
  unfold getTasksRaw, bind. rewrite ensureAuthenticated_cached by assumption.
  unfold try_catch. rewrite Hp. unfold bind.
  rewrite getProjects_run, Hd by assumption.
  rewrite for_of_push_project_tasks. cbn [Spec.extend this].
  rewrite push_inbox_tasks_run. cbn [Spec.extend this app].
  unfold ret, Spec.aggregate_tasks, Spec.aggregate_warnings. f_equal.
  unfold Spec.extend. cbn [this sent warnings].
  now rewrite <- !app_assoc.
Qed.

Lemma getTasks_aggregate (projectId : option string) (w : World)
    (d : option (list TickTickProject.t)) :
  JS.truthy_string projectId = false ->
  Spec.authenticated w ->
  remote GET_project (Authorization (this w)) = Resolved d ->
  let header := Authorization (this w) in
  let projects := data_or_empty d in
  getTasks remote projectId w
  = (inr (map enhanceTaskForDisplay (Spec.aggregate_tasks remote header projects)),
     Spec.extend w
       ((GET_project, header)
        :: map (fun p => (GET_project_data (TickTickProject.id p), header)) projects
        ++ Spec.inbox_requests remote header)
       (Spec.aggregate_warnings remote header projects)).
Proof.
  intros Hp Hw Hd header projects.
  unfold getTasks, bind. rewrite ensureAuthenticated_cached by assumption.
  unfold try_catch. rewrite Hp. unfold bind.
  rewrite getProjects_run, Hd by assumption.
  rewrite for_of_push_project_tasks. cbn [Spec.extend this].
  rewrite push_inbox_tasks_run. cbn [Spec.extend this app].
  unfold ret, Spec.aggregate_tasks, Spec.aggregate_warnings. f_equal.
  unfold Spec.extend. cbn [this sent warnings].
  now rewrite <- !app_assoc.
Qed.

(** A project that is the inbox under its own name contributes the inbox
    tasks a second time. *)
Lemma inbox_listed_twice (header : option string)
    (projects : list TickTickProject.t) (p : TickTickProject.t)
    (d : option ProjectData) :
  In p projects -> TickTickProject.id p = "inbox"%string ->
  remote (GET_project_data "inbox") header = Resolved d ->
  exists before between,
    Spec.aggregate_tasks remote header projects
    = before ++ tasks_or_empty d ++ between ++ tasks_or_empty d.
Proof.
  intros Hin Hid Hd.
  apply in_split in Hin as (l1 & l2 & ->).
  exists (flat_map (Spec.project_tasks remote header) l1),
         (flat_map (Spec.project_tasks remote header) l2).
  unfold Spec.aggregate_tasks. rewrite flat_map_app. cbn [flat_map].
  unfold Spec.project_tasks at 2, Spec.inbox_tasks. rewrite Hid, Hd.
  now rewrite <- !app_assoc.
Qed.

End AggregateFacts.


(* ================================================================== *)
(** * Reasoning about methods *)
(* ================================================================== *)

Section MethodFacts.

Import Http Client.

Local Open Scope async_scope.

Variable remote : Remote.
Variable Date_parse : string -> JS.number.
Variable clock : nat -> Z.

(** ** Keeping the session *)

Lemma keeps_ret {A} (a : A) : Spec.keeps_session (ret a).
Proof. intros w _. split; [reflexivity|]. exists []. now rewrite app_nil_r. Qed.

Lemma keeps_throw {A} (e : Thrown) : Spec.keeps_session (throw (A := A) e).
Proof. intros w _. split; [reflexivity|]. exists []. now rewrite app_nil_r. Qed.

Lemma keeps_console_warn (text : string) (e : Thrown) :
  Spec.keeps_session (console_warn text e).
Proof. intros w _. split; [reflexivity|]. exists []. cbn. now rewrite app_nil_r. Qed.

Lemma keeps_send (r : Request) :
  Spec.is_signon r = false -> Spec.keeps_session (send remote r).
Proof.
  intros Hr w _. unfold send.
  destruct (remote r _); cbn [snd this sent]; (split; [reflexivity|]);
    eexists; (split; [reflexivity|]); repeat constructor; assumption.
Qed.

Lemma authenticated_same_client (w w' : World) :
  this w' = this w -> Spec.authenticated w -> Spec.authenticated w'.
Proof. unfold Spec.authenticated. now intros ->. Qed.

(** Two steps in a row keep the session when each does. *)
Lemma keeps_then (w w1 w2 : World) :
  Spec.authenticated w ->
  (this w1 = this w
   /\ exists r1, sent w1 = sent w ++ r1
                 /\ Forall (Spec.reuses (Authorization (this w))) r1) ->
  (Spec.authenticated w1 ->
   this w2 = this w1
   /\ exists r2, sent w2 = sent w1 ++ r2
                 /\ Forall (Spec.reuses (Authorization (this w1))) r2) ->
  this w2 = this w
  /\ exists r, sent w2 = sent w ++ r
               /\ Forall (Spec.reuses (Authorization (this w))) r.
Proof.
  intros Hw (E1 & r1 & S1 & F1) H2.
  destruct H2 as (E2 & r2 & S2 & F2); [now apply (authenticated_same_client w)|].
  split; [congruence|]. exists (r1 ++ r2). split.
  - now rewrite S2, S1, app_assoc.
  - apply Forall_app. split; [assumption|]. now rewrite <- E1.
Qed.

Lemma keeps_bind {A B} (m : M A) (k : A -> M B) :
  Spec.keeps_session m -> (forall a, Spec.keeps_session (k a)) ->
  Spec.keeps_session (bind m k).
Proof.
  intros Hm Hk w Hw. unfold bind. specialize (Hm w Hw).
  destruct (m w) as [[e|a] w1]; cbn [snd] in *; [assumption|].
  apply (keeps_then w w1); [assumption..|]. intros Hw1. now apply Hk.
Qed.

Lemma keeps_try_catch {A} (body : M A) (handler : Thrown -> M A) :
  Spec.keeps_session body -> (forall e, Spec.keeps_session (handler e)) ->
  Spec.keeps_session (try_catch body handler).
Proof.
  intros Hm Hk w Hw. unfold try_catch. specialize (Hm w Hw).
  destruct (body w) as [[e|a] w1]; cbn [snd] in *; [|assumption].
  apply (keeps_then w w1); [assumption..|]. intros Hw1. now apply Hk.
Qed.

Lemma keeps_for_of {X A} (xs : list X) (body : X -> A -> M A) (acc : A) :
  (forall x a, Spec.keeps_session (body x a)) ->
  Spec.keeps_session (for_of xs body acc).
Proof.
  intros Hb. revert acc. induction xs; intros acc; cbn [for_of].
  - apply keeps_ret.
  - apply keeps_bind; auto.
Qed.

Lemma keeps_rethrow_message {A} (what : string) (e : Thrown) :
  Spec.keeps_session (rethrow_message (A := A) what e).
Proof. apply keeps_throw. Qed.

Lemma keeps_rethrow_detailed {A} (what : string) (e : Thrown) :
  Spec.keeps_session (rethrow_detailed (A := A) what e).
Proof. destruct e; apply keeps_throw. Qed.

Lemma keeps_ensureAuthenticated : Spec.keeps_session (ensureAuthenticated remote).
Proof.
  intros w Hw. rewrite ensureAuthenticated_cached by assumption.
  now apply keeps_ret.
Qed.

Create HintDb keeps.
Hint Resolve keeps_ret keeps_throw keeps_console_warn keeps_rethrow_message
  keeps_rethrow_detailed keeps_ensureAuthenticated : keeps.

Ltac keeps :=
  repeat first
    [ progress auto with keeps
    | apply keeps_bind; [|intros ?]
    | apply keeps_try_catch; [|intros ?]
    | apply keeps_for_of; intros ? ?
    | apply keeps_send; reflexivity
    | match goal with |- Spec.keeps_session (if ?c then _ else _) => destruct c end ].

Lemma keeps_getProjects : Spec.keeps_session (getProjects remote).
Proof. unfold getProjects. keeps. Qed.

Lemma keeps_push_project_tasks p acc :
  Spec.keeps_session (push_project_tasks remote p acc).
Proof. unfold push_project_tasks. keeps. Qed.

Lemma keeps_push_inbox_tasks acc :
  Spec.keeps_session (push_inbox_tasks remote acc).
Proof. unfold push_inbox_tasks. keeps. Qed.

Hint Resolve keeps_getProjects keeps_push_project_tasks keeps_push_inbox_tasks : keeps.

Lemma keeps_getTasks projectId : Spec.keeps_session (getTasks remote projectId).
Proof. unfold getTasks. keeps. Qed.

Lemma keeps_getTasksRaw projectId : Spec.keeps_session (getTasksRaw remote projectId).
Proof. unfold getTasksRaw. keeps. Qed.

Hint Resolve keeps_getTasks keeps_getTasksRaw : keeps.

(** Every public method keeps the session. *)
Lemma keeps_call (op : Operation) :
  Spec.keeps_session (call remote Date_parse clock op).
Proof.
  destruct op; cbn [call];
    unfold getOverdueTasks, getTodaysTasks, createTask, updateTask, deleteTask,
      completeTask, getTaskById; keeps.
Qed.

(** ** What methods return and throw *)

Lemma returns_ret {A} (a : A) (P : A -> Prop) : P a -> Spec.returns_only (ret a) P.
Proof. intros H w a' w' [= <- _]. assumption. Qed.

Lemma returns_throw {A} (e : Thrown) (P : A -> Prop) :
  Spec.returns_only (throw e) P.
Proof. intros w a' w' [=]. Qed.

Lemma returns_bind {A B} (m : M A) (k : A -> M B) (P : B -> Prop) :
  (forall a, Spec.returns_only (k a) P) -> Spec.returns_only (bind m k) P.
Proof.
  intros Hk w b w'. unfold bind.
  destruct (m w) as [[e|a] w1]; [discriminate|]. apply Hk.
Qed.

Lemma returns_bind_with {A B} (m : M A) (k : A -> M B) (Q : A -> Prop)
    (P : B -> Prop) :
  Spec.returns_only m Q -> (forall a, Q a -> Spec.returns_only (k a) P) ->
  Spec.returns_only (bind m k) P.
Proof.
  intros Hm Hk w b w'. unfold bind.
  destruct (m w) as [[e|a] w1] eqn:E; [discriminate|].
  apply Hk. now apply (Hm w a w1).
Qed.

Lemma returns_try_catch {A} (body : M A) (handler : Thrown -> M A) (P : A -> Prop) :
  Spec.returns_only body P -> (forall e, Spec.returns_only (handler e) P) ->
  Spec.returns_only (try_catch body handler) P.
Proof.
  intros Hb Hh w a w'. unfold try_catch.
  destruct (body w) as [[e|a'] w1] eqn:E.
  - apply Hh.
  - intros [= <- <-]. now apply (Hb w a' w1).
Qed.

Lemma returns_rethrow_message {A} what e (P : A -> Prop) :
  Spec.returns_only (rethrow_message what e) P.
Proof. apply returns_throw. Qed.

Lemma returns_rethrow_detailed {A} what e (P : A -> Prop) :
  Spec.returns_only (rethrow_detailed what e) P.
Proof. destruct e; apply returns_throw. Qed.

(** What a resolved request returns is the answer of the remote service
    to it under some header. *)
Lemma returns_send (r : Request) :
  Spec.returns_only (send remote r)
    (fun data => exists header, remote r header = Resolved data).
Proof.
  intros w a w'. unfold send.
  destruct (remote r _) eqn:E; [|discriminate].
  intros [= <- _]. eauto.
Qed.

End MethodFacts.

(** So does any series of calls, each against the service and the clock
    of its moment. *)
Lemma keeps_after (Date_parse : string -> JS.number) (calls : list Invocation)
    (w : Client.World) :
  Spec.authenticated w ->
  Client.this (after Date_parse calls w) = Client.this w
  /\ exists requests,
       Client.sent (after Date_parse calls w) = Client.sent w ++ requests
       /\ Forall (Spec.reuses (Client.Authorization (Client.this w))) requests.
Proof.
  revert w. induction calls as [|i calls IH]; intros w Hw; cbn [after fold_left].
  - split; [reflexivity|]. exists []. now rewrite app_nil_r.
  - apply (keeps_then w
             (snd (call (service i) Date_parse (clock_reading i) (operation i) w))).
    + assumption.
    + now apply keeps_call.
    + intros Hw1. now apply IH.
Qed.


(* ================================================================== *)
(** * The classifiers on concrete tasks *)
(* ================================================================== *)

(** The two worked examples of the design document. *)
Example rent_due_today :
  isTaskDueToday JS.parse_iso Sample.noon_jan_11 Sample.rent = true.
Proof. reflexivity. Qed.

Example rent_overdue_next_day :
  isTaskOverdue JS.parse_iso Sample.midnight_jan_12 Sample.rent (Some 8) = true.
Proof. reflexivity. Qed.

Example rent_not_overdue_on_the_day :
  isTaskOverdue JS.parse_iso Sample.noon_jan_11 Sample.rent (Some 8) = false.
Proof. reflexivity. Qed.

(** C2, at the input where it fails.  An all-day task due on 10000-01-01
    has the adjusted date 10000-01-02, printed [+010000-01-02]; on
    2024-01-12 the overdue classifier compares that text with
    [2024-01-12], character by character, and answers true although the
    adjusted date is not before the current date. *)
Theorem overdue_all_day_beyond_year_9999 :
  let adjustedDue :=
    adjust (new_Date_string JS.parse_iso (TickTickTask.dueDate Sample.time_capsule)) in
  let now := new_Date_now Sample.midnight_jan_12 in
  JS.truthy_string (TickTickTask.completedTime Sample.time_capsule) = false
  /\ JS.truthy_bool (TickTickTask.allDay Sample.time_capsule) = true
  /\ Spec.utc_calendar_date adjustedDue = Some (10000, 1, 2)
  /\ Spec.utc_calendar_date now = Some (2024, 1, 12)
  /\ ~ Spec.date_before (10000, 1, 2) (2024, 1, 12)
  /\ isTaskOverdue JS.parse_iso Sample.midnight_jan_12 Sample.time_capsule (Some 8) = true.
Proof.
  cbv zeta. repeat split; try reflexivity.
  unfold Spec.date_before. cbn. discriminate.
Qed.

(** C3 as stated fails: a completion time that is present but empty does
    not stop the classifiers. *)
Lemma blank_completion_time_is_classified :
  TickTickTask.completedTime Sample.rent_completed_blank <> None
  /\ isTaskDueToday JS.parse_iso Sample.noon_jan_11 Sample.rent_completed_blank = true
  /\ isTaskOverdue JS.parse_iso Sample.midnight_jan_12 Sample.rent_completed_blank (Some 8)
     = true.
Proof. repeat split; try reflexivity. discriminate. Qed.

(** C3, amended.  A task whose completion time is a non-empty string, and
    a task without a due date, is neither due today nor overdue, whatever
    the parser, the clock and the offset. *)
Theorem completed_or_undated_never_classified
    (Date_parse : string -> JS.number) (clock : Z) (offset : option Z)
    (task : TickTickTask.t) :
  (exists s, TickTickTask.completedTime task = Some s /\ s <> EmptyString)
  \/ TickTickTask.dueDate task = None ->
  isTaskDueToday Date_parse clock task = false
  /\ isTaskOverdue Date_parse clock task offset = false.
Proof.
  unfold isTaskDueToday, isTaskOverdue.
  intros [(s & -> & Hs)| ->].
  - cbn [JS.truthy_string]. apply String.eqb_neq in Hs. rewrite Hs. now cbn.
  - cbn [JS.truthy_string negb].
    destruct (JS.truthy_string (TickTickTask.completedTime task)); now split.
Qed.

Lemma completed_or_undated_never_classified_witness :
  isTaskDueToday JS.parse_iso Sample.noon_jan_11 Sample.rent_paid = false
  /\ isTaskOverdue JS.parse_iso Sample.noon_jan_11 Sample.rent_paid (Some 8) = false.
Proof.
  apply (completed_or_undated_never_classified JS.parse_iso Sample.noon_jan_11
           (Some 8) Sample.rent_paid).
  left. exists "2024-01-09T10:00:00Z"%string. split; [reflexivity|discriminate].
Defined.

(** C4.  The offset changes neither the overdue classifier nor the list
    [getOverdueTasks] returns: both are the same function of their other
    arguments for any two offsets. *)
Theorem offset_has_no_effect (remote : Http.Remote)
    (Date_parse : string -> JS.number) (clock : Z) (readings : nat -> Z)
    (o1 o2 : option Z) :
  (forall task,
     isTaskOverdue Date_parse clock task o1 = isTaskOverdue Date_parse clock task o2)
  /\ (forall projectId w,
        getOverdueTasks remote Date_parse readings projectId o1 w
        = getOverdueTasks remote Date_parse readings projectId o2 w).
Proof. split; reflexivity. Qed.

(** C10.  A timed, uncompleted task can be due today and overdue at
    once: [call_bank] is due 2024-01-10T08:00Z, its adjusted due instant
    2024-01-11T08:00Z lies before noon of the same UTC day. *)
Theorem due_today_and_overdue_together :
  exists (task : TickTickTask.t) (clock : Z),
    JS.truthy_string (TickTickTask.completedTime task) = false
    /\ JS.truthy_bool (TickTickTask.allDay task) = false
    /\ isTaskDueToday JS.parse_iso clock task = true
    /\ isTaskOverdue JS.parse_iso clock task None = true.
Proof.
  exists Sample.call_bank, Sample.noon_jan_11. repeat split.
Qed.

(* ================================================================== *)
(** * Display normaliser *)
(* ================================================================== *)

Lemma set_dueDate_same (task : TickTickTask.t) :
  TickTickTask.set_dueDate (TickTickTask.dueDate task) task = task.
Proof. now destruct task. Qed.

(** ** The digits of a priority *)

Module DecimalFacts.

Lemma digit_value_digit (n : Z) : Spec.digit_value (JS.digit n) = Some (n mod 10).
Proof.
  unfold Spec.digit_value, JS.digit.
  pose proof (Z.mod_pos_bound n 10 ltac:(lia)) as Hm.
  rewrite nat_ascii_embedding by lia.
  replace (Z.of_nat (48 + Z.to_nat (n mod 10)) - 48) with (n mod 10) by lia.
  destruct (Z.leb_spec 0 (n mod 10)), (Z.leb_spec (n mod 10) 9); try lia.
  reflexivity.
Qed.

(** Reading the digits that [unpadded] puts in front of [acc] brings the
    number itself into the accumulator. *)
Lemma digits_value_unpadded (fuel : nat) :
  forall (n : Z) (acc : string),
    0 <= n < 10 ^ Z.of_nat fuel ->
    Spec.digits_value (JS.unpadded fuel n acc) 0 = Spec.digits_value acc n.
Proof.
  induction fuel as [|fuel IH]; intros n acc Hn.
  - cbn [JS.unpadded]. replace n with 0 by (cbn in Hn; lia). reflexivity.
  - cbn [JS.unpadded]. destruct (Z.ltb_spec n 10) as [Hs|Hl].
    + cbn [Spec.digits_value]. rewrite digit_value_digit.
      rewrite Z.mod_small by lia. reflexivity.
    + rewrite IH.
      * cbn [Spec.digits_value]. rewrite digit_value_digit. f_equal.
        Z.to_euclidean_division_equations. lia.
      * rewrite Nat2Z.inj_succ, Z.pow_succ_r in Hn by lia.
        Z.to_euclidean_division_equations. lia.
Qed.

(** The first digit of a positive number is not [0]. *)
Lemma unpadded_head (fuel : nat) :
  forall (n : Z) (acc : string),
    0 < n < 10 ^ Z.of_nat fuel ->
    exists c rest,
      JS.unpadded fuel n acc = String c rest /\ Ascii.eqb c "0" = false.
Proof.
  induction fuel as [|fuel IH]; intros n acc Hn.
  - cbn in Hn. lia.
  - cbn [JS.unpadded]. destruct (Z.ltb_spec n 10) as [Hs|Hl].
    + exists (JS.digit n), acc. split; [reflexivity|].
      apply Ascii.eqb_neq. intros E.
      pose proof (digit_value_digit n) as Hd. rewrite E in Hd.
      rewrite Z.mod_small in Hd by lia. cbv in Hd. injection Hd. lia.
    + apply IH. rewrite Nat2Z.inj_succ, Z.pow_succ_r in Hn by lia.
      Z.to_euclidean_division_equations. lia.
Qed.

Lemma natural_of_unpadded (n : Z) :
  0 <= n < 10 ^ 21 -> Spec.natural_of (JS.unpadded 21 n EmptyString) = Some n.
Proof.
  intros Hn. destruct (Z.eq_dec n 0) as [->|N]; [reflexivity|].
  destruct (unpadded_head 21 n EmptyString ltac:(change (Z.of_nat 21) with 21; lia))
    as (c & rest & E & Hc).
  unfold Spec.natural_of. rewrite E, Hc, <- E.
  now rewrite digits_value_unpadded by (change (Z.of_nat 21) with 21; lia).
Qed.

(** Below [10 ^ 21] in magnitude the printed text is the numeral of the
    number. *)
Lemma decimal_of_Number_toString (p : Z) :
  Z.abs p < 10 ^ 21 -> Spec.decimal_of (JS.Number_toString p) = Some p.
Proof.
  intros Hp. unfold JS.Number_toString.
  destruct (Z.ltb_spec p 0) as [Hneg|Hpos].
  - unfold Spec.decimal_of. cbn [Ascii.eqb Bool.eqb].
    rewrite natural_of_unpadded by lia.
    destruct (Z.eqb_spec (- p) 0); [lia|]. f_equal. lia.
  - destruct (Z.eq_dec p 0) as [->|N]; [reflexivity|].
    destruct (unpadded_head 21 p EmptyString
                ltac:(change (Z.of_nat 21) with 21; lia)) as (c & rest & E & Hc).
    pose proof (natural_of_unpadded p ltac:(lia)) as Hnat.
    unfold Spec.decimal_of. rewrite E in *.
    destruct (Ascii.eqb_spec c "-") as [->|_]; [|exact Hnat].
    unfold Spec.natural_of in Hnat. rewrite Hc in Hnat.
    cbn [Spec.digits_value] in Hnat. discriminate Hnat.
Qed.

End DecimalFacts.

(** C9.  [enhanceTaskForDisplay] is defined on every task; its result has
    the task's own properties, [dueDate] among them, and a [priorityText]
    that is the design document's label of the priority: [None] for 0 and
    for an absent priority, [Low], [Medium], [High] for 1, 3, 5, and
    [Custom (p)] for any other integer [p], where [p] stands in its
    decimal numeral.  Priorities are integers below [2 ^ 53] in
    magnitude, where the printing of the model is that of the runtime. *)
Theorem enhanceTaskForDisplay_labels (task : TickTickTask.t) :
  (forall p, TickTickTask.priority task = Some p -> Spec.safe_integer p) ->
  enhanceTaskForDisplay task
  = Displayed.mk task (Some (Spec.priority_label (TickTickTask.priority task)))
  /\ TickTickTask.dueDate (Displayed.fields (enhanceTaskForDisplay task))
     = TickTickTask.dueDate task
  /\ map Spec.priority_label [Some 0; Some 1; Some 3; Some 5; Some 7; None]
     = ["None"; "Low"; "Medium"; "High"; "Custom (7)"; "None"]%string
  /\ (forall p,
        TickTickTask.priority task = Some p ->
        p <> 0 -> p <> 1 -> p <> 3 -> p <> 5 ->
        exists text,
          Displayed.priorityText (enhanceTaskForDisplay task)
          = Some ("Custom (" ++ text ++ ")")%string
          /\ Spec.decimal_of text = Some p).
Proof.
  intros Hsafe.
  assert (E : enhanceTaskForDisplay task
              = Displayed.mk task
                  (Some (Spec.priority_label (TickTickTask.priority task)))).
  { unfold enhanceTaskForDisplay. rewrite set_dueDate_same. f_equal. f_equal.
    destruct (TickTickTask.priority task) as [p|]; [|reflexivity].
    destruct p as [|q|q]; try reflexivity.
    do 3 (try (destruct q as [q|q|]; try reflexivity)). }
  split; [exact E|]. split; [now rewrite E|]. split; [reflexivity|].
  intros p Hp N0 N1 N3 N5. exists (JS.Number_toString p). split.
  - rewrite E, Hp. cbn [Displayed.priorityText Spec.priority_label].
    destruct (Z.eqb_spec p 0); [contradiction|].
    destruct (Z.eqb_spec p 1); [contradiction|].
    destruct (Z.eqb_spec p 3); [contradiction|].
    destruct (Z.eqb_spec p 5); [contradiction|]. reflexivity.
  - apply DecimalFacts.decimal_of_Number_toString.
    specialize (Hsafe p Hp). unfold Spec.safe_integer in Hsafe.
    assert (2 ^ 53 < 10 ^ 21) by reflexivity. lia.
Qed.

Lemma enhanceTaskForDisplay_labels_witness :
  exists text,
    Displayed.priorityText
      (enhanceTaskForDisplay (TickTickTask.set_priority (Some (-12)) Sample.note))
    = Some ("Custom (" ++ text ++ ")")%string
    /\ Spec.decimal_of text = Some (-12).
Proof.
  assert (H : forall p,
             TickTickTask.priority
               (TickTickTask.set_priority (Some (-12)) Sample.note) = Some p ->
             Spec.safe_integer p).
  { intros p E. injection E as <-. reflexivity. }
  apply (proj2 (proj2 (proj2 (enhanceTaskForDisplay_labels _ H))) (-12) eq_refl);
    discriminate.
Defined.

(* ================================================================== *)
(** * Gateway *)
(* ================================================================== *)

Section GatewayFacts.

Import Http Client.

Variable remote : Remote.

Lemma getTasksRaw_after_auth (projectId : option string) (w w1 : World) :
  ensureAuthenticated remote w = (inr tt, w1) ->
  getTasksRaw remote projectId w = getTasksRaw remote projectId w1.
Proof.
  intros E. pose proof (ensureAuthenticated_establishes remote w w1 E) as [Hw1 _].
  unfold getTasksRaw, bind.
  now rewrite E, (ensureAuthenticated_cached remote w1 Hw1).
Qed.

Lemma getTasks_after_auth (projectId : option string) (w w1 : World) :
  ensureAuthenticated remote w = (inr tt, w1) ->
  getTasks remote projectId w = getTasks remote projectId w1.
Proof.
  intros E. pose proof (ensureAuthenticated_establishes remote w w1 E) as [Hw1 _].
  unfold getTasks, bind.
  now rewrite E, (ensureAuthenticated_cached remote w1 Hw1).
Qed.

(** C5.  Once the session stands and the project list has resolved, the
    aggregate fetch (no project id) does not throw.  It returns, in the
    order of the project list, the tasks of each project whose request
    resolved, then the inbox tasks; a rejected project contributes no task
    and one warning; nothing is removed, so a project named [inbox] makes
    the inbox tasks appear twice. *)
Theorem aggregate_fetch_tolerates_project_failures
    (projectId : option string) (w w1 : World)
    (listed : option (list TickTickProject.t)) :
  JS.truthy_string projectId = false ->
  ensureAuthenticated remote w = (inr tt, w1) ->
  remote GET_project (Authorization (this w1)) = Resolved listed ->
  let header := Authorization (this w1) in
  let projects := data_or_empty listed in
  let all := flat_map (Spec.project_tasks remote header) projects
             ++ Spec.inbox_tasks remote header in
  fst (getTasksRaw remote projectId w) = inr all
  /\ fst (getTasks remote projectId w) = inr (map enhanceTaskForDisplay all)
  /\ warnings (snd (getTasksRaw remote projectId w))
     = warnings w ++ flat_map (Spec.project_warning remote header) projects
       ++ Spec.inbox_warning remote header
  /\ warnings (snd (getTasks remote projectId w))
     = warnings w ++ flat_map (Spec.project_warning remote header) projects
       ++ Spec.inbox_warning remote header
  /\ (forall p error,
        remote (GET_project_data (TickTickProject.id p)) header = Rejected error ->
        Spec.project_tasks remote header p = []
        /\ exists text, Spec.project_warning remote header p = [mkWarning text error])
  /\ (forall p d,
        In p projects -> TickTickProject.id p = "inbox"%string ->
        remote (GET_project_data "inbox") header = Resolved d ->
        exists before between,
          all = before ++ tasks_or_empty d ++ between ++ tasks_or_empty d).
Proof.
  intros Hp Hauth Hlist header projects all.
  destruct (ensureAuthenticated_establishes remote w w1 Hauth) as (Hw1 & Hwarn & _).
  rewrite (getTasksRaw_after_auth projectId w w1 Hauth),
          (getTasks_after_auth projectId w w1 Hauth).
  rewrite (getTasksRaw_aggregate remote projectId w1 listed Hp Hw1 Hlist),
          (getTasks_aggregate remote projectId w1 listed Hp Hw1 Hlist).
  cbn [fst snd Spec.extend warnings]. rewrite Hwarn.
  repeat split.
  - unfold Spec.project_tasks. now rewrite H.
  - unfold Spec.project_warning. rewrite H. eauto.
  - intros p d. apply inbox_listed_twice.
Qed.

(** C6.  [ensureAuthenticated] by cases on the cached credential and the
    configuration, and the reuse of an established credential by every
    later call. *)
Theorem session_is_resolved_once (w : World) :
  let cfg := config (this w) in
  let signon :=
    POST_user_signon (TickTickConfig.username cfg) (TickTickConfig.password cfg) in
  (JS.truthy_string (sessionId (this w)) = true ->
   ensureAuthenticated remote w = (inr tt, w))
  /\ (JS.truthy_string (sessionId (this w)) = false ->
      JS.truthy_string (TickTickConfig.accessToken cfg) = true ->
      ensureAuthenticated remote w
      = (inr tt,
         mkWorld (mk (TickTickConfig.accessToken cfg)
                     (Some ("Bearer "
                            ++ JS.template_string (TickTickConfig.accessToken cfg))%string)
                     cfg)
                 (sent w) (warnings w)))
  /\ (JS.truthy_string (sessionId (this w)) = false ->
      JS.truthy_string (TickTickConfig.accessToken cfg) = false ->
      JS.truthy_string (TickTickConfig.username cfg) = true ->
      JS.truthy_string (TickTickConfig.password cfg) = true ->
      sent (snd (ensureAuthenticated remote w))
      = sent w ++ [(signon, Authorization (this w))]
      /\ forall d,
           remote signon (Authorization (this w)) = Resolved (Some d) ->
           JS.truthy_string (token d) = true ->
           fst (ensureAuthenticated remote w) = inr tt
           /\ this (snd (ensureAuthenticated remote w))
              = mk (token d)
                   (Some ("Bearer " ++ JS.template_string (token d))%string) cfg)
  /\ (JS.truthy_string (sessionId (this w)) = false ->
      JS.truthy_string (TickTickConfig.accessToken cfg) = false ->
      JS.truthy_string (TickTickConfig.username cfg)
      && JS.truthy_string (TickTickConfig.password cfg) = false ->
      ensureAuthenticated remote w
      = (inl (PlainError "Either accessToken or username/password must be provided"),
         w))
  /\ (forall w1,
        ensureAuthenticated remote w = (inr tt, w1) ->
        JS.truthy_string (sessionId (this w1)) = true)
  /\ (JS.truthy_string (sessionId (this w)) = true ->
      forall Date_parse (calls : list Invocation),
        let w' := after Date_parse calls w in
        this w' = this w
        /\ exists requests,
             sent w' = sent w ++ requests
             /\ Forall (fun rh => Spec.is_signon (fst rh) = false
                                  /\ snd rh = Authorization (this w)) requests).
Proof.
  cbv zeta. repeat apply conj.
  - apply ensureAuthenticated_cached.
  - apply ensureAuthenticated_token.
  - intros Hs Ht Hu Hp.
    destruct (ensureAuthenticated_password remote w Hs Ht) as (S & A & _).
    { now rewrite Hu, Hp. }
    split; [exact S|exact A].
  - apply ensureAuthenticated_unconfigured.
  - intros w1 E. now apply (ensureAuthenticated_establishes remote w w1).
  - intros Hw Date_parse calls. apply keeps_after. exact Hw.
Qed.

(** ** Errors *)

(** The single-project fetch reports the status, the status text and the
    body (or, without a body, the message) of a failed response. *)
Lemma getTasks_single_project_error (projectId : option string) (w : World)
    (message : string) (r : ErrorResponse) :
  Spec.authenticated w ->
  JS.truthy_string projectId = true ->
  remote (GET_project_data (JS.template_string projectId)) (Authorization (this w))
  = Rejected (ResponseError message (Some r)) ->
  fst (getTasks remote projectId w)
  = inl (PlainError ("Failed to get tasks: " ++ JS.Number_toString (status r) ++ " "
                     ++ statusText r ++ " - "
                     ++ match data r with Some json => json | None => message end)).
Proof.
  intros Hw Hp Hr. unfold getTasks, bind.
  rewrite ensureAuthenticated_cached by assumption.
  unfold try_catch. rewrite Hp. unfold bind, send. rewrite Hr. reflexivity.
Qed.

(** The other methods report the message of the failure and nothing of
    its response. *)
Lemma getProjects_error (w : World) (error : Thrown) :
  Spec.authenticated w ->
  remote GET_project (Authorization (this w)) = Rejected error ->
  fst (getProjects remote w)
  = inl (PlainError ("Failed to get projects: " ++ message_of error)).
Proof. intros Hw Hr. now rewrite getProjects_run, Hr. Qed.

Lemma createTask_error (task : TaskFields.t) (w : World) (error : Thrown) :
  Spec.authenticated w ->
  remote (POST_task task) (Authorization (this w)) = Rejected error ->
  fst (createTask remote task w)
  = inl (PlainError ("Failed to create task: " ++ message_of error)).
Proof.
  intros Hw Hr. unfold createTask, bind.
  rewrite ensureAuthenticated_cached by assumption.
  unfold try_catch, bind, send. now rewrite Hr.
Qed.

Lemma updateTask_error taskId (updates : TaskFields.t) (w : World) (error : Thrown) :
  Spec.authenticated w ->
  remote (POST_task_id taskId updates) (Authorization (this w)) = Rejected error ->
  fst (updateTask remote taskId updates w)
  = inl (PlainError ("Failed to update task: " ++ message_of error)).
Proof.
  intros Hw Hr. unfold updateTask, bind.
  rewrite ensureAuthenticated_cached by assumption.
  unfold try_catch, bind, send. now rewrite Hr.
Qed.

Lemma deleteTask_error taskId projectId (w : World) (error : Thrown) :
  Spec.authenticated w ->
  remote (DELETE_project_task projectId taskId) (Authorization (this w))
  = Rejected error ->
  fst (deleteTask remote taskId projectId w)
  = inl (PlainError ("Failed to delete task: " ++ message_of error)).
Proof.
  intros Hw Hr. unfold deleteTask, bind.
  rewrite ensureAuthenticated_cached by assumption.
  unfold try_catch, bind, send. now rewrite Hr.
Qed.

Lemma completeTask_error taskId projectId (w : World) (error : Thrown) :
  Spec.authenticated w ->
  remote (POST_project_task_complete projectId taskId) (Authorization (this w))
  = Rejected error ->
  fst (completeTask remote taskId projectId w)
  = inl (PlainError ("Failed to complete task: " ++ message_of error)).
Proof.
  intros Hw Hr. unfold completeTask, bind.
  rewrite ensureAuthenticated_cached by assumption.
  unfold try_catch, bind, send. now rewrite Hr.
Qed.

Lemma getTaskById_error taskId projectId (w : World) (error : Thrown) :
  Spec.authenticated w ->
  remote (GET_project_task projectId taskId) (Authorization (this w))
  = Rejected error ->
  fst (getTaskById remote taskId projectId w)
  = inl (PlainError ("Failed to get task: " ++ message_of error)).
Proof.
  intros Hw Hr. unfold getTaskById, bind.
  rewrite ensureAuthenticated_cached by assumption.
  unfold try_catch, bind, send. now rewrite Hr.
Qed.

(** ** What comes back *)

Variable Date_parse : string -> JS.number.
Variable clock : nat -> Z.

Ltac returns :=
  repeat first
    [ apply returns_rethrow_message
    | apply returns_rethrow_detailed
    | apply returns_throw
    | apply returns_try_catch; [|intros ?]
    | match goal with |- Spec.returns_only (if ?c then _ else _) _ => destruct c end
    | apply returns_ret
    | apply returns_bind; intros ? ].

Lemma returns_getTasks projectId :
  Spec.returns_only (getTasks remote projectId) Spec.enhanced_list.
Proof. unfold getTasks, Spec.enhanced_list. returns; eexists; reflexivity. Qed.

Lemma returns_getOverdueTasks projectId offset :
  Spec.returns_only (getOverdueTasks remote Date_parse clock projectId offset)
    Spec.enhanced_list.
Proof. unfold getOverdueTasks, Spec.enhanced_list. returns; eexists; reflexivity. Qed.

Lemma returns_getTodaysTasks projectId :
  Spec.returns_only (getTodaysTasks remote Date_parse clock projectId) Spec.enhanced_list.
Proof. unfold getTodaysTasks, Spec.enhanced_list. returns; eexists; reflexivity. Qed.

(** A method that sends one request and returns its answer. *)
Lemma returns_single_request (req : Request) (what : string) :
  Spec.returns_only
    (bind (ensureAuthenticated remote)
       (fun _ => try_catch (bind (send remote req) (fun response => ret response))
                           (fun error => rethrow_message what error)))
    (fun t => exists header, remote req header = Resolved t).
Proof.
  apply returns_bind. intros _. apply returns_try_catch.
  - apply returns_bind_with with
      (Q := fun t => exists header, remote req header = Resolved t).
    + apply returns_send.
    + intros a Ha. now apply returns_ret.
  - intros e. apply returns_throw.
Qed.

Lemma enhanced_have_priorityText (records : list TickTickTask.t) :
  Forall (fun t => Displayed.priorityText t <> None)
         (map enhanceTaskForDisplay records).
Proof.
  apply Forall_forall. intros t Ht.
  apply in_map_iff in Ht as (x & <- & _). discriminate.
Qed.

(** C8, amended.  What [getTasks], [getOverdueTasks] and [getTodaysTasks]
    return is [enhanceTaskForDisplay] applied to remote records, so each
    object in it has a [priorityText]; [createTask], [updateTask],
    [completeTask] and [getTaskById] return the record the remote service
    answered with, as it is, which has none. *)
Theorem display_normaliser_runs_on_listings
    (op : Operation) (w w' : World) (r : Returned) :
  call remote Date_parse clock op w = (inr r, w') ->
  match op with
  | GetTasks _ | GetOverdueTasks _ _ | GetTodaysTasks _ =>
      exists records,
        r = Tasks (map enhanceTaskForDisplay records)
        /\ Forall (fun t => Displayed.priorityText t <> None) (returned_tasks r)
  | CreateTask task =>
      exists t header,
        r = Task t /\ remote (POST_task task) header = Resolved t
        /\ returned_tasks r = [Displayed.mk t None]
  | UpdateTask taskId updates =>
      exists t header,
        r = Task t /\ remote (POST_task_id taskId updates) header = Resolved t
        /\ returned_tasks r = [Displayed.mk t None]
  | CompleteTask taskId projectId =>
      exists t header,
        r = Task t
        /\ remote (POST_project_task_complete projectId taskId) header = Resolved t
        /\ returned_tasks r = [Displayed.mk t None]
  | GetTaskById taskId projectId =>
      exists t header,
        r = Task t /\ remote (GET_project_task projectId taskId) header = Resolved t
        /\ returned_tasks r = [Displayed.mk t None]
  | GetProjects | DeleteTask _ _ => returned_tasks r = []
  end.
Proof.
  destruct op; cbn [call]; unfold bind at 1; intros E.
  - destruct (getTasks remote projectId w) as [[e|l] w1] eqn:El; [discriminate|].
    injection E as <- _. destruct (returns_getTasks _ _ _ _ El) as [records ->].
    exists records. split; [reflexivity|apply enhanced_have_priorityText].
  - destruct (getOverdueTasks _ _ _ _ _ w) as [[e|l] w1] eqn:El; [discriminate|].
    injection E as <- _. destruct (returns_getOverdueTasks _ _ _ _ _ El) as [records ->].
    exists records. split; [reflexivity|apply enhanced_have_priorityText].
  - destruct (getTodaysTasks _ _ _ _ w) as [[e|l] w1] eqn:El; [discriminate|].
    injection E as <- _. destruct (returns_getTodaysTasks _ _ _ _ El) as [records ->].
    exists records. split; [reflexivity|apply enhanced_have_priorityText].
  - destruct (getProjects remote w) as [[e|l] w1]; [discriminate|].
    now injection E as <- _.
  - destruct (createTask remote task w) as [[e|t] w1] eqn:Et; [discriminate|].
    injection E as <- _. destruct (returns_single_request (POST_task task) "Failed to create task" _ _ _ Et)
      as [h Ht].
    exists t, h. auto.
  - destruct (updateTask remote taskId updates w) as [[e|t] w1] eqn:Et; [discriminate|].
    injection E as <- _. destruct (returns_single_request (POST_task_id taskId updates) "Failed to update task" _ _ _ Et)
      as [h Ht].
    exists t, h. auto.
  - destruct (deleteTask remote taskId projectId w) as [[e|t] w1]; [discriminate|].
    now injection E as <- _.
  - destruct (completeTask remote taskId projectId w) as [[e|t] w1] eqn:Et;
      [discriminate|].
    injection E as <- _. destruct (returns_single_request (POST_project_task_complete projectId taskId) "Failed to complete task" _ _ _ Et)
      as [h Ht].
    exists t, h. auto.
  - destruct (getTaskById remote taskId projectId w) as [[e|t] w1] eqn:Et;
      [discriminate|].
    injection E as <- _. destruct (returns_single_request (GET_project_task projectId taskId) "Failed to get task" _ _ _ Et)
      as [h Ht].
    exists t, h. auto.
Qed.

End GatewayFacts.

(* ================================================================== *)
(** * The gateway against concrete services *)
(* ================================================================== *)

(** With project [a] unreadable, the aggregate fetch returns the tasks of
    [b] and of the inbox, and one warning. *)
Lemma aggregate_fetch_tolerates_project_failures_witness :
  fst (getTasksRaw Sample.remote None Sample.with_token)
  = inr [Sample.rent; Sample.call_bank; Sample.note]
  /\ Client.warnings (snd (getTasksRaw Sample.remote None Sample.with_token))
     = [Client.mkWarning "Could not access tasks for project a (Work):"
          Sample.server_error].
Proof.
  pose proof (aggregate_fetch_tolerates_project_failures Sample.remote None
                Sample.with_token Sample.with_token
                (Some [Sample.work; Sample.home]) eq_refl eq_refl eq_refl) as H.
  exact (conj (proj1 H) (proj1 (proj2 (proj2 H)))).
Defined.

Example inbox_listed_as_project_is_fetched_twice :
  fst (getTasksRaw Sample.remote_listing_inbox None Sample.with_token)
  = inr [Sample.note; Sample.rent; Sample.call_bank; Sample.note].
Proof. reflexivity. Qed.

(** A client with a username and a password signs on once and adopts the
    token it is granted. *)
Lemma session_is_resolved_once_witness :
  fst (ensureAuthenticated Sample.remote Sample.with_password) = inr tt
  /\ Client.this (snd (ensureAuthenticated Sample.remote Sample.with_password))
     = Client.mk (Some "granted"%string) (Some "Bearer granted"%string)
         Sample.password_config.
Proof.
  pose proof (session_is_resolved_once Sample.remote Sample.with_password) as H.
  exact (proj2 (proj1 (proj2 (proj2 H)) eq_refl eq_refl eq_refl eq_refl)
           (Http.mkSignonData (Some "granted"%string)) eq_refl eq_refl).
Defined.

Example pending_token_is_adopted_without_request :
  ensureAuthenticated Sample.remote_down Sample.token_pending
  = (inr tt, Sample.with_token).
Proof. reflexivity. Qed.

Example token_client_sends_no_signon :
  Client.sent
    (after JS.parse_iso
       [mkInvocation Sample.remote Sample.at_noon_jan_11 GetProjects;
        mkInvocation Sample.remote_down Sample.at_noon_jan_11 (GetTaskById "t2" "b");
        mkInvocation Sample.remote Sample.at_midnight_jan_12 (GetTasks (Some "b"%string))]
       Sample.with_token)
  = [(Http.GET_project, Some "Bearer secret"%string);
     (Http.GET_project_task "b" "t2", Some "Bearer secret"%string);
     (Http.GET_project_data "b", Some "Bearer secret"%string)].
Proof. reflexivity. Qed.

Example unconfigured_client_fails :
  fst (getProjects Sample.remote Sample.unconfigured)
  = inl (Http.PlainError "Either accessToken or username/password must be provided").
Proof. reflexivity. Qed.

(** C7, at an input where it fails.  When the project list is rejected
    with status 500, status text [Internal Server Error] and body [[42]],
    [getProjects] throws an error that holds the message of the failure
    only: neither the status text nor the body occurs in it. *)
Theorem getProjects_error_drops_status_text_and_body :
  Sample.remote_down Http.GET_project
    (Client.Authorization (Client.this Sample.with_token))
  = Http.Rejected
      (Http.ResponseError "Request failed with status code 500"
         (Some (Http.mkErrorResponse 500 "Internal Server Error" (Some "[42]"%string))))
  /\ fst (getProjects Sample.remote_down Sample.with_token)
     = inl (Http.PlainError
              "Failed to get projects: Request failed with status code 500")
  /\ Spec.contains "Internal Server Error"
       "Failed to get projects: Request failed with status code 500" = false
  /\ Spec.contains "[42]"
       "Failed to get projects: Request failed with status code 500" = false.
Proof. repeat split. Qed.

(** The single-project fetch, against the same failure, reports all of
    it. *)
Example getTasks_error_keeps_status_text_and_body :
  fst (getTasks Sample.remote_down (Some "a"%string) Sample.with_token)
  = inl (Http.PlainError "Failed to get tasks: 500 Internal Server Error - [42]").
Proof. reflexivity. Qed.

(** C8 as stated fails: [getTaskById] hands back the remote record, which
    has no [priorityText], and not what [enhanceTaskForDisplay] makes of
    it. *)
Lemma getTaskById_returns_record_without_priorityText :
  fst (call Sample.remote JS.parse_iso Sample.at_noon_jan_11
         (GetTaskById "t2" "b") Sample.with_token)
  = inr (Task Sample.call_bank)
  /\ returned_tasks (Task Sample.call_bank)
     = [Displayed.mk Sample.call_bank None]
  /\ enhanceTaskForDisplay Sample.call_bank
     = Displayed.mk Sample.call_bank (Some "High"%string)
  /\ Displayed.mk Sample.call_bank None <> enhanceTaskForDisplay Sample.call_bank.
Proof. repeat split. discriminate. Qed.

Lemma display_normaliser_runs_on_listings_witness :
  exists records,
    Tasks (map enhanceTaskForDisplay [Sample.rent; Sample.call_bank; Sample.note])
    = Tasks (map enhanceTaskForDisplay records)
    /\ Forall (fun t => Displayed.priorityText t <> None)
         (returned_tasks
            (Tasks (map enhanceTaskForDisplay
                      [Sample.rent; Sample.call_bank; Sample.note]))).
Proof.
  exact (display_normaliser_runs_on_listings Sample.remote JS.parse_iso
           Sample.at_noon_jan_11 (GetTasks None) Sample.with_token
           (snd (call Sample.remote JS.parse_iso Sample.at_noon_jan_11
                   (GetTasks None) Sample.with_token))
           (Tasks (map enhanceTaskForDisplay
                     [Sample.rent; Sample.call_bank; Sample.note]))
           eq_refl).
Defined.


(* ================================================================== *)
(** * More on the date classifiers *)
(* ================================================================== *)

Section ClassifierEdges.

Variable Date_parse : string -> JS.number.

Import JS.

(** X1.  A due date that gives no adjusted date is a safe no: when the due
    date does not parse, or adding a day leaves the range of [Date], the
    [RangeError] of [toISOString] is caught (and the comparison with the
    Invalid Date is false), so the task is neither due today nor overdue,
    whatever the clock, [allDay] and the offset. *)
Theorem unreadable_due_date_is_never_classified
    (clock : Z) (task : TickTickTask.t) (offset : option Z) :
  adjust (new_Date_string Date_parse (TickTickTask.dueDate task)) = None ->
  isTaskDueToday Date_parse clock task = false
  /\ isTaskOverdue Date_parse clock task offset = false.
Proof.
  intros Ha. unfold isTaskDueToday, isTaskOverdue. rewrite Ha.
  destruct (truthy_string (TickTickTask.completedTime task)); [now split|].
  destruct (truthy_string (TickTickTask.dueDate task)); [|now split].
  cbn [negb].
  destruct (truthy_bool (TickTickTask.allDay task)),
           (new_Date_now clock); now split.
Qed.

Lemma string_lt_irrefl (a b : string) :
  string_eq a b = true -> string_lt a b = false.
Proof.
  unfold string_eq, string_lt, String.ltb. intros E.
  apply String.eqb_eq in E. subst. now rewrite DigitFacts.compare_refl.
Qed.

(** X2.  For an all-day task the two classifiers exclude each other: one
    compares the two date texts for equality, the other for order, so no
    clock makes an all-day task due today and overdue at once. *)
Theorem all_day_task_is_not_both_due_and_overdue
    (clock : Z) (task : TickTickTask.t) (offset : option Z) :
  truthy_bool (TickTickTask.allDay task) = true ->
  isTaskDueToday Date_parse clock task = true ->
  isTaskOverdue Date_parse clock task offset = false.
Proof.
  intros Hall. unfold isTaskDueToday, isTaskOverdue. rewrite Hall.
  destruct (truthy_string (TickTickTask.completedTime task)); [discriminate|].
  destruct (truthy_string (TickTickTask.dueDate task)); [|discriminate].
  cbn [negb].
  destruct (new_Date_now clock) as [n|],
           (adjust (new_Date_string Date_parse (TickTickTask.dueDate task))) as [a|];
    cbn [toISOString bind_exc try_catch]; try discriminate.
  rewrite !split_date. apply string_lt_irrefl.
Qed.

Lemma Day_next (v : Z) : Day (v + 86400000) = Day v + 1.
Proof. unfold Day, msPerDay. Z.to_euclidean_division_equations. lia. Qed.

(** X3.  In day numbers of the stored due date: a task is reported due
    today exactly during the UTC day that follows the day of its due
    date, that is for the clock readings from the start of that day up to
    the start of the next. *)
Theorem due_today_is_the_day_after_the_due_date
    (clock : Z) (task : TickTickTask.t) (v : Z) :
  truthy_string (TickTickTask.completedTime task) = false ->
  truthy_string (TickTickTask.dueDate task) = true ->
  new_Date_string Date_parse (TickTickTask.dueDate task) = Some v ->
  Z.abs clock <= maxTime -> Z.abs (v + 86400000) <= maxTime ->
  (isTaskDueToday Date_parse clock task = true <-> Day clock = Day v + 1)
  /\ (isTaskDueToday Date_parse clock task = true
      <-> (Day v + 1) * msPerDay <= clock < (Day v + 2) * msPerDay).
Proof.
  intros Hc Hd Hv Hn Ha.
  pose proof (due_today_iff_same_day Date_parse clock task v Hc Hd Hv Hn Ha) as H.
  rewrite Day_next in H. split.
  - rewrite H. split; intros E; now symmetry.
  - rewrite H. unfold Day, msPerDay.
    split; intros E; Z.to_euclidean_division_equations; lia.
Qed.

(** X4.  A timed task is overdue from the first millisecond after its due
    instant plus 24 hours, and stays overdue at every later clock
    reading. *)
Theorem timed_task_overdue_after_24_hours
    (clock : Z) (task : TickTickTask.t) (v : Z) (offset : option Z) :
  truthy_string (TickTickTask.completedTime task) = false ->
  truthy_string (TickTickTask.dueDate task) = true ->
  new_Date_string Date_parse (TickTickTask.dueDate task) = Some v ->
  truthy_bool (TickTickTask.allDay task) = false ->
  Z.abs clock <= maxTime ->
  (isTaskOverdue Date_parse clock task offset = true <-> v + 86400000 < clock)
  /\ (forall later,
        clock <= later -> Z.abs later <= maxTime ->
        isTaskOverdue Date_parse clock task offset = true ->
        isTaskOverdue Date_parse later task offset = true).
Proof.
  intros Hc Hd Hv Hall Hn. split.
  - now apply overdue_timed.
  - intros later Hle Hl H.
    apply (overdue_timed Date_parse clock task v offset) in H; try assumption.
    apply (overdue_timed Date_parse later task v offset); try assumption. lia.
Qed.

(** X5.  Within the years 0 to 9999 an all-day task is overdue from the
    second UTC day after the day of its due date on; with X3, on the day
    between it is due today, and before that it is neither. *)
Theorem all_day_task_overdue_two_days_after
    (clock : Z) (task : TickTickTask.t) (v : Z) (offset : option Z) :
  truthy_string (TickTickTask.completedTime task) = false ->
  truthy_string (TickTickTask.dueDate task) = true ->
  new_Date_string Date_parse (TickTickTask.dueDate task) = Some v ->
  truthy_bool (TickTickTask.allDay task) = true ->
  Z.abs clock <= maxTime -> Z.abs (v + 86400000) <= maxTime ->
  Spec.four_digit_year (civil_from_days (Day (v + 86400000))) ->
  Spec.four_digit_year (civil_from_days (Day clock)) ->
  (isTaskOverdue Date_parse clock task offset = true <-> Day v + 2 <= Day clock)
  /\ (isTaskDueToday Date_parse clock task = false
      /\ isTaskOverdue Date_parse clock task offset = false
      <-> Day clock <= Day v).
Proof.
  intros Hc Hd Hv Hall Hn Ha Ya Yn.
  pose proof (overdue_all_day_earlier_day Date_parse clock task v offset
                Hc Hd Hv Hall Hn Ha Ya Yn) as Ho.
  pose proof (due_today_iff_same_day Date_parse clock task v Hc Hd Hv Hn Ha) as Ht.
  rewrite Day_next in Ho, Ht.
  split; [rewrite Ho; lia|].
  destruct (isTaskDueToday Date_parse clock task),
           (isTaskOverdue Date_parse clock task offset).
  - split; [intros [E _]; discriminate|]. intros. assert (Day v + 1 = Day clock) by now apply Ht. lia.
  - split; [intros [E _]; discriminate|]. intros. assert (Day v + 1 = Day clock) by now apply Ht. lia.
  - split; [intros [_ E]; discriminate|]. intros. assert (Day v + 1 < Day clock) by now apply Ho. lia.
  - split; [|now split]. intros _.
    destruct (Z.le_gt_cases (Day clock) (Day v)) as [L|G]; [assumption|].
    destruct (Z.eq_dec (Day clock) (Day v + 1)) as [E|N].
    + assert (false = true) by (apply Ht; lia). discriminate.
    + assert (false = true) by (apply Ho; lia). discriminate.
Qed.

End ClassifierEdges.

Lemma unreadable_due_date_is_never_classified_witness :
  let task := TickTickTask.set_dueDate (Some "next tuesday"%string) Sample.rent in
  isTaskDueToday JS.parse_iso Sample.noon_jan_11 task = false
  /\ isTaskOverdue JS.parse_iso Sample.noon_jan_11 task None = false.
Proof.
  apply (unreadable_due_date_is_never_classified JS.parse_iso). reflexivity.
Defined.

Lemma all_day_task_is_not_both_due_and_overdue_witness :
  isTaskOverdue JS.parse_iso Sample.noon_jan_11 Sample.rent None = false.
Proof.
  apply (all_day_task_is_not_both_due_and_overdue JS.parse_iso); reflexivity.
Defined.

Lemma due_today_is_the_day_after_the_due_date_witness :
  isTaskDueToday JS.parse_iso Sample.noon_jan_11 Sample.call_bank = true
  <-> JS.Day Sample.noon_jan_11 = JS.Day 1704873600000 + 1.
Proof.
  apply (due_today_is_the_day_after_the_due_date JS.parse_iso Sample.noon_jan_11
           Sample.call_bank 1704873600000); (reflexivity || (vm_compute; discriminate)).
Defined.

Lemma timed_task_overdue_after_24_hours_witness :
  isTaskOverdue JS.parse_iso Sample.noon_jan_11 Sample.call_bank None = true
  <-> 1704873600000 + 86400000 < Sample.noon_jan_11.
Proof.
  apply (timed_task_overdue_after_24_hours JS.parse_iso Sample.noon_jan_11
           Sample.call_bank 1704873600000 None);
    (reflexivity || (vm_compute; discriminate)).
Defined.

Lemma all_day_task_overdue_two_days_after_witness :
  isTaskOverdue JS.parse_iso Sample.midnight_jan_12 Sample.rent None = true
  <-> JS.Day 1704844800000 + 2 <= JS.Day Sample.midnight_jan_12.
Proof.
  apply (all_day_task_overdue_two_days_after JS.parse_iso Sample.midnight_jan_12
           Sample.rent 1704844800000 None);
    try reflexivity; try (vm_compute; discriminate);
    (unfold Spec.four_digit_year; vm_compute; split; discriminate).
Defined.


(* ================================================================== *)
(** * More on the display normaliser *)
(* ================================================================== *)

Lemma priorityText_is_label (task : TickTickTask.t) :
  Displayed.priorityText (enhanceTaskForDisplay task)
  = Some (Spec.priority_label (TickTickTask.priority task)).
Proof.
  unfold enhanceTaskForDisplay. cbn [Displayed.priorityText]. f_equal.
  destruct (TickTickTask.priority task) as [p|]; [|reflexivity].
  destruct p as [|q|q]; try reflexivity.
  do 3 (try (destruct q as [q|q|]; try reflexivity)).
Qed.

(** X6.  The label tells the priority class apart: [priorityText] is
    [None] only for an absent or zero priority, and [Low], [Medium],
    [High] only for 1, 3 and 5; the label of any other priority starts
    with [Custom (], so it is none of the four. *)
Theorem priorityText_tells_the_priority (task : TickTickTask.t) :
  let text := Displayed.priorityText (enhanceTaskForDisplay task) in
  let priority := TickTickTask.priority task in
  (text = Some "None"%string <-> priority = None \/ priority = Some 0)
  /\ (text = Some "Low"%string <-> priority = Some 1)
  /\ (text = Some "Medium"%string <-> priority = Some 3)
  /\ (text = Some "High"%string <-> priority = Some 5)
  /\ (Spec.prefix "Custom (" (match text with Some s => s | None => EmptyString end)
      = true
      <-> exists p, priority = Some p /\ p <> 0 /\ p <> 1 /\ p <> 3 /\ p <> 5).
Proof.
  cbv zeta. rewrite priorityText_is_label.
  destruct (TickTickTask.priority task) as [p|]; cbn [Spec.priority_label].
  2:{ repeat split; intros H; try discriminate H; auto.
      destruct H as (p & H & _). discriminate H. }
  destruct (Z.eqb_spec p 0) as [->|N0].
  { repeat split; intros H; try discriminate H; auto; try (injection H; lia).
    destruct H as (p & [= <-] & H & _). lia. }
  destruct (Z.eqb_spec p 1) as [->|N1].
  { repeat split; intros H; try discriminate H; auto;
      try (destruct H as [H|H]; discriminate H).
    destruct H as (p & [= <-] & _ & H & _). lia. }
  destruct (Z.eqb_spec p 3) as [->|N3].
  { repeat split; intros H; try discriminate H; auto;
      try (destruct H as [H|H]; discriminate H).
    destruct H as (p & [= <-] & _ & _ & H & _). lia. }
  destruct (Z.eqb_spec p 5) as [->|N5].
  { repeat split; intros H; try discriminate H; auto;
      try (destruct H as [H|H]; discriminate H).
    destruct H as (p & [= <-] & _ & _ & _ & H). lia. }
  cbn [append Spec.prefix Ascii.eqb Bool.eqb andb].
  split; [|split; [|split; [|split]]].
  - split; [discriminate|]. intros [H|H]; [discriminate H|injection H; lia].
  - split; [discriminate|]. intros H. injection H. lia.
  - split; [discriminate|]. intros H. injection H. lia.
  - split; [discriminate|]. intros H. injection H. lia.
  - split; [|reflexivity]. intros _. exists p. auto.
Qed.


(* ================================================================== *)
(** * More on the session manager *)
(* ================================================================== *)

Section SessionEdges.

Import Http Client.

Local Open Scope async_scope.

Variable remote : Remote.

Lemma bind_assoc {A B C} (m : M A) (k : A -> M B) (h : B -> M C) (w : World) :
  bind (bind m k) h w = bind m (fun a => bind (k a) h) w.
Proof. unfold bind. destruct (m w) as [[e|a] w1]; reflexivity. Qed.

Lemma begins_bind {A B} (m : M A) (k : A -> M B) :
  Terms.begins_with_authentication remote m ->
  Terms.begins_with_authentication remote (bind m k).
Proof.
  intros [rest H]. exists (bind rest k). intros w.
  unfold bind at 1. rewrite H. unfold bind.
  destruct (ensureAuthenticated remote w) as [[e|a] w1]; reflexivity.
Qed.

Lemma begins_direct {A} (rest : M A) :
  Terms.begins_with_authentication remote
    (bind (ensureAuthenticated remote) (fun _ => rest)).
Proof. exists rest. reflexivity. Qed.

(** Every public method begins by making sure of the session. *)
Lemma call_begins_with_authentication Date_parse clock (op : Operation) :
  Terms.begins_with_authentication remote (call remote Date_parse clock op).
Proof.
  destruct op; cbn [call]; apply begins_bind;
    first [ apply begins_direct
          | unfold getOverdueTasks, getTodaysTasks; cbv zeta;
            apply begins_bind; apply begins_direct ].
Qed.

Lemma begins_failure {A} (m : M A) (w w1 : World) (e : Thrown) :
  Terms.begins_with_authentication remote m ->
  ensureAuthenticated remote w = (inl e, w1) -> m w = (inl e, w1).
Proof. intros [rest H] E. rewrite H. unfold bind. now rewrite E. Qed.

Lemma begins_success {A} (m : M A) (w w1 : World) :
  Terms.begins_with_authentication remote m ->
  ensureAuthenticated remote w = (inr tt, w1) -> m w = m w1.
Proof.
  intros [rest H] E.
  pose proof (ensureAuthenticated_establishes remote w w1 E) as [Hw1 _].
  rewrite !H. unfold bind.
  now rewrite E, (ensureAuthenticated_cached remote w1 Hw1).
Qed.

(** What [ensureAuthenticated] can do to a world: nothing to the warnings,
    at most the sign-on to the requests, and nothing to the client unless
    it succeeds. *)
Lemma ensureAuthenticated_effects (w : World) :
  let w' := snd (ensureAuthenticated remote w) in
  warnings w' = warnings w
  /\ (sent w' = sent w
      \/ (JS.truthy_string (sessionId (this w)) = false
          /\ sent w' = sent w ++ [(Terms.signon_of w, Authorization (this w))]))
  /\ (forall e, fst (ensureAuthenticated remote w) = inl e ->
        this w' = this w /\ exists text, e = PlainError text).
Proof.
  unfold ensureAuthenticated, bind, get_this.
  destruct (JS.truthy_string (sessionId (this w))) eqn:Hs; cbn [negb].
  { cbn. repeat split; auto; discriminate. }
  destruct (JS.truthy_string (TickTickConfig.accessToken (config (this w)))).
  { cbn. repeat split; auto; discriminate. }
  destruct (_ && _).
  2:{ cbn. split; [reflexivity|]. split; [now left|].
      intros e [= <-]. split; [reflexivity|eauto]. }
  unfold authenticate, try_catch, bind, get_this, send, Terms.signon_of.
  cbn [this].
  destruct (remote _ _) as [[d|]|e].
  - destruct (JS.truthy_string (token d)); cbn.
    + split; [reflexivity|]. split; [right; auto|]. discriminate.
    + split; [reflexivity|]. split; [right; auto|].
      intros e [= <-]. split; [reflexivity|eauto].
  - cbn. split; [reflexivity|]. split; [right; auto|].
    intros e [= <-]. split; [reflexivity|eauto].
  - destruct e as [m r| m |]; cbn; (split; [reflexivity|]);
      (split; [right; auto|]); intros e [= <-]; (split; [reflexivity|eauto]).
Qed.

(** Whether [ensureAuthenticated] succeeds depends on the client object
    alone, not on the logs. *)
Lemma ensureAuthenticated_same_client (w w' : World) :
  this w' = this w ->
  fst (ensureAuthenticated remote w') = fst (ensureAuthenticated remote w)
  /\ this (snd (ensureAuthenticated remote w'))
     = this (snd (ensureAuthenticated remote w)).
Proof.
  destruct w as [c s l], w' as [c' s' l']. cbn [this]. intros ->.
  unfold ensureAuthenticated, bind, get_this. cbn [this].
  destruct (JS.truthy_string (sessionId c)); cbn [negb]; [cbn; auto|].
  destruct (JS.truthy_string (TickTickConfig.accessToken (config c)));
    [cbn; auto|].
  destruct (JS.truthy_string (TickTickConfig.username (config c))
            && JS.truthy_string (TickTickConfig.password (config c)));
    [|cbn; auto].
  unfold authenticate, try_catch, bind, get_this, send. cbn [this].
  destruct (remote (POST_user_signon (TickTickConfig.username (config c))
                                     (TickTickConfig.password (config c)))
                   (Authorization c)) as [[d|]|e].
  - destruct (JS.truthy_string (token d)); cbn; auto.
  - cbn; auto.
  - destruct e; cbn; auto.
Qed.

(** X7.  A failed [ensureAuthenticated] changes nothing in the client: no
    session is cached, so the same attempt, sign-on included, is made
    again by the next call and fails the same way while the service
    answers the same.  What it throws is a plain [Error], and at most the
    sign-on request went out. *)
Theorem failed_authentication_is_tried_again (w w' : World) (e : Thrown) :
  ensureAuthenticated remote w = (inl e, w') ->
  this w' = this w
  /\ warnings w' = warnings w
  /\ (sent w' = sent w
      \/ sent w' = sent w ++ [(Terms.signon_of w, Authorization (this w))])
  /\ (exists text, e = PlainError text)
  /\ fst (ensureAuthenticated remote w') = inl e.
Proof.
  intros E. pose proof (ensureAuthenticated_effects w) as (Hwarn & Hsent & Hfail).
  cbv zeta in *. rewrite E in *. cbn [fst snd] in *.
  destruct (Hfail e eq_refl) as [Hthis Htext].
  repeat split; try assumption.
  - destruct Hsent as [H|[_ H]]; auto.
  - destruct (ensureAuthenticated_same_client w w' Hthis) as [H _].
    now rewrite H, E.
Qed.

(** X8.  What [authenticate] reports.  A sign-on answered without a token
    throws inside the [try], is caught by the method's own [catch], and
    leaves with the prefix twice.  A sign-on answered with an error
    status leaves with the status (an integer below [2 ^ 53]), the
    status text and the body (or, without a body, the message) of the
    response.  Any other [Error],
    such as that of a request that got no answer, leaves with its
    message, and a thrown value that is no [Error] as [Unknown error].
    In each case exactly the sign-on request went out and no session is
    set. *)
Theorem authenticate_reports (w : World) :
  let request := Terms.signon_of w in
  let header := Authorization (this w) in
  let failed text :=
    authenticate remote w
    = (inl (PlainError text), Spec.extend w [(request, header)] []) in
  (forall d,
     remote request header = Resolved d ->
     JS.truthy_string (match d with Some s => token s | None => None end) = false ->
     failed "Authentication failed: Authentication failed: No token received"%string)
  /\ (forall message r,
        remote request header = Rejected (ResponseError message (Some r)) ->
        Spec.safe_integer (status r) ->
        failed ("Authentication failed: " ++ JS.Number_toString (status r) ++ " "
                ++ statusText r ++ " - "
                ++ match data r with Some json => json | None => message end)%string)
  /\ (forall message,
        remote request header = Rejected (PlainError message) ->
        failed ("Authentication failed: " ++ message)%string)
  /\ (remote request header = Rejected NotAnError ->
      failed "Authentication failed: Unknown error"%string).
Proof.
  cbv zeta. unfold authenticate, try_catch, bind, get_this, send, Terms.signon_of,
    Spec.extend.
  cbn [this sent warnings]. rewrite app_nil_r.
  repeat apply conj.
  - intros d -> Hd. destruct d as [s|]; cbn in Hd |- *; [rewrite Hd|]; reflexivity.
  - intros message r -> _. reflexivity.
  - intros message ->. reflexivity.
  - intros ->. reflexivity.
Qed.

End SessionEdges.

Lemma failed_authentication_is_tried_again_witness :
  Client.this (snd (ensureAuthenticated Sample.remote_down Sample.with_password))
  = Client.this Sample.with_password
  /\ fst (ensureAuthenticated Sample.remote_down
            (snd (ensureAuthenticated Sample.remote_down Sample.with_password)))
     = inl (Http.PlainError
              "Authentication failed: 500 Internal Server Error - [42]").
Proof.
  pose proof (failed_authentication_is_tried_again Sample.remote_down
                Sample.with_password
                (snd (ensureAuthenticated Sample.remote_down Sample.with_password))
                (Http.PlainError
                   "Authentication failed: 500 Internal Server Error - [42]")
                eq_refl) as H.
  exact (conj (proj1 H) (proj2 (proj2 (proj2 (proj2 H))))).
Defined.

Lemma authenticate_reports_witness :
  authenticate Sample.remote_down Sample.with_password
  = (inl (Http.PlainError "Authentication failed: 500 Internal Server Error - [42]"),
     Spec.extend Sample.with_password
       [(Terms.signon_of Sample.with_password, None)] []).
Proof.
  exact (proj1 (proj2 (authenticate_reports Sample.remote_down Sample.with_password))
           "Request failed with status code 500"%string
           (Http.mkErrorResponse 500 "Internal Server Error" (Some "[42]"%string))
           eq_refl eq_refl).
Defined.


(* ================================================================== *)
(** * More on the gateway *)
(* ================================================================== *)

Section GatewayEdges.

Import Http Client.

Local Open Scope async_scope.

Variable remote : Remote.
Variable Date_parse : string -> JS.number.
Variable clock : nat -> Z.

(** X9.  A failure to authenticate leaves every public method as it is:
    the method throws the very error of [ensureAuthenticated], without its
    own [Failed to ...] prefix, and does nothing after it. *)
Theorem authentication_failure_passes_through
    (op : Operation) (w w1 : World) (e : Thrown) :
  ensureAuthenticated remote w = (inl e, w1) ->
  call remote Date_parse clock op w = (inl e, w1).
Proof.
  apply begins_failure, call_begins_with_authentication.
Qed.

(** X11.  A call signs on at most once, and then before any other
    request; no later request of the call is a sign-on.  When the call
    returns, the client holds a session. *)
Theorem each_call_signs_on_at_most_once (op : Operation) (w : World) :
  let outcome := call remote Date_parse clock op w in
  exists first rest,
    sent (snd outcome) = sent w ++ first ++ rest
    /\ (first = []
        \/ (JS.truthy_string (sessionId (this w)) = false
            /\ first = [(Terms.signon_of w, Authorization (this w))]))
    /\ Forall (fun rh => Spec.is_signon (fst rh) = false) rest
    /\ (forall r, fst outcome = inr r -> Spec.authenticated (snd outcome)).
Proof.
  cbv zeta.
  pose proof (ensureAuthenticated_effects remote w) as (_ & Hsent & _).
  cbv zeta in Hsent.
  pose proof (call_begins_with_authentication remote Date_parse clock op) as Hb.
  destruct (ensureAuthenticated remote w) as [[e|[]] w1] eqn:E; cbn [snd] in Hsent.
  - rewrite (begins_failure remote _ w w1 e Hb E). cbn [fst snd].
    destruct Hsent as [H|[Hs H]].
    + exists [], []. rewrite H, !app_nil_r. repeat split; auto. discriminate.
    + exists [(Terms.signon_of w, Authorization (this w))], [].
      rewrite H, app_nil_r. repeat split; auto. discriminate.
  - rewrite (begins_success remote _ w w1 Hb E).
    destruct (ensureAuthenticated_establishes remote w w1 E) as (Hw1 & _ & _).
    destruct (keeps_call remote Date_parse clock op w1 Hw1) as (Hthis & reqs & Hreqs & Hall).
    assert (Hrest : Forall (fun rh => Spec.is_signon (fst rh) = false) reqs).
    { apply Forall_forall. intros rh Hin. rewrite Forall_forall in Hall.
      now destruct (Hall rh Hin). }
    assert (Hauth : Spec.authenticated (snd (call remote Date_parse clock op w1)))
      by now apply (authenticated_same_client w1).
    destruct Hsent as [H|[Hs H]].
    + exists [], reqs. rewrite Hreqs, H. repeat split; auto.
    + exists [(Terms.signon_of w, Authorization (this w))], reqs.
      rewrite Hreqs, H, <- app_assoc. repeat split; auto.
Qed.

(** [getTasks] is [getTasksRaw] followed by the display normaliser. *)
Lemma getTasks_via_raw (projectId : option string) (w : World) :
  getTasks remote projectId w
  = match getTasksRaw remote projectId w with
    | (inr l, w') => (inr (map enhanceTaskForDisplay l), w')
    | (inl e, w') => (inl e, w')
    end.
Proof.
  unfold getTasks, getTasksRaw, bind, try_catch.
  destruct (ensureAuthenticated remote w) as [[e|[]] w1]; [reflexivity|].
  destruct (JS.truthy_string projectId).
  - unfold bind, send, ret.
    destruct (remote _ _) as [d|e]; [reflexivity|].
    destruct e; reflexivity.
  - unfold bind.
    destruct (getProjects remote w1) as [[e|ps] w2]; [destruct e; reflexivity|].
    destruct (for_of ps (push_project_tasks remote) [] w2) as [[e|l] w3];
      [destruct e; reflexivity|].
    destruct (push_inbox_tasks remote l w3) as [[e|l'] w4];
      [destruct e; reflexivity|reflexivity].
Qed.

(** X12.  The two listings are one: whatever [getTasksRaw] returns,
    [getTasks] returns it passed through [enhanceTaskForDisplay], and
    whatever it throws, [getTasks] throws; both leave the same world. *)
Theorem getTasks_is_getTasksRaw_enhanced (projectId : option string) (w w' : World) :
  (forall l,
     getTasksRaw remote projectId w = (inr l, w') ->
     getTasks remote projectId w = (inr (map enhanceTaskForDisplay l), w'))
  /\ (forall e,
        getTasksRaw remote projectId w = (inl e, w') ->
        getTasks remote projectId w = (inl e, w')).
Proof.
  split; intros x E; now rewrite getTasks_via_raw, E.
Qed.

Lemma filter_at_enhanced (keep : Z -> TickTickTask.t -> bool) (readings : nat -> Z)
    (l : list TickTickTask.t) :
  map enhanceTaskForDisplay (filter_at keep readings l)
  = filter_at (fun now d => keep now (Displayed.fields d)) readings
              (map enhanceTaskForDisplay l).
Proof.
  revert readings. induction l as [|t l IH]; intros readings; [reflexivity|].
  cbn [filter_at map]. cbv zeta.
  assert (E : Displayed.fields (enhanceTaskForDisplay t) = t)
    by (unfold enhanceTaskForDisplay; cbn; apply set_dueDate_same).
  rewrite E. destruct (keep (readings O) t); cbn [map]; now rewrite IH.
Qed.

(** On a clock that stands still, [filter_at] is [filter]. *)
Lemma filter_at_steady {A} (keep : Z -> A -> bool) (reading : Z) (l : list A) :
  filter_at keep (steady reading) l = filter (keep reading) l.
Proof.
  induction l as [|a l IH]; [reflexivity|]. cbn [filter_at filter]. cbv zeta.
  change (fun n => steady reading (S n)) with (steady reading).
  unfold steady at 1. now rewrite IH.
Qed.

(** What [filter_at] keeps, it keeps in the order of the list, each
    element for the reading of its own index. *)
Lemma filter_at_kept {A} (keep : Z -> A -> bool) (readings : nat -> Z) (l : list A) :
  Forall (fun a => exists n, nth_error l n = Some a /\ keep (readings n) a = true)
         (filter_at keep readings l).
Proof.
  revert readings. induction l as [|a l IH]; intros readings; [constructor|].
  cbn [filter_at]. cbv zeta.
  assert (Hrest : Forall (fun b => exists n, nth_error (a :: l) n = Some b
                                             /\ keep (readings n) b = true)
                         (filter_at keep (fun n => readings (S n)) l)).
  { eapply Forall_impl; [|apply IH]. intros b (n & Hn & Hk). now exists (S n). }
  destruct (keep (readings O) a) eqn:Ha; [|exact Hrest].
  constructor; [|exact Hrest]. now exists O.
Qed.

Lemma classified_is_open_and_dated (now : Z) (task : TickTickTask.t)
    (offset : option Z) :
  isTaskDueToday Date_parse now task = true
  \/ isTaskOverdue Date_parse now task offset = true ->
  JS.truthy_string (TickTickTask.completedTime task) = false
  /\ JS.truthy_string (TickTickTask.dueDate task) = true.
Proof.
  unfold isTaskDueToday, isTaskOverdue.
  destruct (JS.truthy_string (TickTickTask.completedTime task));
    [intros [H|H]; discriminate|].
  destruct (JS.truthy_string (TickTickTask.dueDate task));
    [auto|intros [H|H]; discriminate].
Qed.

(** X13.  The two filtered listings select from the full one: what
    [getOverdueTasks] and [getTodaysTasks] return is the list [getTasks]
    returns from the same world, in the same order, cut down to the
    objects whose task the classifier accepts at the clock reading of its
    own test (the classifiers read the clock themselves, once per task).
    Each object returned is an uncompleted task with a due date.  When
    the clock stands still during the call, the selection is the plain
    filter by the classifier at that reading. *)
Theorem filtered_listings_select_from_getTasks
    (projectId : option string) (offset : option Z) (w w' : World)
    (l : list Displayed.t) :
  (getOverdueTasks remote Date_parse clock projectId offset w = (inr l, w') ->
   exists all,
     getTasks remote projectId w = (inr all, w')
     /\ l = filter_at
              (fun now d => isTaskOverdue Date_parse now (Displayed.fields d) offset)
              clock all
     /\ (forall reading,
           clock = steady reading ->
           l = filter (fun d => isTaskOverdue Date_parse reading
                                  (Displayed.fields d) offset) all))
  /\ (getTodaysTasks remote Date_parse clock projectId w = (inr l, w') ->
      exists all,
        getTasks remote projectId w = (inr all, w')
        /\ l = filter_at
                 (fun now d => isTaskDueToday Date_parse now (Displayed.fields d))
                 clock all
        /\ (forall reading,
              clock = steady reading ->
              l = filter (fun d => isTaskDueToday Date_parse reading
                                     (Displayed.fields d)) all))
  /\ (getOverdueTasks remote Date_parse clock projectId offset w = (inr l, w')
      \/ getTodaysTasks remote Date_parse clock projectId w = (inr l, w') ->
      Forall (fun d =>
                JS.truthy_string (TickTickTask.completedTime (Displayed.fields d))
                = false
                /\ JS.truthy_string (TickTickTask.dueDate (Displayed.fields d)) = true)
             l).
Proof.
  assert (Ho : getOverdueTasks remote Date_parse clock projectId offset w = (inr l, w') ->
               exists all,
                 getTasks remote projectId w = (inr all, w')
                 /\ l = filter_at
                          (fun now d => isTaskOverdue Date_parse now
                                          (Displayed.fields d) offset)
                          clock all).
  { unfold getOverdueTasks. cbv zeta. unfold bind at 1.
    rewrite getTasks_via_raw.
    destruct (getTasksRaw remote projectId w) as [[e|raw] w1]; [discriminate|].
    intros [= <- <-]. eexists. split; [reflexivity|].
    apply (filter_at_enhanced
             (fun now task => isTaskOverdue Date_parse now task offset)). }
  assert (Ht : getTodaysTasks remote Date_parse clock projectId w = (inr l, w') ->
               exists all,
                 getTasks remote projectId w = (inr all, w')
                 /\ l = filter_at
                          (fun now d => isTaskDueToday Date_parse now
                                          (Displayed.fields d))
                          clock all).
  { unfold getTodaysTasks. unfold bind at 1.
    rewrite getTasks_via_raw.
    destruct (getTasksRaw remote projectId w) as [[e|raw] w1]; [discriminate|].
    intros [= <- <-]. eexists. split; [reflexivity|].
    apply (filter_at_enhanced (fun now task => isTaskDueToday Date_parse now task)). }
  split; [|split].
  - intros H. destruct (Ho H) as (all & Hall & Hl). exists all.
    split; [exact Hall|]. split; [exact Hl|].
    intros reading Hc. rewrite Hl, Hc. apply filter_at_steady.
  - intros H. destruct (Ht H) as (all & Hall & Hl). exists all.
    split; [exact Hall|]. split; [exact Hl|].
    intros reading Hc. rewrite Hl, Hc. apply filter_at_steady.
  - intros [H|H]; [destruct (Ho H) as (all & _ & ->)|destruct (Ht H) as (all & _ & ->)];
      (eapply Forall_impl; [|apply filter_at_kept]); intros d (n & _ & Hd);
      apply (classified_is_open_and_dated (clock n) _ offset); auto.
Qed.

(** X14.  A failure of the project list is not tolerated: the aggregate
    fetch stops after that one request, asks for no project and not for
    the inbox, logs no warning, and throws the report of [getProjects]
    under its own prefix, with nothing of the response in it. *)
Theorem project_list_failure_aborts_the_fetch
    (projectId : option string) (w : World) (error : Thrown) :
  Spec.authenticated w ->
  JS.truthy_string projectId = false ->
  remote GET_project (Authorization (this w)) = Rejected error ->
  let report :=
    PlainError ("Failed to get tasks: Failed to get projects: " ++ message_of error) in
  let w' := Spec.extend w [(GET_project, Authorization (this w))] [] in
  getTasksRaw remote projectId w = (inl report, w')
  /\ getTasks remote projectId w = (inl report, w').
Proof.
  intros Hw Hp Hr report w'.
  assert (E : getTasksRaw remote projectId w = (inl report, w')).
  { unfold getTasksRaw, bind. rewrite ensureAuthenticated_cached by assumption.
    unfold try_catch. rewrite Hp. unfold bind.
    rewrite getProjects_run, Hr by assumption. reflexivity. }
  split; [exact E|]. now rewrite getTasks_via_raw, E.
Qed.

(** X15.  The requests of an aggregate fetch, in order: the project list,
    one request per listed project (as often as it is listed), the first
    inbox route, and the second inbox route exactly when the first was
    rejected.  All carry the client's header. *)
Theorem aggregate_fetch_request_trace
    (projectId : option string) (w : World)
    (listed : option (list TickTickProject.t)) :
  Spec.authenticated w ->
  JS.truthy_string projectId = false ->
  remote GET_project (Authorization (this w)) = Resolved listed ->
  let header := Authorization (this w) in
  let inbox :=
    match remote (GET_project_data "inbox") header with
    | Resolved _ => [(GET_project_data "inbox", header)]
    | Rejected _ =>
        [(GET_project_data "inbox", header); (GET_task_projectId_inbox, header)]
    end in
  let trace :=
    (GET_project, header)
    :: map (fun p => (GET_project_data (TickTickProject.id p), header))
           (data_or_empty listed)
    ++ inbox in
  sent (snd (getTasksRaw remote projectId w)) = sent w ++ trace
  /\ sent (snd (getTasks remote projectId w)) = sent w ++ trace
  /\ this (snd (getTasks remote projectId w)) = this w.
Proof.
  intros Hw Hp Hl header inbox trace.
  rewrite (getTasks_aggregate remote projectId w listed Hp Hw Hl),
          (getTasksRaw_aggregate remote projectId w listed Hp Hw Hl).
  cbn [snd Spec.extend sent this]. auto.
Qed.

(** X16.  With a project id, the fetch is one request for that project's
    data: neither the project list nor the inbox is asked.  A body
    without tasks gives the empty list; a rejection is reported under
    [Failed to get tasks]. *)
Theorem single_project_fetch_is_one_request (projectId : option string) (w : World) :
  Spec.authenticated w ->
  JS.truthy_string projectId = true ->
  let request := GET_project_data (JS.template_string projectId) in
  let header := Authorization (this w) in
  let w' := Spec.extend w [(request, header)] [] in
  (forall d,
     remote request header = Resolved d ->
     getTasksRaw remote projectId w = (inr (tasks_or_empty d), w')
     /\ getTasks remote projectId w
        = (inr (map enhanceTaskForDisplay (tasks_or_empty d)), w'))
  /\ (remote request header = Resolved None
      \/ remote request header = Resolved (Some (mkProjectData None)) ->
      getTasks remote projectId w = (inr [], w'))
  /\ (forall error,
        remote request header = Rejected error ->
        snd (getTasks remote projectId w) = w'
        /\ exists text,
             fst (getTasks remote projectId w)
             = inl (PlainError ("Failed to get tasks: " ++ text))).
Proof.
  intros Hw Hp request header w'.
  assert (Hraw : forall d, remote request header = Resolved d ->
                 getTasksRaw remote projectId w = (inr (tasks_or_empty d), w')).
  { intros d Hd. unfold getTasksRaw, bind.
    rewrite ensureAuthenticated_cached by assumption.
    unfold try_catch. rewrite Hp. unfold bind, send. fold request header.
    rewrite Hd. unfold ret, w', Spec.extend. cbn [this sent warnings].
    now rewrite app_nil_r. }
  split; [|split].
  - intros d Hd. split; [now apply Hraw|]. now rewrite getTasks_via_raw, (Hraw d Hd).
  - intros [Hd|Hd]; now rewrite getTasks_via_raw, (Hraw _ Hd).
  - intros error He. unfold getTasks, bind.
    rewrite ensureAuthenticated_cached by assumption.
    unfold try_catch. rewrite Hp. unfold bind, send. fold request header.
    rewrite He. unfold w', Spec.extend.
    destruct error; cbn [rethrow_detailed throw fst snd this sent warnings];
      rewrite app_nil_r; (split; [reflexivity|eexists; reflexivity]).
Qed.

Lemma getTasksRaw_failure (projectId : option string) (w w' : World) (e : Thrown) :
  Spec.authenticated w ->
  getTasksRaw remote projectId w = (inl e, w') ->
  exists text, e = PlainError ("Failed to get tasks: " ++ text).
Proof.
  intros Hw. unfold getTasksRaw, bind.
  rewrite ensureAuthenticated_cached by assumption.
  unfold try_catch. destruct (JS.truthy_string projectId).
  - unfold bind, send. destruct (remote _ _) as [d|e0]; [discriminate|].
    destruct e0; cbn; intros [= <- _]; eexists; reflexivity.
  - unfold bind. rewrite getProjects_run by assumption.
    destruct (remote GET_project _) as [d|e0].
    + rewrite for_of_push_project_tasks. cbn [Spec.extend this].
      rewrite push_inbox_tasks_run. discriminate.
    + cbn. intros [= <- _]. eexists. reflexivity.
Qed.

Lemma single_request_failure (req : Request) (what : string) (w w' : World)
    (e : Thrown) :
  Spec.authenticated w ->
  bind (ensureAuthenticated remote)
    (fun _ => try_catch (bind (send remote req) (fun response => ret response))
                        (fun error => rethrow_message what error)) w
  = (inl e, w') ->
  exists text, e = PlainError (what ++ ": " ++ text).
Proof.
  intros Hw. unfold bind. rewrite ensureAuthenticated_cached by assumption.
  unfold try_catch, bind, send.
  destruct (remote req _) as [d|e0]; [discriminate|].
  cbn. intros [= <- _]. eexists. reflexivity.
Qed.

(** What a method throws once the client has a session. *)
Lemma call_failure_prefix (op : Operation) (w w' : World) (e : Thrown) :
  Spec.authenticated w ->
  call remote Date_parse clock op w = (inl e, w') ->
  exists text, e = PlainError (Terms.failure_prefix op ++ ": " ++ text).
Proof.
  intros Hw. destruct op; cbn [call Terms.failure_prefix]; unfold bind at 1.
  - rewrite getTasks_via_raw.
    destruct (getTasksRaw remote projectId w) as [[e0|l] w1] eqn:E; [|discriminate].
    intros [= <- _]. now apply (getTasksRaw_failure projectId w w1).
  - unfold getOverdueTasks. cbv zeta. unfold bind at 1.
    destruct (getTasksRaw remote projectId w) as [[e0|l] w1] eqn:E; [|discriminate].
    intros [= <- _]. now apply (getTasksRaw_failure projectId w w1).
  - unfold getTodaysTasks. unfold bind at 1.
    destruct (getTasksRaw remote projectId w) as [[e0|l] w1] eqn:E; [|discriminate].
    intros [= <- _]. now apply (getTasksRaw_failure projectId w w1).
  - rewrite getProjects_run by assumption.
    destruct (remote GET_project _); [discriminate|].
    intros [= <- _]. eexists. reflexivity.
  - destruct (createTask remote task w) as [[e0|t] w1] eqn:E; [|discriminate].
    intros [= <- _]. now apply (single_request_failure (POST_task task) _ w w1).
  - destruct (updateTask remote taskId updates w) as [[e0|t] w1] eqn:E; [|discriminate].
    intros [= <- _].
    now apply (single_request_failure (POST_task_id taskId updates) _ w w1).
  - unfold deleteTask, bind.
    rewrite ensureAuthenticated_cached by assumption.
    unfold try_catch, bind, send.
    destruct (remote _ _) as [d|e0]; [discriminate|].
    cbn. intros [= <- _]. eexists. reflexivity.
  - destruct (completeTask remote taskId projectId w) as [[e0|t] w1] eqn:E;
      [|discriminate].
    intros [= <- _].
    now apply (single_request_failure
                 (POST_project_task_complete projectId taskId) _ w w1).
  - destruct (getTaskById remote taskId projectId w) as [[e0|t] w1] eqn:E;
      [|discriminate].
    intros [= <- _].
    now apply (single_request_failure (GET_project_task projectId taskId) _ w w1).
Qed.

(** Whatever a public method throws is a plain [Error]. *)
Lemma call_throws_plain (op : Operation) (w w' : World) (e : Thrown) :
  call remote Date_parse clock op w = (inl e, w') ->
  exists text, e = PlainError text.
Proof.
  pose proof (call_begins_with_authentication remote Date_parse clock op) as Hb.
  destruct (ensureAuthenticated remote w) as [[e0|[]] w1] eqn:E.
  - rewrite (begins_failure remote _ w w1 e0 Hb E). intros [= <- _].
    pose proof (ensureAuthenticated_effects remote w) as (_ & _ & H).
    rewrite E in H. cbn [fst snd] in H. now destruct (H e0 eq_refl).
  - rewrite (begins_success remote _ w w1 Hb E). intros H.
    destruct (ensureAuthenticated_establishes remote w w1 E) as (Hw1 & _).
    destruct (call_failure_prefix op w1 w' e Hw1 H) as [text ->]. eauto.
Qed.

(** A call leaves the configuration of the client as it is. *)
Lemma call_keeps_config (op : Operation) (w : World) :
  config (this (snd (call remote Date_parse clock op w))) = config (this w).
Proof.
  pose proof (call_begins_with_authentication remote Date_parse clock op) as Hb.
  destruct (ensureAuthenticated remote w) as [[e0|[]] w1] eqn:E.
  - rewrite (begins_failure remote _ w w1 e0 Hb E). cbn [snd].
    pose proof (ensureAuthenticated_effects remote w) as (_ & _ & H).
    rewrite E in H. cbn [fst snd] in H. now destruct (H e0 eq_refl) as [-> _].
  - rewrite (begins_success remote _ w w1 Hb E).
    destruct (ensureAuthenticated_establishes remote w w1 E) as (Hw1 & _ & Hc).
    destruct (keeps_call remote Date_parse clock op w1 Hw1) as [-> _]. exact Hc.
Qed.

(** X17.  With a session, whatever a public method throws is a plain
    [Error] whose message begins with the words of that method:
    [Failed to get tasks: ] for the three listings, [Failed to get
    projects: ], [Failed to create task: ] and so on.  The error of the
    transport never leaves as it came. *)
Theorem failures_name_the_method (op : Operation) (w w' : World) (e : Thrown) :
  Spec.authenticated w ->
  call remote Date_parse clock op w = (inl e, w') ->
  exists text, e = PlainError (Terms.failure_prefix op ++ ": " ++ text).
Proof. apply call_failure_prefix. Qed.

End GatewayEdges.

Section ConstructedClient.

Import Http Client.

(** [authenticate] signs on whenever it is called, whatever session the
    client has. *)
Lemma authenticate_sends_signon (remote : Remote) (w : World) :
  sent (snd (authenticate remote w))
  = sent w ++ [(Terms.signon_of w, Authorization (this w))].
Proof.
  unfold authenticate, try_catch, bind, get_this, send, Terms.signon_of.
  cbn [this].
  destruct (remote _ _) as [[d|]|e].
  - now destruct (JS.truthy_string (token d)).
  - reflexivity.
  - now destruct e.
Qed.

(** X10.  A client built from a configuration with an access token has
    its session from the start.  Whatever calls of the nine task and
    project methods follow, against whatever services, the client object
    stays as the constructor made it, no sign-on is ever sent, and every
    request carries [Bearer] and that token.  The tenth public method is
    the exception: [authenticate], called directly, sends the sign-on
    request whatever the session, also on this client. *)
Theorem token_client_never_signs_on
    (config : TickTickConfig.t) (Date_parse : string -> JS.number)
    (calls : list Invocation) :
  JS.truthy_string (TickTickConfig.accessToken config) = true ->
  let bearer :=
    Some ("Bearer " ++ JS.template_string (TickTickConfig.accessToken config))%string in
  let w' := after Date_parse calls (start config) in
  this w' = mk (TickTickConfig.accessToken config) bearer config
  /\ Forall (fun rh => Spec.is_signon (fst rh) = false /\ snd rh = bearer) (sent w')
  /\ (forall remote,
        sent (snd (authenticate remote w'))
        = sent w' ++ [(POST_user_signon (TickTickConfig.username config)
                                        (TickTickConfig.password config),
                       bearer)]).
Proof.
  intros Ht bearer w'.
  assert (Hstart : start config
                   = mkWorld (mk (TickTickConfig.accessToken config) bearer config) [] [])
    by (unfold start, new_TickTickClient; now rewrite Ht).
  destruct (keeps_after Date_parse calls (start config)) as (Hthis & reqs & Hsent & Hall).
  { unfold Spec.authenticated. rewrite Hstart. exact Ht. }
  assert (Hclient : this w' = mk (TickTickConfig.accessToken config) bearer config)
    by (subst w'; now rewrite Hthis, Hstart).
  split; [exact Hclient|]. split.
  - subst w'. rewrite Hsent, Hstart. cbn [this sent app Authorization].
    rewrite Hstart in Hall. exact Hall.
  - intros remote. rewrite authenticate_sends_signon.
    unfold Terms.signon_of. now rewrite Hclient.
Qed.

End ConstructedClient.

Lemma authentication_failure_passes_through_witness :
  call Sample.remote JS.parse_iso Sample.at_noon_jan_11 (GetTaskById "t2" "b")
       Sample.unconfigured
  = (inl (Http.PlainError "Either accessToken or username/password must be provided"),
     Sample.unconfigured).
Proof.
  apply authentication_failure_passes_through. reflexivity.
Defined.

Lemma getTasks_is_getTasksRaw_enhanced_witness :
  getTasks Sample.remote None Sample.with_token
  = (inr (map enhanceTaskForDisplay [Sample.rent; Sample.call_bank; Sample.note]),
     snd (getTasksRaw Sample.remote None Sample.with_token)).
Proof.
  apply (proj1 (getTasks_is_getTasksRaw_enhanced Sample.remote None Sample.with_token
                  (snd (getTasksRaw Sample.remote None Sample.with_token)))).
  reflexivity.
Defined.

Lemma filtered_listings_select_from_getTasks_witness :
  Forall (fun d =>
            JS.truthy_string (TickTickTask.completedTime (Displayed.fields d)) = false
            /\ JS.truthy_string (TickTickTask.dueDate (Displayed.fields d)) = true)
         (map enhanceTaskForDisplay [Sample.call_bank]).
Proof.
  apply (proj2 (proj2 (filtered_listings_select_from_getTasks Sample.remote
                         JS.parse_iso Sample.from_noon_to_midnight None None
                         Sample.with_token
                         (snd (getTasksRaw Sample.remote None Sample.with_token))
                         (map enhanceTaskForDisplay [Sample.call_bank])))).
  left. reflexivity.
Defined.

(** Two tasks that are equal, tested at two readings of a moving clock:
    the overdue filter keeps the second only. *)
Example equal_tasks_are_tested_at_their_own_readings :
  filter_at (fun now task => isTaskOverdue JS.parse_iso now task None)
            (fun n => match n with
                      | O => 1704959999999
                      | S _ => Sample.noon_jan_11
                      end)
            [Sample.call_bank; Sample.call_bank]
  = [Sample.call_bank]
  /\ filter (fun task => isTaskOverdue JS.parse_iso Sample.noon_jan_11 task None)
            [Sample.call_bank; Sample.call_bank]
     = [Sample.call_bank; Sample.call_bank].
Proof. split; reflexivity. Qed.

Lemma project_list_failure_aborts_the_fetch_witness :
  getTasks Sample.remote_down None Sample.with_token
  = (inl (Http.PlainError
            "Failed to get tasks: Failed to get projects: Request failed with status code 500"),
     Spec.extend Sample.with_token [(Http.GET_project, Some "Bearer secret"%string)] []).
Proof.
  apply (proj2 (project_list_failure_aborts_the_fetch Sample.remote_down None
                  Sample.with_token Sample.server_error eq_refl eq_refl eq_refl)).
Defined.

Lemma aggregate_fetch_request_trace_witness :
  Client.sent (snd (getTasks Sample.remote None Sample.with_token))
  = [(Http.GET_project, Some "Bearer secret"%string);
     (Http.GET_project_data "a", Some "Bearer secret"%string);
     (Http.GET_project_data "b", Some "Bearer secret"%string);
     (Http.GET_project_data "inbox", Some "Bearer secret"%string)].
Proof.
  apply (proj1 (proj2 (aggregate_fetch_request_trace Sample.remote None
                         Sample.with_token (Some [Sample.work; Sample.home])
                         eq_refl eq_refl eq_refl))).
Defined.

Lemma single_project_fetch_is_one_request_witness :
  getTasks Sample.remote (Some "b"%string) Sample.with_token
  = (inr (map enhanceTaskForDisplay [Sample.rent; Sample.call_bank]),
     Spec.extend Sample.with_token
       [(Http.GET_project_data "b", Some "Bearer secret"%string)] []).
Proof.
  apply (proj2 (proj1 (single_project_fetch_is_one_request Sample.remote
                         (Some "b"%string) Sample.with_token eq_refl eq_refl)
                  (Some (Http.mkProjectData (Some [Sample.rent; Sample.call_bank])))
                  eq_refl)).
Defined.

Lemma failures_name_the_method_witness :
  exists text,
    Http.PlainError "Failed to delete task: Request failed with status code 500"
    = Http.PlainError ("Failed to delete task: " ++ text).
Proof.
  apply (failures_name_the_method Sample.remote_down JS.parse_iso
           Sample.at_noon_jan_11
           (DeleteTask "t2" "b") Sample.with_token
           (snd (call Sample.remote_down JS.parse_iso Sample.at_noon_jan_11
                   (DeleteTask "t2" "b") Sample.with_token)));
    reflexivity.
Defined.

Lemma token_client_never_signs_on_witness :
  Forall (fun rh => Spec.is_signon (fst rh) = false
                    /\ snd rh = Some "Bearer secret"%string)
    (Client.sent
       (after JS.parse_iso
          [mkInvocation Sample.remote Sample.at_noon_jan_11 (GetTasks None);
           mkInvocation Sample.remote_down Sample.at_noon_jan_11 GetProjects]
          (start Sample.token_config))).
Proof.
  apply (proj1 (proj2 (token_client_never_signs_on Sample.token_config JS.parse_iso
                  [mkInvocation Sample.remote Sample.at_noon_jan_11 (GetTasks None);
                   mkInvocation Sample.remote_down Sample.at_noon_jan_11 GetProjects]
                  eq_refl))).
Defined.


(* ================================================================== *)
(** * The tool handlers *)
(* ================================================================== *)

Section ServerFacts.

Import Mcp Server.

Variable McpError_message : ErrorCode -> string -> string.
Variable null_message : string.
Variable remote : Http.Remote.
Variable Date_parse : string -> JS.number.
Variable clock : nat -> Z.

Lemma on_client_some {A} (m : Client.M A) (w : World) (c : Client.t) :
  ticktickClient w = Some c ->
  let after_call := m (Client.mkWorld c (sent w) (warnings w)) in
  on_client m w
  = (match fst after_call with
     | inl error => inl (OfClient error)
     | inr a => inr a
     end,
     mkWorld (Some (Client.this (snd after_call))) (Client.sent (snd after_call))
             (Client.warnings (snd after_call))).
Proof.
  intros Hc. cbv zeta. unfold on_client. rewrite Hc.
  now destruct (m _) as [r cw].
Qed.

Lemma on_client_none {A} (m : Client.M A) (w : World) :
  ticktickClient w = None -> on_client m w = (inl OfNull, w).
Proof. intros Hc. unfold on_client. now rewrite Hc. Qed.

(** The handler of a tool wraps what the method of [call] returns. *)
Lemma via_call {A B C} (m : Client.M A) (f : A -> B) (g : B -> C) (w : World) :
  Server.bind (on_client (Client.bind m (fun a => Client.ret (f a))))
              (fun r => Server.ret (g r)) w
  = Server.bind (on_client m) (fun a => Server.ret (g (f a))) w.
Proof.
  unfold Server.bind, on_client, Client.bind, Client.ret, Server.ret.
  destruct (ticktickClient w); [|reflexivity].
  now destruct (m _) as [[e|a] cw].
Qed.

Ltac tool_names name :=
  destruct (String.eqb_spec name "get_tasks") as [->|_];
  [|destruct (String.eqb_spec name "get_overdue_tasks") as [->|_];
  [|destruct (String.eqb_spec name "get_todays_tasks") as [->|_];
  [|destruct (String.eqb_spec name "get_projects") as [->|_];
  [|destruct (String.eqb_spec name "create_task") as [->|_];
  [|destruct (String.eqb_spec name "update_task") as [->|_];
  [|destruct (String.eqb_spec name "delete_task") as [->|_];
  [|destruct (String.eqb_spec name "complete_task") as [->|_];
  [|destruct (String.eqb_spec name "get_task") as [->|_]]]]]]]]];
  cbv [String.eqb Ascii.eqb Bool.eqb]; cbn [orb].

Lemma listed_by_name (name : string) :
  Terms.listed name
  = if String.eqb name "get_tasks" then nth_error tools 0
    else if String.eqb name "get_overdue_tasks" then nth_error tools 1
    else if String.eqb name "get_todays_tasks" then nth_error tools 2
    else if String.eqb name "get_projects" then nth_error tools 3
    else if String.eqb name "create_task" then nth_error tools 4
    else if String.eqb name "update_task" then nth_error tools 5
    else if String.eqb name "delete_task" then nth_error tools 6
    else if String.eqb name "complete_task" then nth_error tools 7
    else if String.eqb name "get_task" then nth_error tools 8
    else None.
Proof.
  unfold Terms.listed, tools. cbn [find Mcp.name nth_error].
  rewrite !(String.eqb_sym _ name).
  tool_names name; reflexivity.
Qed.

Lemma required_by_name (name : string) (args : option ToolArgs.t) :
  Terms.required_present name args
  = if String.eqb name "create_task"
    then JS.truthy_string (arg TaskFields.title args)
    else if String.eqb name "update_task"
    then JS.truthy_string (arg TaskFields.taskId args)
    else if String.eqb name "delete_task" || String.eqb name "complete_task"
            || String.eqb name "get_task"
    then JS.truthy_string (arg TaskFields.taskId args)
         && JS.truthy_string (arg TaskFields.projectId args)
    else true.
Proof.
  unfold Terms.required_present. rewrite listed_by_name.
  tool_names name; try reflexivity; cbn; now rewrite ?andb_true_r.
Qed.


Lemma dispatch_unlisted (name : string) (args : option ToolArgs.t) (w : World) :
  Terms.listed name = None ->
  dispatch remote Date_parse clock name args w
  = (inl (OfHandler (mkMcpError MethodNotFound ("Unknown tool: " ++ name))), w).
Proof.
  rewrite listed_by_name. unfold dispatch.
  tool_names name; try discriminate. reflexivity.
Qed.

Lemma dispatch_invalid (name : string) (args : option ToolArgs.t) :
  Terms.required_present name args = false ->
  exists text,
    forall w,
      dispatch remote Date_parse clock name args w
      = (inl (OfHandler (mkMcpError InvalidParams text)), w).
Proof.
  rewrite required_by_name. unfold dispatch.
  tool_names name; try discriminate; cbn [orb]; intros Hr;
    eexists; intros w; first [rewrite Hr | rewrite <- negb_andb, Hr]; reflexivity.
Qed.

Lemma dispatch_valid (name : string) (args : option ToolArgs.t) (tool : Tool) :
  Terms.listed name = Some tool ->
  Terms.required_present name args = true ->
  exists (op : Operation) (wrap : Returned -> ToolText),
    forall w,
      dispatch remote Date_parse clock name args w
      = Server.bind (on_client (call remote Date_parse clock op))
                    (fun r => Server.ret (wrap r)) w.
Proof.
  rewrite listed_by_name, required_by_name. unfold dispatch.
  tool_names name; cbn [orb]; intros Hl Hr; try discriminate.
  - exists (GetTasks (arg TaskFields.projectId args)), Stringified.
    intros w. symmetry. apply via_call.
  - eexists (GetOverdueTasks (arg TaskFields.projectId args) (Some _)), Stringified.
    intros w. symmetry. apply via_call.
  - exists (GetTodaysTasks (arg TaskFields.projectId args)), Stringified.
    intros w. symmetry. apply via_call.
  - exists GetProjects, Stringified.
    intros w. symmetry. apply via_call.
  - exists (CreateTask (body args)), (Announced "Task created successfully: ").
    intros w. rewrite Hr. symmetry. apply via_call.
  - exists (UpdateTask (checked (arg TaskFields.taskId args)) (body args)),
           (Announced "Task updated successfully: ").
    intros w. rewrite Hr. symmetry. apply via_call.
  - exists (DeleteTask (checked (arg TaskFields.taskId args))
                       (checked (arg TaskFields.projectId args))),
           (fun _ => Literal "Task deleted successfully").
    intros w. apply andb_prop in Hr as [-> ->]. symmetry.
    apply (via_call _ (fun _ => Nothing) (fun _ => Literal "Task deleted successfully")).
  - exists (CompleteTask (checked (arg TaskFields.taskId args))
                         (checked (arg TaskFields.projectId args))),
           (Announced "Task completed successfully: ").
    intros w. apply andb_prop in Hr as [-> ->]. symmetry. apply via_call.
  - exists (GetTaskById (checked (arg TaskFields.taskId args))
                        (checked (arg TaskFields.projectId args))),
           Stringified.
    intros w. apply andb_prop in Hr as [-> ->]. symmetry. apply via_call.
Qed.


Lemma ensureClientInitialized_run (env : TickTickConfig.t) (w : World) :
  ensureClientInitialized env w
  = (inl (OfHandler
            (mkMcpError InvalidParams
               "Either TICKTICK_ACCESS_TOKEN or TICKTICK_USERNAME/TICKTICK_PASSWORD environment variables are required")),
     w)
  \/ exists c,
       ensureClientInitialized env w
       = (inr tt, mkWorld (Some c) (sent w) (warnings w))
       /\ forall c0, ticktickClient w = Some c0 -> c = c0.
Proof.
  unfold ensureClientInitialized.
  destruct w as [[c0|] s l]; cbn [ticktickClient sent warnings].
  - right. exists c0. split; [reflexivity|]. now intros c [= ->].
  - destruct (_ && _); [now left|].
    right. eexists. split; [reflexivity|]. discriminate.
Qed.

(** What the [try] block of the call handler can throw. *)
Lemma try_block_failure (env : TickTickConfig.t) (name : string)
    (args : option ToolArgs.t) (w w' : World) (cause : Caught) :
  Server.bind (ensureClientInitialized env)
              (fun _ => dispatch remote Date_parse clock name args) w
  = (inl cause, w') ->
  (exists text,
     cause = OfHandler (mkMcpError InvalidParams text)
     /\ sent w' = sent w /\ warnings w' = warnings w)
  \/ (cause = OfHandler (mkMcpError MethodNotFound ("Unknown tool: " ++ name))
      /\ Terms.listed name = None
      /\ sent w' = sent w /\ warnings w' = warnings w)
  \/ (exists text, cause = OfClient (Http.PlainError text)).
Proof.
  unfold Server.bind.
  destruct (ensureClientInitialized_run env w) as [->|(c & -> & _)].
  - intros [= <- <-]. left. eauto.
  - destruct (Terms.listed name) as [tool|] eqn:Hl.
    + destruct (Terms.required_present name args) eqn:Hr.
      * destruct (dispatch_valid name args tool Hl Hr) as (op & wrap & ->).
        unfold Server.bind.
        rewrite (on_client_some _ (mkWorld (Some c) (sent w) (warnings w)) c eq_refl).
        cbv zeta.
        destruct (call _ _ _ _ _) as [[e|r] cw] eqn:Ec; cbn [fst snd]; [|discriminate].
        intros [= <- _]. right. right.
        destruct (call_throws_plain _ _ _ _ _ _ _ Ec) as [text ->]. eauto.
      * destruct (dispatch_invalid name args Hr) as (text & ->).
        intros [= <- <-]. left. eauto.
    + rewrite dispatch_unlisted by assumption.
      intros [= <- <-]. right. left. auto.
Qed.

(** X18.  Whatever goes wrong in a tool call reaches the caller as an
    [InternalError] whose text is [Error executing tool <name>: ] and the
    message of the cause.  The cause is one of three: an [InvalidParams]
    error of the handler, the [MethodNotFound] error for a name that is
    not listed, or a plain [Error] of the client.  In the first two cases
    nothing was sent.  The [Unknown error] branch and a call on a null
    client are never reached. *)
Theorem tool_call_failures_are_internal_errors
    (env : TickTickConfig.t) (name : string) (args : option ToolArgs.t)
    (w w' : World) (e : McpError) :
  call_tool McpError_message null_message remote Date_parse clock env name args w
  = (inl e, w') ->
  exists cause,
    e = mkMcpError InternalError
          ("Error executing tool " ++ name ++ ": "
           ++ caught_message McpError_message null_message cause)
    /\ ((exists text,
           cause = OfHandler (mkMcpError InvalidParams text)
           /\ sent w' = sent w /\ warnings w' = warnings w)
        \/ (cause = OfHandler (mkMcpError MethodNotFound ("Unknown tool: " ++ name))
            /\ Terms.listed name = None
            /\ sent w' = sent w /\ warnings w' = warnings w)
        \/ (exists text,
              cause = OfClient (Http.PlainError text)
              /\ caught_message McpError_message null_message cause = text)).
Proof.
  unfold call_tool.
  destruct (Server.bind _ _ w) as [[cause|text] w1] eqn:E; [|discriminate].
  intros [= <- <-]. exists cause. split; [reflexivity|].
  destruct (try_block_failure env name args w w1 cause E)
    as [H|[H|[text ->]]]; auto.
  right. right. exists text. auto.
Qed.

(** X19.  The tools the server lists are the tools it handles: a name is
    answered with [Unknown tool] exactly when no listed tool has it. *)
Theorem listed_tools_are_the_handled_ones (name : string) :
  Terms.listed name = None
  <-> forall args w,
        dispatch remote Date_parse clock name args w
        = (inl (OfHandler (mkMcpError MethodNotFound ("Unknown tool: " ++ name))), w).
Proof.
  split.
  - intros Hl args w. now apply dispatch_unlisted.
  - intros H. destruct (Terms.listed name) as [tool|] eqn:Hl; [exfalso|reflexivity].
    specialize (H None server_start).
    destruct (Terms.required_present name None) eqn:Hr.
    + destruct (dispatch_valid name None tool Hl Hr) as (op & wrap & E).
      rewrite E in H. unfold Server.bind in H.
      rewrite on_client_none in H by reflexivity. discriminate.
    + destruct (dispatch_invalid name None Hr) as (text & E).
      rewrite E in H. discriminate.
Qed.

(** X20.  The fields a listed tool declares as required are the fields
    its handler insists on.  With a client in place, the handler throws
    [InvalidParams] exactly when a required field is missing or falsy,
    and then before anything is sent; otherwise it runs one method of the
    client and fails only with what that method throws. *)
Theorem required_fields_are_enforced
    (name : string) (args : option ToolArgs.t) (tool : Tool)
    (w : World) (c : Client.t) :
  Terms.listed name = Some tool ->
  ticktickClient w = Some c ->
  (Terms.required_present name args = false
   <-> exists text,
         dispatch remote Date_parse clock name args w
         = (inl (OfHandler (mkMcpError InvalidParams text)), w))
  /\ (Terms.required_present name args = true ->
      exists op wrap,
        let after_call :=
          call remote Date_parse clock op (Client.mkWorld c (sent w) (warnings w)) in
        dispatch remote Date_parse clock name args w
        = (match fst after_call with
           | inl error => inl (OfClient error)
           | inr r => inr (wrap r)
           end,
           mkWorld (Some (Client.this (snd after_call)))
                   (Client.sent (snd after_call))
                   (Client.warnings (snd after_call)))).
Proof.
  intros Hl Hc.
  assert (Hv : Terms.required_present name args = true ->
               exists op wrap,
                 let after_call :=
                   call remote Date_parse clock op
                        (Client.mkWorld c (sent w) (warnings w)) in
                 dispatch remote Date_parse clock name args w
                 = (match fst after_call with
                    | inl error => inl (OfClient error)
                    | inr r => inr (wrap r)
                    end,
                    mkWorld (Some (Client.this (snd after_call)))
                            (Client.sent (snd after_call))
                            (Client.warnings (snd after_call)))).
  { intros Hr. destruct (dispatch_valid name args tool Hl Hr) as (op & wrap & E).
    exists op, wrap. cbv zeta. rewrite E. unfold Server.bind.
    rewrite (on_client_some _ _ c Hc). cbv zeta.
    now destruct (call _ _ _ _ _) as [[e|r] cw]. }
  split; [split|exact Hv].
  - intros Hr. destruct (dispatch_invalid name args Hr) as (text & E). eauto.
  - intros (text & E).
    destruct (Terms.required_present name args) eqn:Hr; [exfalso|reflexivity].
    destruct (Hv eq_refl) as (op & wrap & E'). cbv zeta in E'.
    rewrite E' in E.
    destruct (call _ _ _ _ _) as [[e|r] cw]; discriminate.
Qed.

(** X21.  Without credentials in the environment no tool call gets
    anywhere: whatever the tool name and the arguments, listed or not,
    valid or not, the call fails with the same [InvalidParams] cause, no
    client is made and nothing is sent.  With credentials, the first call
    makes the client from the six variables. *)
Theorem missing_credentials_stop_every_tool_call
    (env : TickTickConfig.t) (name : string) (args : option ToolArgs.t) (w : World) :
  ticktickClient w = None ->
  (JS.truthy_string (TickTickConfig.accessToken env) = false
   /\ (JS.truthy_string (TickTickConfig.username env) = false
       \/ JS.truthy_string (TickTickConfig.password env) = false) ->
   call_tool McpError_message null_message remote Date_parse clock env name args w
   = (inl (mkMcpError InternalError
             ("Error executing tool " ++ name ++ ": "
              ++ McpError_message InvalidParams
                   "Either TICKTICK_ACCESS_TOKEN or TICKTICK_USERNAME/TICKTICK_PASSWORD environment variables are required")),
      w))
  /\ (JS.truthy_string (TickTickConfig.accessToken env) = true
      \/ (JS.truthy_string (TickTickConfig.username env) = true
          /\ JS.truthy_string (TickTickConfig.password env) = true) ->
      ensureClientInitialized env w
      = (inr tt, mkWorld (Some (new_TickTickClient env)) (sent w) (warnings w))).
Proof.
  intros Hc. split.
  - intros [Ht Hup]. unfold call_tool, Server.bind, ensureClientInitialized.
    rewrite Hc. cbv zeta. rewrite Ht.
    destruct Hup as [-> | ->]; cbn [negb andb orb]; [|rewrite orb_true_r]; reflexivity.
  - intros H. unfold ensureClientInitialized. rewrite Hc. cbv zeta.
    destruct env as [u p t r ci cs]; cbn [TickTickConfig.accessToken
      TickTickConfig.username TickTickConfig.password TickTickConfig.clientId
      TickTickConfig.clientSecret TickTickConfig.refreshToken] in *.
    destruct H as [-> | [-> ->]]; cbn [negb andb orb];
      rewrite ?andb_false_r; reflexivity.
Qed.

(** X22.  The environment is read once.  When the server has its client,
    a tool call does the same whatever the environment holds by then, and
    the server still has a client afterwards, with the configuration it
    was made from. *)
Theorem environment_is_read_once
    (env env' : TickTickConfig.t) (name : string) (args : option ToolArgs.t)
    (w : World) (c : Client.t) :
  ticktickClient w = Some c ->
  call_tool McpError_message null_message remote Date_parse clock env name args w
  = call_tool McpError_message null_message remote Date_parse clock env' name args w
  /\ exists c',
       ticktickClient
         (snd (call_tool McpError_message null_message remote Date_parse clock
                 env name args w))
       = Some c'
       /\ Client.config c' = Client.config c.
Proof.
  intros Hc.
  assert (Hi : forall env0, ensureClientInitialized env0 w = (inr tt, w))
    by (intros env0; unfold ensureClientInitialized; now rewrite Hc).
  unfold call_tool, Server.bind. rewrite !Hi. split; [reflexivity|].
  destruct (Terms.listed name) as [tool|] eqn:Hl.
  - destruct (Terms.required_present name args) eqn:Hr.
    + destruct (dispatch_valid name args tool Hl Hr) as (op & wrap & ->).
      unfold Server.bind. rewrite (on_client_some _ _ c Hc). cbv zeta.
      pose proof (call_keeps_config remote Date_parse clock op
                    (Client.mkWorld c (sent w) (warnings w))) as Hk.
      destruct (call _ _ _ _ _) as [[e|r] cw]; cbn [fst snd ticktickClient] in *;
        eexists; split; try reflexivity; exact Hk.
    + destruct (dispatch_invalid name args Hr) as (text & ->).
      cbn [snd]. eauto.
  - rewrite dispatch_unlisted by assumption. cbn [snd]. eauto.
Qed.

Lemma getOverdueTasks_via_raw (projectId : option string) (offset : option Z)
    (cw : Client.World) :
  getOverdueTasks remote Date_parse clock projectId offset cw
  = match getTasksRaw remote projectId cw with
    | (inr l, cw') =>
        (inr (map enhanceTaskForDisplay
                (filter_at (fun now task => isTaskOverdue Date_parse now task offset)
                           clock l)),
         cw')
    | (inl e, cw') => (inl e, cw')
    end.
Proof.
  unfold getOverdueTasks. cbv zeta. unfold Client.bind.
  now destruct (getTasksRaw remote projectId cw) as [[e|l] cw'].
Qed.

(** X23.  The [get_overdue_tasks] tool gives the answer of [get_tasks]
    for the same project, cut down to the tasks that are overdue, each
    at the clock reading of its own test: the same requests, the same
    error if any, the same order.  Its [timezoneOffsetHours] argument
    changes nothing. *)
Theorem timezone_argument_of_the_tool_is_ignored
    (fields : TaskFields.t) (zone : option Z) (w : World) (c : Client.t) :
  ticktickClient w = Some c ->
  let run name := dispatch remote Date_parse clock name in
  let listing := run "get_tasks"%string (Some (ToolArgs.mk fields zone)) w in
  let overdue := run "get_overdue_tasks"%string (Some (ToolArgs.mk fields zone)) w in
  snd overdue = snd listing
  /\ (forall all,
        fst listing = inr (Stringified (Tasks all)) ->
        fst overdue
        = inr (Stringified
                 (Tasks (filter_at
                           (fun now d => isTaskOverdue Date_parse now
                                           (Displayed.fields d) zone)
                           clock all))))
  /\ (forall cause, fst listing = inl cause -> fst overdue = inl cause)
  /\ (forall zone',
        run "get_overdue_tasks"%string (Some (ToolArgs.mk fields zone')) w = overdue).
Proof.
  intros Hc. cbv zeta.
  assert (Hzone : forall zone',
             dispatch remote Date_parse clock "get_overdue_tasks"
                      (Some (ToolArgs.mk fields zone')) w
             = dispatch remote Date_parse clock "get_overdue_tasks"
                        (Some (ToolArgs.mk fields zone)) w)
    by reflexivity.
  assert (Hskip : forall offset,
             getOverdueTasks remote Date_parse clock (TaskFields.projectId fields)
               offset (Client.mkWorld c (sent w) (warnings w))
             = getOverdueTasks remote Date_parse clock (TaskFields.projectId fields)
                 zone (Client.mkWorld c (sent w) (warnings w)))
    by reflexivity.
  split; [|split; [|split; [|exact Hzone]]];
    unfold dispatch; cbv [String.eqb Ascii.eqb Bool.eqb]; unfold Server.bind;
    rewrite !(on_client_some _ _ c Hc); cbv zeta;
    rewrite getTasks_via_raw; cbn [arg ToolArgs.fields];
    rewrite !Hskip, getOverdueTasks_via_raw;
    destruct (getTasksRaw remote _ _) as [[e|raw] cw]; cbn [fst snd Server.ret];
    try reflexivity; try discriminate.
  - intros all [= <-].
    now rewrite (filter_at_enhanced
                   (fun now task => isTaskOverdue Date_parse now task zone)).
  - auto.
Qed.

End ServerFacts.


(* ================================================================== *)
(** * The [.env] reader *)
(* ================================================================== *)

Section DotenvFacts.

Import Dotenv.

Lemma split_app (sep : Z) (a b : text) :
  split sep (a ++ sep :: b) = split sep a ++ split sep b.
Proof.
  induction a as [|c a IH]; cbn [app split].
  - now rewrite Z.eqb_refl.
  - destruct (c =? sep); [now rewrite IH|].
    rewrite IH. destruct (split sep a) as [|head tail] eqn:E; [|reflexivity].
    now destruct a as [|c' a]; cbn in E; [|destruct (c' =? sep), (split sep a)].
Qed.

Lemma split_free (sep : Z) (s : text) :
  Terms.free_of sep s -> split sep s = [s].
Proof.
  unfold Terms.free_of. induction s as [|c s IH]; [reflexivity|].
  intros H. cbn [split].
  destruct (Z.eqb_spec c sep) as [->|_]; [exfalso; apply H; now left|].
  rewrite IH; [reflexivity|]. intros Hin. apply H. now right.
Qed.

Lemma split_pieces_free (sep : Z) (s piece : text) :
  In piece (split sep s) -> Terms.free_of sep piece.
Proof.
  unfold Terms.free_of. revert piece.
  induction s as [|c s IH]; intros piece; cbn [split].
  - intros [<-|[]] [].
  - destruct (Z.eqb_spec c sep) as [->|N].
    + intros [<-|H]; [intros []|now apply IH].
    + destruct (split sep s) as [|head tail].
      * intros [<-|[]] [->|[]]. now apply N.
      * intros [<-|H].
        -- intros [->|Hin]; [now apply N|]. apply (IH head); [now left|assumption].
        -- apply IH. now right.
Qed.

Lemma split_pieces_within (sep : Z) (s piece : text) (c : Z) :
  In piece (split sep s) -> In c piece -> In c s.
Proof.
  revert piece. induction s as [|d s IH]; intros piece; cbn [split].
  - now intros [<-|[]].
  - destruct (d =? sep).
    + intros [<-|H]; [intros []|]. intros Hc. right. now apply (IH piece).
    + destruct (split sep s) as [|head tail].
      * intros [<-|[]] [->|[]]. now left.
      * intros [<-|H].
        -- intros [->|Hc]; [now left|]. right. apply (IH head); [now left|assumption].
        -- intros Hc. right. apply (IH piece); [now right|assumption].
Qed.

Lemma trimStart_within (s : text) (c : Z) : In c (trimStart s) -> In c s.
Proof.
  induction s as [|d s IH]; [auto|]. cbn [trimStart].
  destruct (is_white_space d); [|auto]. intros H. right. auto.
Qed.

Lemma trim_within (s : text) (c : Z) : In c (trim s) -> In c s.
Proof.
  unfold trim, trimEnd. intros H.
  apply in_rev, trimStart_within in H. apply in_rev in H.
  now apply trimStart_within.
Qed.

Lemma trimStart_head (s rest : text) (c : Z) :
  trimStart s = c :: rest -> is_white_space c = false.
Proof.
  induction s as [|d s IH]; [discriminate|]. cbn [trimStart].
  destruct (is_white_space d) eqn:E; [assumption|]. now intros [= <- _].
Qed.

Lemma trimStart_snoc (s : text) (c : Z) :
  is_white_space c = false -> trimStart (s ++ [c]) = trimStart s ++ [c].
Proof.
  intros Hc. induction s as [|d s IH]; cbn [app trimStart].
  - now rewrite Hc.
  - now destruct (is_white_space d).
Qed.

Lemma trimEnd_cons (s : text) (c : Z) :
  is_white_space c = false -> trimEnd (c :: s) = c :: trimEnd s.
Proof.
  intros Hc. unfold trimEnd. cbn [rev].
  now rewrite trimStart_snoc, rev_app_distr.
Qed.

Lemma trimEnd_trimEnd (s : text) : trimEnd (trimEnd s) = trimEnd s.
Proof.
  unfold trimEnd. rewrite rev_involutive. f_equal.
  induction (rev s) as [|c r IH]; [reflexivity|]. cbn [trimStart].
  destruct (is_white_space c) eqn:E; [assumption|]. cbn [trimStart]. now rewrite E.
Qed.

Lemma trim_trim (s : text) : Terms.trimmed (trim s).
Proof.
  unfold Terms.trimmed, trim.
  destruct (trimStart s) as [|c rest] eqn:E; [reflexivity|].
  pose proof (trimStart_head s rest c E) as Hc.
  rewrite (trimEnd_cons rest c Hc). cbn [trimStart]. rewrite Hc.
  now rewrite (trimEnd_cons _ c Hc), trimEnd_trimEnd.
Qed.

Lemma trimStart_blanks (pad s : text) :
  forallb is_white_space pad = true -> trimStart (pad ++ s) = trimStart s.
Proof.
  induction pad as [|c pad IH]; [reflexivity|]. cbn [forallb app trimStart].
  intros [-> H]%andb_prop. auto.
Qed.

Lemma trim_blanks (pad : text) :
  forallb is_white_space pad = true -> trim pad = [].
Proof.
  intros H. unfold trim.
  rewrite <- (app_nil_r pad), (trimStart_blanks pad [] H). reflexivity.
Qed.

Lemma truthy_app (a b : text) : truthy b = true -> truthy (a ++ b) = true.
Proof. destruct a; [auto|reflexivity]. Qed.

(** A line [key=value] and nothing more. *)
Lemma line_assignment_binding (key value : text) :
  Terms.free_of EQUALS key -> Terms.free_of EQUALS value ->
  line_assignment (key ++ EQUALS :: value)
  = if truthy key && truthy value && negb (startsWith HASH key)
    then [(trim key, trim value)] else [].
Proof.
  intros Hk Hv. unfold line_assignment.
  now rewrite split_app, (split_free _ key Hk), (split_free _ value Hv).
Qed.

Lemma assignments_app (a b : text) :
  assignments (a ++ LF :: b) = assignments a ++ assignments b.
Proof. unfold assignments. now rewrite split_app, flat_map_app. Qed.

(** X24.  Whatever the file holds, a name and a value that the reader
    assigns contain no [=] and no line feed, and neither begins or ends
    with white space. *)
Theorem assigned_names_and_values_are_clean (envFile key value : text) :
  In (key, value) (assignments envFile) ->
  Terms.free_of EQUALS key /\ Terms.free_of EQUALS value
  /\ Terms.free_of LF key /\ Terms.free_of LF value
  /\ Terms.trimmed key /\ Terms.trimmed value.
Proof.
  unfold assignments. intros (line & Hline & H)%in_flat_map.
  pose proof (split_pieces_free LF envFile line Hline) as Hlf.
  unfold line_assignment in H.
  destruct (split EQUALS line) as [|k [|v rest]] eqn:E; try contradiction.
  destruct (_ && _); [|contradiction].
  destruct H as [[= <- <-]|[]].
  assert (Hk : In k (split EQUALS line)) by (rewrite E; now left).
  assert (Hv : In v (split EQUALS line)) by (rewrite E; right; now left).
  unfold Terms.free_of in *.
  repeat split.
  - intros H%trim_within. now apply (split_pieces_free EQUALS line k Hk).
  - intros H%trim_within. now apply (split_pieces_free EQUALS line v Hv).
  - intros H%trim_within. apply Hlf. now apply (split_pieces_within EQUALS line k).
  - intros H%trim_within. apply Hlf. now apply (split_pieces_within EQUALS line v).
  - apply trim_trim.
  - apply trim_trim.
Qed.

(** X25.  Only the text up to the second [=] of a line is read: what
    follows it is dropped, so that a value with [=] in it is assigned cut
    short. *)
Theorem value_is_cut_at_the_second_equals (key value rest : text) :
  Terms.free_of EQUALS key -> Terms.free_of EQUALS value ->
  line_assignment (key ++ EQUALS :: value ++ EQUALS :: rest)
  = line_assignment (key ++ EQUALS :: value).
Proof.
  intros Hk Hv. unfold line_assignment.
  rewrite !split_app, (split_free _ key Hk), (split_free _ value Hv).
  reflexivity.
Qed.

(** X26.  Reading is the inverse of writing for plain bindings: a file
    with one line [name=value] per binding, where names and values are
    non-empty, trimmed and free of [=] and line feeds and no name begins
    with [#], assigns exactly these bindings in their order. *)
Theorem written_bindings_are_read_back (bindings : list (text * text)) :
  Forall Terms.plain_binding bindings ->
  assignments (Terms.render bindings) = bindings.
Proof.
  assert (Hone : forall key value,
             Terms.plain_binding (key, value) ->
             assignments (key ++ EQUALS :: value) = [(key, value)]).
  { intros key value (Hk & Hv & Hke & Hve & Hkl & Hvl & Hkt & Hvt & Hh).
    unfold assignments. rewrite split_free.
    - cbn [flat_map]. rewrite app_nil_r, line_assignment_binding by assumption.
      rewrite Hh, Hkt, Hvt.
      destruct key; [contradiction|]. destruct value; [contradiction|]. reflexivity.
    - unfold Terms.free_of in *. intros [H|[H|H]]%in_app_or; auto.
      discriminate H. }
  induction 1 as [|[key value] rest Hb Hrest IH]; [reflexivity|].
  destruct rest as [|next rest].
  - now apply Hone.
  - change (Terms.render ((key, value) :: next :: rest))
      with (key ++ EQUALS :: value ++ LF :: Terms.render (next :: rest)).
    change (key ++ EQUALS :: value ++ LF :: Terms.render (next :: rest))
      with (key ++ (EQUALS :: value) ++ LF :: Terms.render (next :: rest)).
    rewrite app_assoc, assignments_app, IH.
    now rewrite (Hone key value Hb).
Qed.

(** X27.  Lines are read one by one and in order.  A line without [=],
    a line that begins with [#], a line with nothing before the first
    [=] and a line with nothing between the first [=] and the next or
    the end of the line assign nothing. *)
Theorem lines_are_read_one_by_one (a b : text) :
  assignments (a ++ LF :: b) = assignments a ++ assignments b
  /\ (forall line, Terms.free_of EQUALS line -> line_assignment line = [])
  /\ (forall line, line_assignment (HASH :: line) = [])
  /\ (forall line, line_assignment (EQUALS :: line) = [])
  /\ (forall key rest,
        Terms.free_of EQUALS key ->
        line_assignment (key ++ [EQUALS]) = []
        /\ line_assignment (key ++ EQUALS :: EQUALS :: rest) = []).
Proof.
  split; [apply assignments_app|]. split; [|split; [|split]].
  - intros line H. unfold line_assignment. now rewrite split_free.
  - intros line. unfold line_assignment. cbn [split].
    change (HASH =? EQUALS) with false. cbv iota.
    destruct (split EQUALS line) as [|head [|value tail]]; try reflexivity.
    cbn [startsWith]. rewrite Z.eqb_refl. cbn [negb].
    now rewrite andb_false_r.
  - intros line. unfold line_assignment. cbn [split]. rewrite Z.eqb_refl.
    destruct (split EQUALS line) as [|value tail]; reflexivity.
  - intros key rest Hk. unfold line_assignment.
    rewrite !split_app, (split_free _ key Hk). cbn [split app].
    rewrite Z.eqb_refl. cbn [truthy]. now rewrite andb_false_r.
Qed.

(** X28.  The checks are made before the trim.  So a line whose name is
    blank assigns a value to the empty name, a comment that is indented
    is read as an assignment to a name that begins with [#], and a value
    of blanks only is assigned as the empty text. *)
Theorem checks_come_before_the_trim (pad name value : text) :
  pad <> [] -> forallb is_white_space pad = true ->
  name <> [] -> value <> [] ->
  Terms.free_of EQUALS name -> Terms.free_of EQUALS value ->
  line_assignment (pad ++ EQUALS :: value) = [([], trim value)]
  /\ line_assignment (pad ++ HASH :: name ++ EQUALS :: value)
     = [(trim (HASH :: name), trim value)]
  /\ (startsWith HASH name = false ->
      line_assignment (name ++ EQUALS :: pad) = [(trim name, [])]).
Proof.
  intros Hpad Hblank Hname Hvalue Hn Hv.
  assert (Hfree : Terms.free_of EQUALS pad).
  { unfold Terms.free_of. intros Hin.
    rewrite forallb_forall in Hblank. specialize (Hblank _ Hin). discriminate. }
  split; [|split].
  - rewrite line_assignment_binding by assumption.
    rewrite (trim_blanks pad Hblank).
    destruct pad as [|c pad]; [contradiction|].
    destruct value; [contradiction|]. cbn [truthy startsWith andb].
    cbn [forallb] in Hblank. apply andb_prop in Hblank as [Hc _].
    destruct (Z.eqb_spec c HASH) as [->|_]; [discriminate|]. reflexivity.
  - change (pad ++ HASH :: name ++ EQUALS :: value)
      with (pad ++ (HASH :: name) ++ EQUALS :: value).
    rewrite app_assoc, line_assignment_binding; try assumption.
    + unfold trim at 1. rewrite (trimStart_blanks pad _ Hblank).
      fold (trim (HASH :: name)).
      destruct pad as [|c pad]; [contradiction|].
      destruct value; [contradiction|]. cbn [app truthy startsWith andb].
      cbn [forallb] in Hblank. apply andb_prop in Hblank as [Hc _].
      destruct (Z.eqb_spec c HASH) as [->|_]; [discriminate|]. reflexivity.
    + unfold Terms.free_of in *. intros [H|[H|H]]%in_app_or; auto.
      discriminate H.
  - intros Hh. rewrite line_assignment_binding by assumption.
    rewrite (trim_blanks pad Hblank), Hh.
    destruct name; [contradiction|]. destruct pad; [contradiction|]. reflexivity.
Qed.

End DotenvFacts.


Lemma tool_call_failures_are_internal_errors_witness :
  exists cause,
    Mcp.mkMcpError Mcp.InternalError
      "Error executing tool delete_task: Failed to delete task: Request failed with status code 500"
    = Mcp.mkMcpError Mcp.InternalError
        ("Error executing tool " ++ "delete_task" ++ ": "
         ++ caught_message SampleCalls.as_given "null" cause)
    /\ ((exists text,
           cause = Server.OfHandler (Mcp.mkMcpError Mcp.InvalidParams text)
           /\ [(Http.DELETE_project_task "b" "t2", Some "Bearer secret"%string)] = []
           /\ @nil Client.Warning = [])
        \/ (cause = Server.OfHandler
                      (Mcp.mkMcpError Mcp.MethodNotFound
                         ("Unknown tool: " ++ "delete_task"))
            /\ Terms.listed "delete_task" = None
            /\ [(Http.DELETE_project_task "b" "t2", Some "Bearer secret"%string)] = []
            /\ @nil Client.Warning = [])
        \/ (exists text,
              cause = Server.OfClient (Http.PlainError text)
              /\ caught_message SampleCalls.as_given "null" cause = text)).
Proof.
  apply (tool_call_failures_are_internal_errors SampleCalls.as_given "null"
           Sample.remote_down JS.parse_iso Sample.at_noon_jan_11 Sample.token_config
           "delete_task" SampleCalls.both_ids server_start
           (Server.mkWorld (Some (new_TickTickClient Sample.token_config))
              [(Http.DELETE_project_task "b" "t2", Some "Bearer secret"%string)] [])).
  reflexivity.
Defined.

Lemma required_fields_are_enforced_witness :
  Terms.required_present "delete_task" SampleCalls.only_taskId = false
  <-> exists text,
        dispatch Sample.remote JS.parse_iso Sample.at_noon_jan_11 "delete_task"
                 SampleCalls.only_taskId SampleCalls.running
        = (inl (Server.OfHandler (Mcp.mkMcpError Mcp.InvalidParams text)),
           SampleCalls.running).
Proof.
  apply (proj1 (required_fields_are_enforced Sample.remote JS.parse_iso
                  Sample.at_noon_jan_11 "delete_task" SampleCalls.only_taskId
                  (Mcp.mkTool "delete_task" "Delete a task"
                     [Mcp.mkProperty "taskId" Mcp.TString "Task ID to delete (required)";
                      Mcp.mkProperty "projectId" Mcp.TString
                        "Project ID containing the task (required)"]
                     ["taskId"; "projectId"]%string)
                  SampleCalls.running (new_TickTickClient Sample.token_config)
                  eq_refl eq_refl)).
Defined.

Lemma missing_credentials_stop_every_tool_call_witness :
  call_tool SampleCalls.as_given "null" Sample.remote JS.parse_iso Sample.at_noon_jan_11
            Sample.empty_config "get_tasks" None server_start
  = (inl (Mcp.mkMcpError Mcp.InternalError
            "Error executing tool get_tasks: Either TICKTICK_ACCESS_TOKEN or TICKTICK_USERNAME/TICKTICK_PASSWORD environment variables are required"),
     server_start).
Proof.
  apply (proj1 (missing_credentials_stop_every_tool_call SampleCalls.as_given "null"
                  Sample.remote JS.parse_iso Sample.at_noon_jan_11 Sample.empty_config
                  "get_tasks" None server_start eq_refl)
           (conj eq_refl (or_introl eq_refl))).
Defined.

Lemma environment_is_read_once_witness :
  call_tool SampleCalls.as_given "null" Sample.remote JS.parse_iso Sample.at_noon_jan_11
            Sample.password_config "get_projects" None SampleCalls.running
  = call_tool SampleCalls.as_given "null" Sample.remote JS.parse_iso
              Sample.at_noon_jan_11 Sample.empty_config "get_projects" None
              SampleCalls.running.
Proof.
  apply (proj1 (environment_is_read_once SampleCalls.as_given "null" Sample.remote
                  JS.parse_iso Sample.at_noon_jan_11 Sample.password_config
                  Sample.empty_config "get_projects" None SampleCalls.running
                  (new_TickTickClient Sample.token_config) eq_refl)).
Defined.

Lemma timezone_argument_of_the_tool_is_ignored_witness :
  dispatch Sample.remote JS.parse_iso Sample.from_noon_to_midnight "get_overdue_tasks"
           (Some (ToolArgs.mk (TaskFields.mk None None None None None None None)
                              (Some (-5))))
           SampleCalls.running
  = dispatch Sample.remote JS.parse_iso Sample.from_noon_to_midnight "get_overdue_tasks"
             (Some (ToolArgs.mk (TaskFields.mk None None None None None None None)
                                (Some 8)))
             SampleCalls.running.
Proof.
  apply (proj2 (proj2 (proj2 (timezone_argument_of_the_tool_is_ignored Sample.remote
                  JS.parse_iso Sample.from_noon_to_midnight
                  (TaskFields.mk None None None None None None None) (Some 8)
                  SampleCalls.running (new_TickTickClient Sample.token_config)
                  eq_refl))) (Some (-5))).
Defined.

Lemma assigned_names_and_values_are_clean_witness :
  Terms.free_of Dotenv.EQUALS (Dotenv.units "TICKTICK_CLIENT_ID")
  /\ Terms.free_of Dotenv.EQUALS (Dotenv.units "abc")
  /\ Terms.free_of Dotenv.LF (Dotenv.units "TICKTICK_CLIENT_ID")
  /\ Terms.free_of Dotenv.LF (Dotenv.units "abc")
  /\ Terms.trimmed (Dotenv.units "TICKTICK_CLIENT_ID")
  /\ Terms.trimmed (Dotenv.units "abc").
Proof.
  apply (assigned_names_and_values_are_clean SampleEnv.envFile).
  left. reflexivity.
Defined.

Lemma value_is_cut_at_the_second_equals_witness :
  Dotenv.line_assignment (Dotenv.units "SECRET=c2VjcmV0==")
  = [(Dotenv.units "SECRET", Dotenv.units "c2VjcmV0")].
Proof.
  apply (value_is_cut_at_the_second_equals (Dotenv.units "SECRET")
           (Dotenv.units "c2VjcmV0") [Dotenv.EQUALS]);
    unfold Terms.free_of; vm_compute; lia.
Defined.

Lemma written_bindings_are_read_back_witness :
  Dotenv.assignments (Terms.render SampleEnv.bindings) = SampleEnv.bindings.
Proof.
  apply written_bindings_are_read_back.
  repeat constructor; vm_compute; intuition (discriminate || lia).
Defined.

Lemma lines_are_read_one_by_one_witness :
  Dotenv.line_assignment SampleEnv.note = [].
Proof.
  apply (proj1 (proj2 (lines_are_read_one_by_one [] []))).
  unfold Terms.free_of. vm_compute. lia.
Defined.

Lemma checks_come_before_the_trim_witness :
  Dotenv.line_assignment (Dotenv.units "  #note=1")
  = [(Dotenv.units "#note", Dotenv.units "1")].
Proof.
  apply (proj1 (proj2 (checks_come_before_the_trim (Dotenv.units "  ")
                         (Dotenv.units "note") (Dotenv.units "1")
                         ltac:(discriminate) eq_refl ltac:(discriminate)
                         ltac:(discriminate)
                         ltac:(unfold Terms.free_of; vm_compute; lia)
                         ltac:(unfold Terms.free_of; vm_compute; lia)))).
Defined.
